(** * ArduinoScript: lexer, parser, code generator and compiler driver

    A shallow embedding of [src/keywords.py], [src/lexer.py],
    [src/parser.py], [src/codegen.py] and [src/compiler.py], followed by the
    properties of the translation pipeline.

    Python values are modelled as follows.
    - A [str] is the list of its Unicode code points ([pystr]); literals are
      written [py "..."], the UTF-8 decoding of a Rocq string.
    - An [int] is a [Z]; a [float] literal is kept as its lexeme and printed
      by the host ([host_float_str]), since its value is never inspected.
    - Exceptions are explicit: every function that may raise returns an
      [outcome].  A [while] loop takes fuel, and [OutOfFuel] is the outcome
      of a run that needs more iterations than the fuel allows. *)

From Stdlib Require Import NArith ZArith Ascii String Lia.
From Stdlib Require DecimalPos DecimalN.
From stdpp Require Import base option list strings gmap sorting.

Set Default Proof Using "Type".

(** ** Python strings *)

Abbreviation pystr := (list N).

(** A file system: the text of the file at each path. *)
Abbreviation Files := (gmap pystr pystr).

Fixpoint utf8_decode (bs : list N) : pystr :=
  match bs with
  | [] => []
  | b :: rest =>
      if (b <? 128)%N then b :: utf8_decode rest
      else if (b <? 224)%N then
        match rest with
        | b1 :: rest' => ((b - 192) * 64 + (b1 - 128))%N :: utf8_decode rest'
        | _ => []
        end
      else if (b <? 240)%N then
        match rest with
        | b1 :: b2 :: rest' =>
            ((b - 224) * 4096 + (b1 - 128) * 64 + (b2 - 128))%N
              :: utf8_decode rest'
        | _ => []
        end
      else
        match rest with
        | b1 :: b2 :: b3 :: rest' =>
            ((b - 240) * 262144 + (b1 - 128) * 4096 + (b2 - 128) * 64
             + (b3 - 128))%N :: utf8_decode rest'
        | _ => []
        end
  end.

(** [py "text"] is the Python string with that text. *)
Definition py (s : string) : pystr :=
  utf8_decode (N_of_ascii <$> list_ascii_of_string s).

Definition str_eqb (a b : pystr) : bool := bool_decide (a = b).

Fixpoint startswith (s prefix : pystr) {struct prefix} : bool :=
  match prefix, s with
  | [], _ => true
  | p :: prefix', c :: s' => (p =? c)%N && startswith s' prefix'
  | _ :: _, [] => false
  end.

Definition endswith (s suffix : pystr) : bool :=
  startswith (reverse s) (reverse suffix).

(** [sep.join(parts)] *)
Fixpoint join (sep : pystr) (parts : list pystr) : pystr :=
  match parts with
  | [] => []
  | [p] => p
  | p :: rest => p ++ sep ++ join sep rest
  end.

(** [s * n] *)
Fixpoint repeat_str (s : pystr) (n : nat) : pystr :=
  match n with
  | O => []
  | S k => s ++ repeat_str s k
  end.

(** Decimal digits of a [Decimal.uint], most significant first. *)
Fixpoint uint_digits (d : Decimal.uint) : pystr :=
  match d with
  | Decimal.Nil => []
  | Decimal.D0 d' => 48%N :: uint_digits d'
  | Decimal.D1 d' => 49%N :: uint_digits d'
  | Decimal.D2 d' => 50%N :: uint_digits d'
  | Decimal.D3 d' => 51%N :: uint_digits d'
  | Decimal.D4 d' => 52%N :: uint_digits d'
  | Decimal.D5 d' => 53%N :: uint_digits d'
  | Decimal.D6 d' => 54%N :: uint_digits d'
  | Decimal.D7 d' => 55%N :: uint_digits d'
  | Decimal.D8 d' => 56%N :: uint_digits d'
  | Decimal.D9 d' => 57%N :: uint_digits d'
  end.

(** [str(n)] for a non-negative [int]. *)
Definition str_of_N (n : N) : pystr := uint_digits (N.to_uint n).

(** [str(z)] for an [int]. *)
Definition str_of_Z (z : Z) : pystr :=
  match z with
  | Zneg p => 45%N :: str_of_N (Npos p)
  | _ => str_of_N (Z.to_N z)
  end.

(** ** Outcomes of a computation that may raise or run out of fuel *)

(** The exceptions the pipeline raises.  A [SyntaxError] carries the message
    the program builds; the interpreter's own errors carry the attribute or
    the name they are about. *)
Inductive Exn :=
| SyntaxError (msg : pystr)
| AttributeError (attr : string)
| NameError (name : string)
| UnboundLocalError (name : string).

Inductive outcome (A : Type) :=
| Return (a : A)
| Raise (e : Exn)
| OutOfFuel.
Arguments Return {A} a.
Arguments Raise {A} e.
Arguments OutOfFuel {A}.

(** State passing with exceptions. *)
Definition SM (S A : Type) : Type := S -> outcome (A * S).

Definition ret {S A} (a : A) : SM S A := fun s => Return (a, s).

Definition bind {S A B} (m : SM S A) (k : A -> SM S B) : SM S B :=
  fun s =>
    match m s with
    | Return (a, s') => k a s'
    | Raise e => Raise e
    | OutOfFuel => OutOfFuel
    end.

Definition raise {S A} (e : Exn) : SM S A := fun _ => Raise e.
Definition out_of_fuel {S A} : SM S A := fun _ => OutOfFuel.
Definition get {S} : SM S S := fun s => Return (s, s).
Definition modify {S} (f : S -> S) : SM S unit := fun s => Return (tt, f s).

Notation "x <- m ;; k" := (bind m (fun x => k))
  (at level 100, m at next level, right associativity).
Notation "m ;;; k" := (bind m (fun _ => k))
  (at level 100, right associativity).

(** [kind in (k1, k2, ...)] *)
Definition kind_in (kind : string) (kinds : list string) : bool :=
  existsb (String.eqb kind) kinds.

(** ** Values carried by tokens and AST fields *)

Inductive Value :=
| VInt (n : Z)
| VFloat (lexeme : pystr)
| VStr (s : pystr).

#[export] Instance Value_eq_dec : EqDecision Value.
Proof. solve_decision. Defined.

(** ** keywords.py *)

Definition KEYWORDS : list (pystr * string) := [
  (py "цикл", "LOOP"); (py "функция", "FUNCTION"); (py "если", "IF");
  (py "иначе", "ELSE"); (py "иначе_если", "ELIF"); (py "для", "FOR");
  (py "пока", "WHILE"); (py "прервать", "BREAK");
  (py "продолжить", "CONTINUE"); (py "вернуть", "RETURN");
  (py "конец", "END");
  (py "целое", "INT"); (py "дробное", "FLOAT"); (py "булево", "BOOL");
  (py "символ", "CHAR"); (py "строка", "STRING"); (py "массив", "ARRAY");
  (py "пусто", "VOID");
  (py "истина", "TRUE"); (py "ложь", "FALSE"); (py "высоко", "HIGH");
  (py "низко", "LOW"); (py "включено", "ON"); (py "выключено", "OFF");
  (py "вход", "INPUT"); (py "выход", "OUTPUT");
  (py "вход_подтяжка", "INPUT_PULLUP"); (py "аналог", "ANALOG");
  (py "шим", "PWM");
  (py "пин", "PIN"); (py "режим", "PINMODE");
  (py "цифрзапись", "DIGITALWRITE"); (py "цифрчтение", "DIGITALREAD");
  (py "аналогзапись", "ANALOGWRITE"); (py "аналогчтение", "ANALOGREAD");
  (py "ждать", "DELAY"); (py "миллис", "MILLIS"); (py "микрос", "MICROS");
  (py "прерывание", "ATTACHINTERRUPT");
  (py "отключить_прерывание", "DETACHINTERRUPT"); (py "пауза", "PAUSE");
  (py "случайное", "RANDOM");
  (py "последовательный", "SERIAL");
  (py "начать_последовательный", "SERIAL_BEGIN"); (py "печать", "PRINT");
  (py "печать_строка", "PRINTLN"); (py "доступно", "AVAILABLE");
  (py "читать", "READ"); (py "найти", "FIND"); (py "найти_до", "FIND_UNTIL");
  (py "очистить", "FLUSH");
  (py "пи", "PI"); (py "макс", "MAX"); (py "мин", "MIN");
  (py "ограничить", "CONSTRAIN"); (py "отобразить", "MAP");
  (py "степень", "POW"); (py "квадрат", "SQ"); (py "корень", "SQRT");
  (py "абсолют", "ABS"); (py "синус", "SIN"); (py "косинус", "COS");
  (py "тангенс", "TAN"); (py "случайное_семя", "RANDOM_SEED");
  (py "бит_читать", "BITREAD"); (py "бит_записать", "BITWRITE");
  (py "бит_установить", "BITSET"); (py "бит_очистить", "BITCLEAR");
  (py "изменить", "CHANGE"); (py "возрастание", "RISING");
  (py "убывание", "FALLING");
  (py "секунды", "SECONDS"); (py "минуты", "MINUTES"); (py "часы", "HOURS");
  (py "и", "AND"); (py "или", "OR"); (py "не", "NOT"); (py "больше", "GT");
  (py "меньше", "LT"); (py "равно", "EQ"); (py "не_равно", "NEQ");
  (py "больше_равно", "GTE"); (py "меньше_равно", "LTE")
].

Definition PIN_ALIASES : list (pystr * Value) := [
  (py "светодиод", VInt 13); (py "кнопка", VInt 2);
  (py "потенциометр", VStr (py "A0")); (py "термистор", VStr (py "A1"));
  (py "фоторезистор", VStr (py "A2")); (py "зуммер", VInt 3);
  (py "серво", VInt 9); (py "ультразвук_триггер", VInt 10);
  (py "ультразвук_эхо", VInt 11); (py "дисплей_sda", VStr (py "A4"));
  (py "дисплей_scl", VStr (py "A5"))
].

(** [d.get(k)] on a dict literal with [str] keys. *)
Fixpoint dict_get {A} (d : list (pystr * A)) (k : pystr) : option A :=
  match d with
  | [] => None
  | (k', v) :: d' => if str_eqb k' k then Some v else dict_get d' k
  end.

(** ** lexer.py *)

Record Token := {
  tk_type : string;
  tk_value : Value;
  tk_line : N;
  tk_column : N;
}.

(** The fragment of regular expressions the token patterns are written in.
    Every repeated class is followed by the end of its pattern or by a
    character outside the class, so the greedy match never backtracks; the
    one lazy repetition, [[\s\S]*?], is followed by a literal and ends its
    pattern. *)
Inductive atom :=
| Lit (c : N)
| Cls (p : N -> bool)
| Plus (p : N -> bool)
| Star (p : N -> bool)
| LazyTo (stop : pystr).

Fixpoint span_len (p : N -> bool) (s : pystr) : nat :=
  match s with
  | c :: s' => if p c then S (span_len p s') else O
  | [] => O
  end.

(** Number of characters before the first occurrence of [stop]. *)
Fixpoint find_lit (stop s : pystr) : option nat :=
  if startswith s stop then Some O
  else match s with
       | [] => None
       | _ :: s' => S <$> find_lit stop s'
       end.

(** Length of the match of a pattern at the start of [s]. *)
Fixpoint re_match (re : list atom) (s : pystr) : option nat :=
  match re with
  | [] => Some O
  | Lit c :: re' =>
      match s with
      | c' :: s' => if (c =? c')%N then S <$> re_match re' s' else None
      | [] => None
      end
  | Cls p :: re' =>
      match s with
      | c' :: s' => if p c' then S <$> re_match re' s' else None
      | [] => None
      end
  | Plus p :: re' =>
      let n := span_len p s in
      match n with
      | O => None
      | _ => Nat.add n <$> re_match re' (drop n s)
      end
  | Star p :: re' =>
      let n := span_len p s in
      Nat.add n <$> re_match re' (drop n s)
  | LazyTo stop :: re' =>
      match find_lit stop s with
      | None => None
      | Some k =>
          let n := (k + length stop)%nat in
          Nat.add n <$> re_match re' (drop n s)
      end
  end.

Definition lit (s : string) : list atom := Lit <$> py s.

Definition one_of (s : string) (c : N) : bool := bool_decide (c ∈ py s).
Definition none_of (cs : list N) (c : N) : bool := negb (bool_decide (c ∈ cs)).
(** [[ \t]] *)
Definition blank (c : N) : bool := (c =? 32)%N || (c =? 9)%N.
Definition in_range (lo hi c : N) : bool := (lo <=? c)%N && (c <=? hi)%N.

Definition hex_digit (c : N) : bool :=
  in_range 48 57 c || in_range 65 70 c || in_range 97 102 c.

(** [[a-zA-Zа-яА-Я_]] *)
Definition id_start (c : N) : bool :=
  in_range 97 122 c || in_range 65 90 c || in_range 1072 1103 c
  || in_range 1040 1071 c || (c =? 95)%N.

(** [[a-zA-Zа-яА-Я0-9_]] *)
Definition id_part (c : N) : bool := id_start c || in_range 48 57 c.

(** [token_regex.match] at one position: the alternatives are tried in the
    order of [token_specs] and the first that matches is taken. *)
Fixpoint first_match (specs : list (string * list atom)) (s : pystr)
  : option (string * nat) :=
  match specs with
  | [] => None
  | (name, re) :: specs' =>
      match re_match re s with
      | Some n => Some (name, n)
      | None => first_match specs' s
      end
  end.

(** ** parser.py: the syntax tree *)

(** The condition of an [IfNode]: what [parse_expression] returns, a
    [BinaryOpNode] or the bare left operand. *)
Inductive Cond :=
| CondBinaryOp (left : Value) (op : string) (right : Value)
| CondValue (v : Value).

#[warnings="-register-all"] Inductive Node :=
| PinDeclarationNode (pin : Value) (mode : Value) (value : option Value)
| DigitalWriteNode (pin value : Value)
| DigitalReadNode (pin : Value)
| AnalogWriteNode (pin value : Value)
| AnalogReadNode (pin : Value)
| DelayNode (duration : Value)
| SerialBeginNode (baud_rate : Value)
| SerialPrintNode (value : Value) (newline : bool)
| LoopNode (children : list Node)
| IfNode (condition : Cond) (children : list Node)
| VariableDeclarationNode (name : Value) (type : string)
    (value : option Value)
| AssignmentNode (name value : Value)
| FunctionCallNode (name : Value) (args : list Value) (children : list Node)
| BinaryOpNode (left : Value) (op : string) (right : Value).

Inductive Program := ProgramNode (children : list Node).

Definition program_children (p : Program) : list Node :=
  match p with ProgramNode cs => cs end.

(** Entries of the symbol table. *)
Inductive Symbol :=
| SymPin (mode : Value)
| SymVariable (type : string) (value : option Value)
| SymFunction (params : list (string * Value)).

(** [d[k] = v] on a dict, which keeps the order of first insertion. *)
Fixpoint dict_set {A} (d : list (Value * A)) (k : Value) (v : A)
  : list (Value * A) :=
  match d with
  | [] => [(k, v)]
  | (k', v') :: d' =>
      if bool_decide (k' = k) then (k, v) :: d' else (k', v') :: dict_set d' k v
  end.

(** ** The host interpreter

    [str.upper], [str.lower], [str.isdigit], the regular-expression class
    [\d] and the printing of floats are the interpreter's, and depend on its
    Unicode tables.  On Basic Latin and on the Cyrillic letters
    U+0410..U+044F (the alphabets of the lexer's identifier pattern) they
    are given here; everything else is taken from the host:
    - [host_decimal c]: the digit value of [c] when it is of class [\d];
    - [host_upper], [host_lower], [host_isdigit]: the string methods;
    - [host_float_str lx]: [str(float(lx))];
    - [host_float_nonzero lx]: [bool(float(lx))]. *)

Record Host := {
  host_decimal : N -> option Z;
  host_upper : pystr -> pystr;
  host_lower : pystr -> pystr;
  host_isdigit : pystr -> bool;
  host_float_str : pystr -> pystr;
  host_float_nonzero : pystr -> bool;
}.

Definition basic (c : N) : bool :=
  (c <? 128)%N || ((1040 <=? c)%N && (c <=? 1103)%N).

Definition ascii_decimal (c : N) : option Z :=
  if (48 <=? c)%N && (c <=? 57)%N then Some (Z.of_N (c - 48)) else None.

Definition upper_basic (c : N) : N :=
  if ((97 <=? c)%N && (c <=? 122)%N) || ((1072 <=? c)%N && (c <=? 1103)%N)
  then (c - 32)%N else c.

Definition lower_basic (c : N) : N :=
  if ((65 <=? c)%N && (c <=? 90)%N) || ((1040 <=? c)%N && (c <=? 1071)%N)
  then (c + 32)%N else c.

(** The host that knows nothing beyond the basic alphabets. *)
Definition basic_host : Host := {|
  host_decimal := fun _ => None;
  host_upper := fun s => s;
  host_lower := fun s => s;
  host_isdigit := fun _ => false;
  host_float_str := fun s => s;
  host_float_nonzero := fun _ => true;
|}.

Section WithHost.

Variable H : Host.

(** Digit value of a character of class [\d], if it is one. *)
Definition decimal (c : N) : option Z :=
  if basic c then ascii_decimal c else host_decimal H c.

Definition is_decimal (c : N) : bool :=
  match decimal c with Some _ => true | None => false end.

Definition upper (s : pystr) : pystr :=
  if forallb basic s then upper_basic <$> s else host_upper H s.

Definition lower (s : pystr) : pystr :=
  if forallb basic s then lower_basic <$> s else host_lower H s.

Definition isdigit (s : pystr) : bool :=
  if forallb basic s
  then negb (bool_decide (s = [])) && forallb is_decimal s
  else host_isdigit H s.

(** [str(v)], also what an f-string field prints. *)
Definition str (v : Value) : pystr :=
  match v with
  | VInt n => str_of_Z n
  | VFloat lx => host_float_str H lx
  | VStr s => s
  end.

(** The token patterns of [Lexer.__init__], in their order. *)
Definition token_specs : list (string * list atom) := [
  ("WHITESPACE", [Plus blank]);
  ("NEWLINE", [Lit 10%N]);
  ("COMMENT", lit "//" ++ [Star (none_of [10%N])]);
  ("ML_COMMENT", lit "/*" ++ [LazyTo (py "*/")]);
  ("FLOAT", [Plus is_decimal; Lit 46%N; Plus is_decimal]);
  ("INTEGER", [Plus is_decimal]);
  ("HEX", lit "0x" ++ [Plus hex_digit]);
  ("BINARY", lit "0b" ++ [Plus (one_of "01")]);
  ("STRING", [Lit 34%N; Star (none_of [34%N]); Lit 34%N]);
  ("CHAR", [Lit 39%N; Cls (none_of [39%N]); Lit 39%N]);
  ("ASSIGN", lit "=");
  ("PLUS", lit "+");
  ("MINUS", lit "-");
  ("MULTIPLY", lit "*");
  ("DIVIDE", lit "/");
  ("MODULO", lit "%");
  ("POWER", lit "**");
  ("EQ", lit "==");
  ("NEQ", lit "!=");
  ("LT", lit "<");
  ("LTE", lit "<=");
  ("GT", lit ">");
  ("GTE", lit ">=");
  ("AND", lit "&&");
  ("OR", lit "||");
  ("NOT", lit "!");
  ("LPAREN", lit "(");
  ("RPAREN", lit ")");
  ("LBRACE", lit "{");
  ("RBRACE", lit "}");
  ("LBRACKET", lit "[");
  ("RBRACKET", lit "]");
  ("COMMA", lit ",");
  ("COLON", lit ":");
  ("SEMICOLON", lit ";");
  ("DOT", lit ".");
  ("ARROW", lit "->");
  ("PIN_PREFIX", [Cls (one_of "DA"); Plus is_decimal]);
  ("ID", [Cls id_start; Star id_part])
].

(** [int(value, base)] on a string of digits; the bound the interpreter
    puts on the number of digits it converts is not modelled. *)
Definition digit_of (c : N) : Z :=
  match decimal c with
  | Some d => d
  | None =>
      if in_range 97 102 c then Z.of_N (c - 87)
      else if in_range 65 70 c then Z.of_N (c - 55) else 0%Z
  end.

Definition int_of (base : Z) (digits : pystr) : Z :=
  foldl (fun acc c => (acc * base + digit_of c)%Z) 0%Z digits.

Record Lexer := {
  lx_line : N;
  lx_column : N;
  lx_tokens : list Token;
}.

Definition count_char (c : N) (s : pystr) : nat :=
  length (filter (fun x => x = c) s).

Definition len (s : pystr) : N := N.of_nat (length s).

(** [value[1:-1]] *)
Definition strip_ends (s : pystr) : pystr :=
  take (length s - 2) (drop 1 s).

(** The body of the loop of [Lexer.tokenize] for one match. *)
Definition lex_step (kind : string) (value : pystr) (lx : Lexer) : Lexer :=
  let line := lx_line lx in
  let column := lx_column lx in
  if String.eqb kind "NEWLINE" then
    {| lx_line := (line + 1)%N; lx_column := 1%N; lx_tokens := lx_tokens lx |}
  else if String.eqb kind "WHITESPACE" then
    {| lx_line := line; lx_column := (column + len value)%N;
       lx_tokens := lx_tokens lx |}
  else if String.eqb kind "COMMENT" || String.eqb kind "ML_COMMENT" then
    let lines := count_char 10%N value in
    {| lx_line := (line + N.of_nat lines)%N;
       lx_column := match lines with
                    | O => (column + len value)%N
                    | _ => 1%N
                    end;
       lx_tokens := lx_tokens lx |}
  else
    let '(kind', value') :=
      if String.eqb kind "ID" then
        match dict_get KEYWORDS value with
        | Some k => (k, VStr value)
        | None => (kind, VStr value)
        end
      else if String.eqb kind "INTEGER" then (kind, VInt (int_of 10 value))
      else if String.eqb kind "FLOAT" then (kind, VFloat value)
      else if String.eqb kind "HEX" then (kind, VInt (int_of 16 (drop 2 value)))
      else if String.eqb kind "BINARY" then
        (kind, VInt (int_of 2 (drop 2 value)))
      else if String.eqb kind "STRING" then (kind, VStr (strip_ends value))
      else if String.eqb kind "CHAR" then (kind, VStr (strip_ends value))
      else (kind, VStr value) in
    {| lx_line := line; lx_column := (column + len value)%N;
       lx_tokens := lx_tokens lx ++
         [{| tk_type := kind'; tk_value := value';
             tk_line := line; tk_column := column |}] |}.

(** [token_regex.finditer]: the scan looks for a match at each position from
    left to right; a match of [n] characters is processed and the next [n-1]
    positions lie inside it; a position where nothing matches is passed
    over.  [skip] counts the positions still inside the last match. *)
Fixpoint scan (s : pystr) (skip : nat) (lx : Lexer) : Lexer :=
  match s with
  | [] => lx
  | _ :: s' =>
      match skip with
      | S k => scan s' k lx
      | O =>
          match first_match token_specs s with
          | None => scan s' O lx
          | Some (kind, n) => scan s' (n - 1) (lex_step kind (take n s) lx)
          end
      end
  end.

Definition tokenize (code : pystr) : list Token :=
  let lx := scan code O {| lx_line := 1; lx_column := 1; lx_tokens := [] |} in
  lx_tokens lx ++
    [{| tk_type := "EOF"; tk_value := VStr []; tk_line := lx_line lx;
        tk_column := lx_column lx |}].

(** ** parser.py: the parser *)

Record Parser := {
  tokens : list Token;
  pos : nat;
  current_token : option Token;
  symbols : list (Value * Symbol);
}.

Definition PM := SM Parser.

Definition advance : PM (option Token) := fun p =>
  if bool_decide (pos p < length (tokens p))%nat then
    let t := tokens p !! pos p in
    Return (t, {| tokens := tokens p; pos := S (pos p); current_token := t;
                  symbols := symbols p |})
  else
    Return (None, {| tokens := tokens p; pos := pos p; current_token := None;
                     symbols := symbols p |}).

Definition peek : PM (option Token) := fun p =>
  if bool_decide (pos p < length (tokens p))%nat
  then Return (tokens p !! pos p, p) else Return (None, p).

Definition cur : PM (option Token) := fun p => Return (current_token p, p).

(** [self.current_token.<attr>], which fails when there is no token. *)
Definition cur_attr (attr : string) : PM Token :=
  ct <- cur;;
  match ct with
  | Some t => ret t
  | None => raise (AttributeError attr)
  end.

Definition cur_type : PM string := t <- cur_attr "type";; ret (tk_type t).
Definition cur_value : PM Value := t <- cur_attr "value";; ret (tk_value t).

(** [self.current_token and self.current_token.type in kinds] *)
Definition cur_in (kinds : list string) : PM bool :=
  ct <- cur;;
  ret match ct with
      | Some t => kind_in (tk_type t) kinds
      | None => false
      end.

(** [self.current_token and self.current_token.type not in kinds] *)
Definition cur_not_in (kinds : list string) : PM bool :=
  ct <- cur;;
  ret match ct with
      | Some t => negb (kind_in (tk_type t) kinds)
      | None => false
      end.

Definition set_symbol (name : Value) (sym : Symbol) : PM unit :=
  modify (fun p => {| tokens := tokens p; pos := pos p;
                      current_token := current_token p;
                      symbols := dict_set (symbols p) name sym |}).

(** [expect(token_type)]; no caller passes [error_msg]. *)
Definition expect (token_type : string) : PM Token :=
  ct <- cur;;
  match ct with
  | Some t =>
      if String.eqb (tk_type t) token_type then advance;;; ret t
      else
        let error_msg :=
          py "Ожидался " ++ py token_type ++ py ", получен "
            ++ py (tk_type t) in
        raise (SyntaxError (py "Строка " ++ str_of_N (tk_line t) ++ py ":"
                              ++ str_of_N (tk_column t) ++ py " - "
                              ++ error_msg))
  | None => raise (AttributeError "line")
  end.

Definition parse_pin_declaration : PM Node :=
  expect "PIN";;;
  ty <- cur_type;;
  pin <- (if kind_in ty ["INTEGER"; "PIN_PREFIX"; "ID"]
          then v <- cur_value;; advance;;; ret v
          else raise (SyntaxError (py "Ожидался номер пина")));;
  expect "ASSIGN";;;
  ty <- cur_type;;
  mode <- (if kind_in ty ["OUTPUT"; "INPUT"; "INPUT_PULLUP"]
           then v <- cur_value;; advance;;; ret v
           else raise (SyntaxError
                  (py "Ожидался режим пина (выход, вход, вход_подтяжка)")));;
  has_value <- cur_in ["ASSIGN"];;
  value <- (if has_value then
              advance;;;
              ty <- cur_type;;
              if kind_in ty ["HIGH"; "LOW"; "INTEGER"]
              then v <- cur_value;; advance;;; ret (Some v)
              else ret None
            else ret None);;
  set_symbol pin (SymPin mode);;;
  ret (PinDeclarationNode pin mode value).

(** [value.upper()], defined on strings only. *)
Definition value_upper (v : Value) : PM Value :=
  match v with
  | VStr s => ret (VStr (upper s))
  | _ => raise (AttributeError "upper")
  end.

(** The argument loop of [parse_function_call]. *)
Fixpoint call_args (fuel : nat) (args : list Value) : PM (list Value) :=
  more <- cur_not_in ["RPAREN"];;
  if more then
    match fuel with
    | O => out_of_fuel
    | S fuel' =>
        ty <- cur_type;;
        v <- cur_value;;
        arg <- (if String.eqb ty "ID" then ret v
                else if kind_in ty ["INTEGER"; "FLOAT"; "STRING"] then ret v
                else if kind_in ty ["HIGH"; "LOW"] then value_upper v
                else ret v);;
        advance;;;
        comma <- cur_in ["COMMA"];;
        (if comma then advance;;; ret tt else ret tt);;;
        call_args fuel' (args ++ [arg])
    end
  else ret args.

Definition is_name (v : Value) (s : string) : bool :=
  bool_decide (v = VStr (py s)).

Definition call_node (func_name : Value) (args : list Value) : Node :=
  let generic := FunctionCallNode func_name args [] in
  if is_name func_name "цифрзапись" then
    match args with
    | a0 :: a1 :: _ => DigitalWriteNode a0 a1
    | _ => generic
    end
  else if is_name func_name "аналогзапись" then
    match args with
    | a0 :: a1 :: _ => AnalogWriteNode a0 a1
    | _ => generic
    end
  else if is_name func_name "цифрчтение" then
    match args with
    | a0 :: _ => DigitalReadNode a0
    | _ => generic
    end
  else if is_name func_name "аналогчтение" then
    match args with
    | a0 :: _ => AnalogReadNode a0
    | _ => generic
    end
  else if is_name func_name "ждать" then
    match args with
    | a0 :: _ => DelayNode a0
    | _ => generic
    end
  else if is_name func_name "печать" then
    SerialPrintNode (match args with a0 :: _ => a0 | [] => VStr [] end) false
  else if is_name func_name "печать_строка" then
    SerialPrintNode (match args with a0 :: _ => a0 | [] => VStr [] end) true
  else generic.

Definition parse_function_call (fuel : nat) : PM Node :=
  func_name <- cur_value;;
  advance;;;
  expect "LPAREN";;;
  args <- call_args fuel [];;
  expect "RPAREN";;;
  ret (call_node func_name args).

Definition parse_serial_begin : PM Node :=
  expect "SERIAL_BEGIN";;;
  expect "LPAREN";;;
  baud_rate <- cur_value;;
  ty <- cur_type;;
  if negb (String.eqb ty "INTEGER") then
    raise (SyntaxError (py "Ожидалась скорость передачи (целое число)"))
  else
    advance;;;
    expect "RPAREN";;;
    ret (SerialBeginNode baud_rate).

Definition comparison_ops : list string :=
  ["EQ"; "NEQ"; "LT"; "LTE"; "GT"; "GTE"].

Definition parse_expression : PM Cond :=
  ty <- cur_type;;
  if kind_in ty ["INTEGER"; "FLOAT"; "ID"] then
    left <- cur_value;;
    advance;;;
    is_op <- cur_in comparison_ops;;
    if is_op then
      op <- cur_type;;
      advance;;;
      ty' <- cur_type;;
      if kind_in ty' ["INTEGER"; "FLOAT"; "ID"] then
        right <- cur_value;;
        advance;;;
        ret (CondBinaryOp left op right)
      else ret (CondValue left)
    else ret (CondValue left)
  else raise (UnboundLocalError "left").

Definition parse_variable_declaration : PM Node :=
  var_type <- cur_type;;
  advance;;;
  name_tok <- expect "ID";;
  let name := tk_value name_tok in
  has_value <- cur_in ["ASSIGN"];;
  value <- (if has_value then
              advance;;;
              ty <- cur_type;;
              if kind_in ty ["INTEGER"; "FLOAT"; "STRING"; "TRUE"; "FALSE"]
              then v <- cur_value;; advance;;; ret (Some v)
              else ret None
            else ret None);;
  set_symbol name (SymVariable var_type value);;;
  ret (VariableDeclarationNode name var_type value).

Definition parse_assignment : PM Node :=
  name <- cur_value;;
  advance;;;
  expect "ASSIGN";;;
  value <- cur_value;;
  advance;;;
  ret (AssignmentNode name value).

(** The body loops of [parse_if], [parse_while], [parse_for] and
    [parse_function_declaration]: calls are collected, any other token is
    passed over, until a token of [stops] or the end of the tokens. *)
Fixpoint call_block (fuel : nat) (stops : list string) (children : list Node)
  : PM (list Node) :=
  more <- cur_not_in stops;;
  if more then
    match fuel with
    | O => out_of_fuel
    | S fuel' =>
        ty <- cur_type;;
        if kind_in ty ["DIGITALWRITE"; "ANALOGWRITE"; "DELAY"] then
          node <- parse_function_call fuel';;
          call_block fuel' stops (children ++ [node])
        else
          advance;;;
          call_block fuel' stops children
    end
  else ret children.

(** [if self.current_token and self.current_token.type == 'END':
    self.advance()] *)
Definition skip_end : PM unit :=
  is_end <- cur_in ["END"];;
  if is_end then advance;;; ret tt else ret tt.

Definition parse_if (fuel : nat) : PM Node :=
  expect "IF";;;
  condition <- parse_expression;;
  expect "COLON";;;
  children <- call_block fuel ["EOF"; "END"; "ELSE"; "ELIF"] [];;
  has_else <- cur_in ["ELSE"; "ELIF"];;
  children <- (if has_else then
                 advance;;;
                 ty <- cur_type;;
                 if String.eqb ty "COLON" then
                   advance;;;
                   call_block fuel ["EOF"; "END"] children
                 else ret children
               else ret children);;
  skip_end;;;
  ret (IfNode condition children).

Definition parse_while (fuel : nat) : PM Node :=
  expect "WHILE";;;
  condition <- parse_expression;;
  expect "COLON";;;
  children <- call_block fuel ["EOF"; "END"] [];;
  skip_end;;;
  ret (LoopNode children).

Definition parse_for (fuel : nat) : PM Node :=
  expect "FOR";;;
  expect "LPAREN";;;
  ty <- cur_type;;
  (if kind_in ty ["INT"; "ID"] then
     if String.eqb ty "INT" then parse_variable_declaration;;; ret tt
     else parse_assignment;;; ret tt
   else ret tt);;;
  expect "SEMICOLON";;;
  condition <- parse_expression;;
  expect "SEMICOLON";;;
  ty <- cur_type;;
  (if String.eqb ty "ID" then parse_assignment;;; ret tt else ret tt);;;
  expect "RPAREN";;;
  expect "COLON";;;
  children <- call_block fuel ["EOF"; "END"] [];;
  skip_end;;;
  ret (LoopNode children).

(** The statement loop of [parse_loop]. *)
Fixpoint loop_block (fuel : nat) (children : list Node) : PM (list Node) :=
  more <- cur_not_in ["EOF"; "END"];;
  if more then
    match fuel with
    | O => out_of_fuel
    | S fuel' =>
        ty <- cur_type;;
        if String.eqb ty "PIN" then
          node <- parse_pin_declaration;;
          loop_block fuel' (children ++ [node])
        else if kind_in ty
                  ["DIGITALWRITE"; "ANALOGWRITE"; "DELAY"; "PRINT"; "PRINTLN"]
        then
          node <- parse_function_call fuel';;
          loop_block fuel' (children ++ [node])
        else if String.eqb ty "IF" then
          node <- parse_if fuel';;
          loop_block fuel' (children ++ [node])
        else if String.eqb ty "WHILE" then
          node <- parse_while fuel';;
          loop_block fuel' (children ++ [node])
        else if String.eqb ty "FOR" then
          node <- parse_for fuel';;
          loop_block fuel' (children ++ [node])
        else
          advance;;;
          loop_block fuel' children
    end
  else ret children.

Definition parse_loop (fuel : nat) : PM Node :=
  expect "LOOP";;;
  expect "COLON";;;
  children <- loop_block fuel [];;
  skip_end;;;
  ret (LoopNode children).

(** The parameter loop of [parse_function_declaration].  A token that is
    neither a parameter type nor the closing parenthesis is not consumed:
    the loop has no [else] branch. *)
Fixpoint function_params (fuel : nat) (params : list (string * Value))
  : PM (list (string * Value)) :=
  more <- cur_not_in ["RPAREN"];;
  if more then
    match fuel with
    | O => out_of_fuel
    | S fuel' =>
        ty <- cur_type;;
        if kind_in ty ["INT"; "FLOAT"; "BOOL"] then
          advance;;;
          name_tok <- expect "ID";;
          comma <- cur_in ["COMMA"];;
          (if comma then advance;;; ret tt else ret tt);;;
          function_params fuel' (params ++ [(ty, tk_value name_tok)])
        else
          function_params fuel' params
    end
  else ret params.

Definition parse_function_declaration (fuel : nat) : PM Node :=
  expect "FUNCTION";;;
  name_tok <- expect "ID";;
  let name := tk_value name_tok in
  expect "LPAREN";;;
  params <- function_params fuel [];;
  expect "RPAREN";;;
  expect "COLON";;;
  set_symbol name (SymFunction params);;;
  children <- call_block fuel ["EOF"; "END"; "RETURN"] [];;
  has_return <- cur_in ["RETURN"];;
  (if has_return then
     advance;;;
     ty <- cur_type;;
     if kind_in ty ["INTEGER"; "FLOAT"; "ID"] then advance;;; ret tt
     else ret tt
   else ret tt);;;
  skip_end;;;
  ret (FunctionCallNode name [] children).

(** The loop of [Parser.parse]. *)
Fixpoint parse_program (fuel : nat) (children : list Node)
  : PM (list Node) :=
  more <- cur_not_in ["EOF"];;
  if more then
    match fuel with
    | O => out_of_fuel
    | S fuel' =>
        ty <- cur_type;;
        next <- peek;;
        let next_is_assign :=
          match next with
          | Some t => String.eqb (tk_type t) "ASSIGN"
          | None => false
          end in
        if String.eqb ty "PIN" then
          node <- parse_pin_declaration;;
          parse_program fuel' (children ++ [node])
        else if String.eqb ty "FUNCTION" then
          node <- parse_function_declaration fuel';;
          parse_program fuel' (children ++ [node])
        else if String.eqb ty "LOOP" then
          node <- parse_loop fuel';;
          parse_program fuel' (children ++ [node])
        else if String.eqb ty "SERIAL_BEGIN" then
          node <- parse_serial_begin;;
          parse_program fuel' (children ++ [node])
        else if kind_in ty ["INT"; "FLOAT"; "BOOL"; "CHAR"; "STRING"] then
          node <- parse_variable_declaration;;
          parse_program fuel' (children ++ [node])
        else if String.eqb ty "ID" && next_is_assign then
          node <- parse_assignment;;
          parse_program fuel' (children ++ [node])
        else if kind_in ty
                  ["DIGITALWRITE"; "ANALOGWRITE"; "DELAY"; "PRINT"; "PRINTLN"]
        then
          node <- parse_function_call fuel';;
          parse_program fuel' (children ++ [node])
        else
          advance;;;
          parse_program fuel' children
    end
  else ret children.

(** [Parser(tokens)] *)
Definition Parser_init (toks : list Token) : Parser :=
  match advance {| tokens := toks; pos := O; current_token := None;
                   symbols := [] |} with
  | Return (_, p) => p
  | _ => {| tokens := toks; pos := O; current_token := None; symbols := [] |}
  end.

(** [Parser.parse], from the state of the parser. *)
Definition parse_from (fuel : nat) : PM Program :=
  children <- parse_program fuel [];;
  ret (ProgramNode children).

(** [Parser(tokens).parse()] *)
Definition parse (fuel : nat) (toks : list Token) : outcome Program :=
  match parse_from fuel (Parser_init toks) with
  | Return (program, _) => Return program
  | Raise e => Raise e
  | OutOfFuel => OutOfFuel
  end.

(** ** codegen.py *)

Record CodeGenerator := {
  output : list pystr;
  indent_level : nat;
  variables : list (Value * (string * option Value));
  in_setup : bool;
  includes : gset pystr;
}.

Definition GM := SM CodeGenerator.

(** [CodeGenerator(ast)]; the tree itself is passed to [generate]. *)
Definition CodeGenerator_init : CodeGenerator := {|
  output := [];
  indent_level := O;
  variables := [];
  in_setup := true;
  includes := {[ py "<Arduino.h>" ]};
|}.

(** [self.output.append(line)] *)
Definition emit (line : pystr) : GM unit :=
  modify (fun g => {| output := output g ++ [line];
                      indent_level := indent_level g;
                      variables := variables g; in_setup := in_setup g;
                      includes := includes g |}).

Definition set_indent (f : nat -> nat) : GM unit :=
  modify (fun g => {| output := output g;
                      indent_level := f (indent_level g);
                      variables := variables g; in_setup := in_setup g;
                      includes := includes g |}).

Definition lift {S A} (o : outcome A) : SM S A :=
  fun s =>
    match o with
    | Return a => Return (a, s)
    | Raise e => Raise e
    | OutOfFuel => OutOfFuel
    end.

(** The names bound at module level in [codegen.py]: its one import
    statement and its class.  Reading any other global name raises. *)
Definition codegen_globals : list string :=
  ["KEYWORDS"; "PIN_ALIASES"; "ARDUINO_FUNCTIONS"; "CodeGenerator"].

Definition global_name (name : string) : outcome unit :=
  if kind_in name codegen_globals then Return tt else Raise (NameError name).

Definition map_type (type_name : string) : pystr :=
  let type_map := [
    ("INT", py "int"); ("FLOAT", py "float"); ("BOOL", py "bool");
    ("CHAR", py "char"); ("STRING", py "String"); ("VOID", py "void");
    ("LONG", py "long"); ("BYTE", py "byte"); ("WORD", py "word")
  ] in
  match find (fun kv => String.eqb (fst kv) type_name) type_map with
  | Some kv => snd kv
  | None => py "int"
  end.

Definition normalize_pin (pin : Value) : outcome pystr :=
  match pin with
  | VStr s =>
      let pin' := match dict_get PIN_ALIASES s with
                  | Some alias => alias
                  | None => VStr s
                  end in
      match pin' with
      | VStr s' =>
          if startswith s' (py "D") then Return (drop 1 s')
          else if startswith (upper s') (py "A") then Return (upper s')
          else Return (str pin')
      | _ => Raise (AttributeError "startswith")
      end
  | _ => Return (str pin)
  end.

Definition truthy_words : list pystr :=
  [py "истина"; py "true"; py "высоко"; py "включено"].
Definition falsy_words : list pystr :=
  [py "ложь"; py "false"; py "низко"; py "выключено"].

Definition quote : pystr := [34%N].

Definition normalize_value (value : Value) (var_type : option string)
  : outcome pystr :=
  match value with
  | VStr s =>
      let value_lower := lower s in
      if bool_decide (value_lower ∈ truthy_words) then
        Return (if bool_decide (var_type = Some "pin") then py "HIGH"
                else py "true")
      else if bool_decide (value_lower ∈ falsy_words) then
        Return (if bool_decide (var_type = Some "pin") then py "LOW"
                else py "false")
      else
        match dict_get PIN_ALIASES s with
        | Some alias => normalize_pin alias
        | None =>
            if bool_decide (var_type = Some "STRING")
               && negb (startswith s quote && endswith s quote)
            then Return (quote ++ s ++ quote)
            else Return (str value)
        end
  | _ => Return (str value)
  end.

(** [bool(value)] *)
Definition truth (v : Value) : bool :=
  match v with
  | VInt n => negb (n =? 0)%Z
  | VFloat lx => host_float_nonzero H lx
  | VStr s => negb (bool_decide (s = []))
  end.

(** Lexicographic order of strings by code point, the order of [sorted]. *)
Fixpoint str_leb (a b : pystr) : bool :=
  match a, b with
  | [], _ => true
  | _ :: _, [] => false
  | x :: a', y :: b' => (x <? y)%N || ((x =? y)%N && str_leb a' b')
  end.

Fixpoint insert_sorted (x : pystr) (l : list pystr) : list pystr :=
  match l with
  | [] => [x]
  | y :: l' => if str_leb x y then x :: l else y :: insert_sorted x l'
  end.

(** [sorted(aset)] *)
Definition sorted (s : gset pystr) : list pystr :=
  foldr insert_sorted [] (elements s).

(** The declaration of one global variable in [generate_header]. *)
Definition global_declaration (var_name : Value)
    (var_info : string * option Value) : list pystr :=
  let '(type, value) := var_info in
  if String.eqb type "pin" then []
  else
    let c_type := map_type type in
    match value with
    | Some v =>
        if String.eqb type "STRING" then
          [c_type ++ py " " ++ str var_name ++ py " = " ++ quote ++ str v
             ++ quote ++ py ";"]
        else if String.eqb type "BOOL" then
          let bool_val := if truth v then py "true" else py "false" in
          [c_type ++ py " " ++ str var_name ++ py " = " ++ bool_val ++ py ";"]
        else [c_type ++ py " " ++ str var_name ++ py " = " ++ str v ++ py ";"]
    | None => [c_type ++ py " " ++ str var_name ++ py ";"]
    end.

Fixpoint emit_all (lines : list pystr) : GM unit :=
  match lines with
  | [] => ret tt
  | l :: lines' => emit l;;; emit_all lines'
  end.

Definition generate_header : GM unit :=
  emit (py "// Сгенерировано ArduinoScript");;;
  emit (py "// Автоматически созданный код");;;
  emit [];;;
  g <- get;;
  emit_all ((fun include => py "#include " ++ include) <$> sorted (includes g));;;
  emit [];;;
  match variables g with
  | [] => ret tt
  | vars =>
      emit (py "// Глобальные переменные");;;
      emit_all (concat ((fun kv => global_declaration (fst kv) (snd kv))
                          <$> vars));;;
      emit []
  end.

Definition generate_pin_declaration (pin mode : Value) (value : option Value)
    (indent : pystr) : GM unit :=
  pin <- lift (normalize_pin pin);;
  let mode_map := [
    (py "выход", py "OUTPUT"); (py "вход", py "INPUT");
    (py "вход_подтяжка", py "INPUT_PULLUP"); (py "аналог", py "INPUT");
    (py "шим", py "OUTPUT")
  ] in
  let mode := match mode with
              | VStr m => default (py "OUTPUT") (dict_get mode_map m)
              | _ => py "OUTPUT"
              end in
  emit (indent ++ py "pinMode(" ++ pin ++ py ", " ++ mode ++ py ");");;;
  match value with
  | Some v =>
      let value_map := [
        (py "высоко", py "HIGH"); (py "низко", py "LOW");
        (py "включено", py "HIGH"); (py "выключено", py "LOW")
      ] in
      let value := default (str v) (dict_get value_map (lower (str v))) in
      if str_eqb mode (py "OUTPUT") then
        emit (indent ++ py "digitalWrite(" ++ pin ++ py ", " ++ value
                ++ py ");")
      else ret tt
  | None => ret tt
  end.

Definition generate_digital_write (pin value : Value) (indent : pystr)
  : GM unit :=
  pin <- lift (normalize_pin pin);;
  value <- lift (normalize_value value None);;
  emit (indent ++ py "digitalWrite(" ++ pin ++ py ", " ++ value ++ py ");").

Definition generate_analog_write (pin value : Value) (indent : pystr)
  : GM unit :=
  pin <- lift (normalize_pin pin);;
  emit (indent ++ py "analogWrite(" ++ pin ++ py ", " ++ str value ++ py ");").

Definition generate_digital_read (pin : Value) (indent : pystr) : GM unit :=
  pin <- lift (normalize_pin pin);;
  emit (indent ++ py "digitalRead(" ++ pin ++ py ");").

Definition generate_analog_read (pin : Value) (indent : pystr) : GM unit :=
  pin <- lift (normalize_pin pin);;
  let pin := if negb (startswith pin (py "A"))
             then if isdigit pin then py "A" ++ pin else pin
             else pin in
  emit (indent ++ py "analogRead(" ++ pin ++ py ");").

Definition generate_delay (duration : Value) (indent : pystr) : GM unit :=
  emit (indent ++ py "delay(" ++ str duration ++ py ");").

Definition generate_serial_begin (baud_rate : Value) (indent : pystr)
  : GM unit :=
  emit (indent ++ py "Serial.begin(" ++ str baud_rate ++ py ");");;;
  modify (fun g => {| output := output g; indent_level := indent_level g;
                      variables := variables g; in_setup := in_setup g;
                      includes := includes g ∪ {[ py "<SoftwareSerial.h>" ]} |}).

Definition generate_serial_print (value : Value) (newline : bool)
    (indent : pystr) : GM unit :=
  if newline
  then emit (indent ++ py "Serial.println(" ++ str value ++ py ");")
  else emit (indent ++ py "Serial.print(" ++ str value ++ py ");").

Definition generate_variable_declaration (name : Value) (type : string)
    (value : option Value) (indent : pystr) : GM unit :=
  let c_type := map_type type in
  match value with
  | Some v =>
      value <- lift (normalize_value v (Some type));;
      emit (indent ++ c_type ++ py " " ++ str name ++ py " = " ++ value
              ++ py ";")
  | None => emit (indent ++ c_type ++ py " " ++ str name ++ py ";")
  end;;;
  modify (fun g => {| output := output g; indent_level := indent_level g;
                      variables := dict_set (variables g) name (type, value);
                      in_setup := in_setup g; includes := includes g |}).

Definition generate_assignment (name value : Value) (indent : pystr)
  : GM unit :=
  value <- lift (normalize_value value None);;
  emit (indent ++ str name ++ py " = " ++ value ++ py ";").

Definition generate_function_call (name : Value) (args : list Value)
    (indent : pystr) : GM unit :=
  let args := join (py ", ") (str <$> args) in
  emit (indent ++ str name ++ py "(" ++ args ++ py ");").

Definition generate_binary_op (left : Value) (op : string) (right : Value)
  : outcome pystr :=
  let op_map := [
    ("EQ", py "=="); ("NEQ", py "!="); ("LT", py "<"); ("LTE", py "<=");
    ("GT", py ">"); ("GTE", py ">="); ("AND", py "&&"); ("OR", py "||")
  ] in
  let op := match find (fun kv => String.eqb (fst kv) op) op_map with
            | Some kv => snd kv
            | None => py op
            end in
  match normalize_value right None with
  | Return rhs => Return (str left ++ py " " ++ op ++ py " " ++ rhs)
  | Raise e => Raise e
  | OutOfFuel => OutOfFuel
  end.

(** [generate_expression] starts by evaluating
    [isinstance(expr, BinaryOpNode)], which reads the global name
    [BinaryOpNode]. *)
Definition generate_expression (expr : Cond) : outcome pystr :=
  match global_name "BinaryOpNode" with
  | Return _ =>
      match expr with
      | CondBinaryOp lhs op rhs => generate_binary_op lhs op rhs
      | CondValue (VStr s) => normalize_value (VStr s) None
      | CondValue v => Return (str v)
      end
  | Raise e => Raise e
  | OutOfFuel => OutOfFuel
  end.

Section ForEach.
Context {S : Type} (f : Node -> SM S unit).

(** [for child in children: f(child)] *)
Fixpoint for_each (children : list Node) : SM S unit :=
  match children with
  | [] => ret tt
  | child :: rest => f child;;; for_each rest
  end.

End ForEach.

(** [generate_node]; the flag [in_setup] is never read. *)
Fixpoint generate_node (node : Node) : GM unit :=
  g <- get;;
  let indent := repeat_str (py "  ") (indent_level g) in
  match node with
  | PinDeclarationNode pin mode value =>
      generate_pin_declaration pin mode value indent
  | DigitalWriteNode pin value => generate_digital_write pin value indent
  | AnalogWriteNode pin value => generate_analog_write pin value indent
  | DigitalReadNode pin => generate_digital_read pin indent
  | AnalogReadNode pin => generate_analog_read pin indent
  | DelayNode duration => generate_delay duration indent
  | SerialBeginNode baud_rate => generate_serial_begin baud_rate indent
  | SerialPrintNode value newline =>
      generate_serial_print value newline indent
  | LoopNode children => for_each generate_node children
  | IfNode condition children =>
      condition <- lift (generate_expression condition);;
      emit (indent ++ py "if (" ++ condition ++ py ") {");;;
      set_indent Datatypes.S;;;
      for_each generate_node children;;;
      set_indent Nat.pred;;;
      emit (indent ++ py "}")
  | VariableDeclarationNode name type value =>
      generate_variable_declaration name type value indent
  | AssignmentNode name value => generate_assignment name value indent
  | FunctionCallNode name args _ => generate_function_call name args indent
  | BinaryOpNode lhs op rhs => lift (generate_binary_op lhs op rhs);;; ret tt
  end.

Definition generate_setup (ast : Program) : GM unit :=
  emit (py "void setup() {");;;
  set_indent Datatypes.S;;;
  for_each generate_node (program_children ast);;;
  set_indent Nat.pred;;;
  emit (py "}");;;
  emit [];;;
  modify (fun g => {| output := output g; indent_level := indent_level g;
                      variables := variables g; in_setup := false;
                      includes := includes g |}).

Definition is_loop (node : Node) : bool :=
  match node with LoopNode _ => true | _ => false end.

(** [for node in self.ast.children: if node is a LoopNode:
    self.generate_node(node); break] *)
Fixpoint generate_first_loop (children : list Node) : GM unit :=
  match children with
  | [] => ret tt
  | node :: rest =>
      if is_loop node then generate_node node
      else generate_first_loop rest
  end.

Definition generate_loop (ast : Program) : GM unit :=
  emit (py "void loop() {");;;
  set_indent Datatypes.S;;;
  generate_first_loop (program_children ast);;;
  set_indent Nat.pred;;;
  emit (py "}").

Definition generate_from (ast : Program) : GM pystr :=
  generate_header;;;
  generate_setup ast;;;
  generate_loop ast;;;
  g <- get;;
  ret (join [10%N] (output g)).

(** [CodeGenerator(ast).generate()] *)
Definition generate (ast : Program) : outcome pystr :=
  match generate_from ast CodeGenerator_init with
  | Return (text, _) => Return text
  | Raise e => Raise e
  | OutOfFuel => OutOfFuel
  end.

(** The lines of the generated text, before they are joined. *)
Definition generate_lines (ast : Program) : outcome (list pystr) :=
  match generate_from ast CodeGenerator_init with
  | Return (_, g) => Return (output g)
  | Raise e => Raise e
  | OutOfFuel => OutOfFuel
  end.

(** ** compiler.py *)

Record ArduinoScriptCompiler := {
  source_path : option string;
  source_code : pystr;
  ast : option Program;
  cpp_code : pystr;
}.

(** [ArduinoScriptCompiler()] *)
Definition ArduinoScriptCompiler_init : ArduinoScriptCompiler := {|
  source_path := None; source_code := []; ast := None; cpp_code := [];
|}.

(** [compile]: the result, and the instance after the call (an exception
    leaves the fields assigned before it). *)
Definition compile (fuel : nat) (source : pystr) (c : ArduinoScriptCompiler)
  : outcome pystr * ArduinoScriptCompiler :=
  let tokens := tokenize source in
  match parse fuel tokens with
  | Return program =>
      let c1 := {| source_path := source_path c;
                   source_code := source_code c;
                   ast := Some program; cpp_code := cpp_code c |} in
      match generate program with
      | Return text =>
          (Return text,
           {| source_path := source_path c1; source_code := source_code c1;
              ast := ast c1; cpp_code := text |})
      | Raise e => (Raise e, c1)
      | OutOfFuel => (OutOfFuel, c1)
      end
  | Raise e => (Raise e, c)
  | OutOfFuel => (OutOfFuel, c)
  end.

(** [compile_string] *)
Definition compile_string (fuel : nat) (source : pystr)
    (c : ArduinoScriptCompiler) : outcome pystr * ArduinoScriptCompiler :=
  compile fuel source c.

(** *** The objects of a run

    [compile] builds a lexer, a parser and a generator, calls their methods
    and assigns two fields of the instance it is called on.  The lexer, the
    parser and the generator change as their methods run: a second call of
    [tokenize], [parse] or [generate] on the same object goes on from what
    the first has left.  To follow a call of [compile] among the objects
    that earlier calls have left behind, the objects are kept in a store
    under addresses, as the interpreter keeps them. *)
Inductive Object :=
| LexerObject (code : pystr) (lx : Lexer)
| ParserObject (p : Parser)
| GeneratorObject (tree : option Program) (g : CodeGenerator)
| CompilerObject (c : ArduinoScriptCompiler).

(** Computations on the store, which holds the object at each address in
    use. *)
Definition HM := SM (gmap nat Object).

(** [Lexer(code)] *)
Definition Lexer_init : Lexer :=
  {| lx_line := 1; lx_column := 1; lx_tokens := [] |}.

(** The call of a class: the new object is stored under an address that
    is not in use. *)
Definition new (o : Object) : HM nat := fun h =>
  let l := fresh (dom h) in Return (l, <[l := o]> h).

(** [lexer.tokenize()] for the lexer at [l]: the scan runs over the whole
    code again, from the line, the column and the tokens the object
    holds. *)
Definition tokenize_at (l : nat) : HM (list Token) := fun h =>
  match h !! l with
  | Some (LexerObject code lx) =>
      let lx1 := scan code O lx in
      let toks :=
        lx_tokens lx1 ++
          [{| tk_type := "EOF"; tk_value := VStr []; tk_line := lx_line lx1;
              tk_column := lx_column lx1 |}] in
      Return (toks,
              <[l := LexerObject code
                       {| lx_line := lx_line lx1; lx_column := lx_column lx1;
                          lx_tokens := toks |}]> h)
  | _ => Raise (AttributeError "tokenize")
  end.

(** [parser.parse()] for the parser at [l]. *)
Definition parse_at (fuel : nat) (l : nat) : HM Program := fun h =>
  match h !! l with
  | Some (ParserObject p) =>
      match parse_from fuel p with
      | Return (program, p') => Return (program, <[l := ParserObject p']> h)
      | Raise e => Raise e
      | OutOfFuel => OutOfFuel
      end
  | _ => Raise (AttributeError "parse")
  end.

(** [generator.generate()] for the generator at [l]; without a tree the
    header is still written, and reading the children of [None] fails. *)
Definition generate_at (l : nat) : HM pystr := fun h =>
  match h !! l with
  | Some (GeneratorObject (Some tree) g) =>
      match generate_from tree g with
      | Return (text, g') =>
          Return (text, <[l := GeneratorObject (Some tree) g']> h)
      | Raise e => Raise e
      | OutOfFuel => OutOfFuel
      end
  | Some (GeneratorObject None _) => Raise (AttributeError "children")
  | _ => Raise (AttributeError "generate")
  end.

(** The fields [ast] and [cpp_code] of the instance at [self]. *)
Definition get_field {A} (name : string) (field : ArduinoScriptCompiler -> A)
    (self : nat) : HM A := fun h =>
  match h !! self with
  | Some (CompilerObject c) => Return (field c, h)
  | _ => Raise (AttributeError name)
  end.

Definition set_field (name : string)
    (update : ArduinoScriptCompiler -> ArduinoScriptCompiler) (self : nat)
  : HM unit := fun h =>
  match h !! self with
  | Some (CompilerObject c) =>
      Return (tt, <[self := CompilerObject (update c)]> h)
  | _ => Raise (AttributeError name)
  end.

Definition set_ast (program : Program) (c : ArduinoScriptCompiler)
  : ArduinoScriptCompiler :=
  {| source_path := source_path c; source_code := source_code c;
     ast := Some program; cpp_code := cpp_code c |}.

Definition set_cpp_code (text : pystr) (c : ArduinoScriptCompiler)
  : ArduinoScriptCompiler :=
  {| source_path := source_path c; source_code := source_code c;
     ast := ast c; cpp_code := text |}.

(** [compile], statement by statement, on the store of objects. *)
Definition compile_at (fuel : nat) (self : nat) (source_code : pystr)
  : HM pystr :=
  lexer <- new (LexerObject source_code Lexer_init);;
  tokens <- tokenize_at lexer;;
  parser <- new (ParserObject (Parser_init tokens));;
  program <- parse_at fuel parser;;
  set_field "ast" (set_ast program) self;;;
  tree <- get_field "ast" ast self;;
  generator <- new (GeneratorObject tree CodeGenerator_init);;
  text <- generate_at generator;;
  set_field "cpp_code" (set_cpp_code text) self;;;
  get_field "cpp_code" cpp_code self.










(** [s.split('\n')] *)
Fixpoint split_lines (s : pystr) : list pystr :=
  match s with
  | [] => [[]]
  | c :: s' =>
      if (c =? 10)%N then [] :: split_lines s'
      else match split_lines s' with
           | l :: ls => (c :: l) :: ls
           | [] => [[c]]
           end
  end.

(** [needle in s] *)
Fixpoint contains (needle s : pystr) : bool :=
  startswith s needle
  || match s with
     | [] => false
     | _ :: s' => contains needle s'
     end.

(** [ArduinoScriptCompiler.validate] *)
Definition validate (c : ArduinoScriptCompiler) : bool * list pystr :=
  let errors := [] in
  let lines := split_lines (cpp_code c) in
  let has_setup := existsb (contains (py "void setup()")) lines in
  let has_loop := existsb (contains (py "void loop()")) lines in
  let errors :=
    if negb has_setup then errors ++ [py "Отсутствует функция setup()"]
    else errors in
  let errors :=
    if negb has_loop then errors ++ [py "Отсутствует функция loop()"]
    else errors in
  (bool_decide (length errors = 0), errors).

End WithHost.

(** The store of objects. *)
Abbreviation Heap := (gmap nat Object).

(** ** Notions used to state the properties *)

Definition terminates {A} (o : outcome A) : bool :=
  match o with OutOfFuel => false | _ => true end.

Definition returns {A} (o : outcome A) : bool :=
  match o with Return _ => true | _ => false end.

(** The store [h'] holds the instance [c] at [self], and every other
    object of the store [h] as it was. *)
Definition keeps (h : Heap) (self : nat) (c : ArduinoScriptCompiler)
    (h' : Heap) : Prop :=
  h' !! self = Some (CompilerObject c)
  /\ forall l o, l <> self -> h !! l = Some o -> h' !! l = Some o.

(** What a run gives back, without the state it leaves. *)
Definition result {S A} (o : outcome (A * S)) : outcome A :=
  match o with
  | Return (a, _) => Return a
  | Raise e => Raise e
  | OutOfFuel => OutOfFuel
  end.

(** [m'] has the outcome of [m] whenever [m] does not run out of fuel. *)
Definition extends {S A} (m m' : SM S A) : Prop :=
  forall s, terminates (m s) = true -> m' s = m s.

(** A program text given by its lines. *)
Definition source (lines : list string) : pystr := join [10%N] (py <$> lines).

(** The blinking program of the project's examples. *)
Definition blink_source : pystr := source [
  "пин 13 = выход";
  "цикл:";
  "  цифрзапись(13, высоко)";
  "  ждать(1000)";
  "  цифрзапись(13, низко)";
  "  ждать(500)";
  "конец"
].

Definition blink_ast : Program :=
  ProgramNode
    [PinDeclarationNode (VInt 13) (VStr (py "выход")) None;
     LoopNode
       [DigitalWriteNode (VInt 13) (VStr (py "ВЫСОКО"));
        DelayNode (VInt 1000);
        DigitalWriteNode (VInt 13) (VStr (py "НИЗКО"));
        DelayNode (VInt 500)]].

Definition blink_lines : list pystr := py <$> [
  "// Сгенерировано ArduinoScript";
  "// Автоматически созданный код";
  "";
  "#include <Arduino.h>";
  "";
  "void setup() {";
  "  pinMode(13, OUTPUT);";
  "  digitalWrite(13, true);";
  "  delay(1000);";
  "  digitalWrite(13, false);";
  "  delay(500);";
  "}";
  "";
  "void loop() {";
  "  digitalWrite(13, true);";
  "  delay(1000);";
  "  digitalWrite(13, false);";
  "  delay(500);";
  "}"
].

(** A pin declared through an alias of a numeric pin. *)
Definition alias_source : pystr := source ["пин светодиод = выход"].

Definition alias_ast : Program :=
  ProgramNode
    [PinDeclarationNode (VStr (py "светодиод")) (VStr (py "выход")) None].

(** A conditional on a binary comparison inside the main loop. *)
Definition if_source : pystr := source [
  "цикл:";
  "  если x < 5:";
  "    ждать(100)";
  "  конец";
  "конец"
].

Definition if_ast : Program :=
  ProgramNode
    [LoopNode
       [IfNode (CondBinaryOp (VStr (py "x")) "LT" (VInt 5))
          [DelayNode (VInt 100)]]].

Definition serial_source : pystr := source ["начать_последовательный(9600)"].

Definition serial_lines : list pystr := py <$> [
  "// Сгенерировано ArduinoScript";
  "// Автоматически созданный код";
  "";
  "#include <Arduino.h>";
  "";
  "void setup() {";
  "  Serial.begin(9600);";
  "}";
  "";
  "void loop() {";
  "}"
].

(** A function declaration with an untyped parameter. *)
Definition stuck_source : pystr := source ["функция f(x)"].

(** A pin declaration followed by a write at the top level. *)
Definition write_source : pystr :=
  source ["пин 13 = выход"; "цифрзапись(13, высоко)"].

Definition write_ast : Program :=
  ProgramNode
    [PinDeclarationNode (VInt 13) (VStr (py "выход")) None;
     DigitalWriteNode (VInt 13) (VStr (py "ВЫСОКО"))].

(** A pin declaration followed by the printing of a string literal of two
    lines, whose text closes the call and writes to the pin. *)
Definition inject_source : pystr :=
  py "пин 13 = выход" ++ [10%N] ++ py "печать(" ++ quote ++ py "a);"
    ++ [10%N] ++ py "  digitalWrite(13, HIGH" ++ quote ++ py ")".

Definition mode_message : pystr :=
  py "Ожидался режим пина (выход, вход, вход_подтяжка)".

(** The lines of a routine: those after the line [opening] up to the next
    line that is a closing brace. *)
Fixpoint until_brace (lines : list pystr) : list pystr :=
  match lines with
  | [] => []
  | l :: rest => if str_eqb l (py "}") then [] else l :: until_brace rest
  end.

Fixpoint routine_body (opening : pystr) (lines : list pystr) : list pystr :=
  match lines with
  | [] => []
  | l :: rest =>
      if str_eqb l opening then until_brace rest
      else routine_body opening rest
  end.

Definition setup_block : list pystr -> list pystr :=
  routine_body (py "void setup() {").

Definition loop_routine : list pystr -> list pystr :=
  routine_body (py "void loop() {").

Fixpoint lstrip (s : pystr) : pystr :=
  match s with
  | c :: s' => if (c =? 32)%N then lstrip s' else s
  | [] => []
  end.

(** The line is the statement [fn(arg1, arg2, ...);]. *)
Definition is_call (fn : string) (args : list pystr) (line : pystr) : bool :=
  str_eqb (lstrip line) (py fn ++ [40%N] ++ join (py ", ") args ++ py ");").

(** The constants by which the target denotes a logic level: the voltage
    constants [HIGH] and [LOW], and the booleans [true] and [false], which
    [digitalWrite] takes as the same levels. *)
Definition level_constants (high : bool) : list pystr :=
  if high then [py "HIGH"; py "true"] else [py "LOW"; py "false"].

(** A write call that sets [pin] to the given level. *)
Definition writes_level (pin : pystr) (high : bool) (line : pystr) : bool :=
  existsb (fun level => is_call "digitalWrite" [pin; level] line)
    (level_constants high).

Definition delays (duration : pystr) (line : pystr) : bool :=
  is_call "delay" [duration] line.

Definition configures (pin mode : pystr) (line : pystr) : bool :=
  is_call "pinMode" [pin; mode] line.

Definition is_include (line : pystr) : bool := startswith line (py "#include").

Definition indented (line : pystr) : bool := startswith line (py " ").

Definition node_children (node : Node) : list Node :=
  match node with
  | LoopNode children | IfNode _ children | FunctionCallNode _ _ children =>
      children
  | _ => []
  end.

(** A generator that has emitted nothing, at nesting depth [level]. *)
Definition blank_generator (level : nat) : CodeGenerator := {|
  output := []; indent_level := level; variables := []; in_setup := false;
  includes := ∅;
|}.

(** The translation of a sequence of statements at nesting depth [level]:
    the lines [generate_node] emits for them, one after the other. *)
Definition translate (H : Host) (nodes : list Node) (level : nat)
  : outcome (list pystr) :=
  match for_each (generate_node H) nodes (blank_generator level) with
  | Return (_, g) => Return (output g)
  | Raise e => Raise e
  | OutOfFuel => OutOfFuel
  end.

(** The body of the first [LoopNode] among the children of the program;
    empty when there is none. *)
Definition first_loop_body (ast : Program) : list Node :=
  match List.find is_loop (program_children ast) with
  | Some (LoopNode body) => body
  | _ => []
  end.

(** Two runs of a generator step that emit the same lines. *)
Definition same_lines (g1 g2 : CodeGenerator)
    (r1 r2 : outcome (unit * CodeGenerator)) : Prop :=
  match r1, r2 with
  | Return (_, g1'), Return (_, g2') =>
      exists ls, output g1' = output g1 ++ ls /\ output g2' = output g2 ++ ls
        /\ indent_level g1' = indent_level g1
        /\ indent_level g2' = indent_level g2
        /\ (0 < indent_level g1 -> Forall (fun l => indented l = true) ls)
  | Raise e1, Raise e2 => e1 = e2
  | OutOfFuel, OutOfFuel => True
  | _, _ => False
  end.

Definition header_lines : list pystr := py <$> [
  "// Сгенерировано ArduinoScript";
  "// Автоматически созданный код";
  "";
  "#include <Arduino.h>";
  ""
].

(** The generated lines, given those of the two routines. *)
Definition assemble (setup_ls body : list pystr) : list pystr :=
  header_lines ++ py "void setup() {" :: setup_ls
    ++ [py "}"; []; py "void loop() {"] ++ body ++ [py "}"].

(** The target functions that configure or write a pin. *)
Definition pin_functions : list pystr :=
  [py "pinMode"; py "digitalWrite"; py "analogWrite"].

(** The number of places in [s] where [word] starts. *)
Fixpoint occurrences (word s : pystr) : nat :=
  match s with
  | [] => 0
  | _ :: s' => (if startswith s word then 1 else 0) + occurrences word s'
  end.

(** How often the lines of a text name the function [fn], as a call or
    otherwise. *)
Definition mentions (fn : string) (lines : list pystr) : nat :=
  foldr (fun line n => occurrences (py fn) line + n) 0 lines.

(** A piece of text without a line feed. *)
Definition one_line (s : pystr) : bool :=
  forallb (fun c => negb (c =? 10)%N) s.

(** A piece of text that holds no line feed and names none of
    [pin_functions]. *)
Definition harmless (s : pystr) : bool :=
  one_line s && forallb (fun word => occurrences word s =? 0) pin_functions.

(** A character that is no line feed and occurs in none of
    [pin_functions]. *)
Definition separator (c : N) : bool :=
  negb (c =? 10)%N
  && forallb (fun word => negb (bool_decide (c ∈ word))) pin_functions.

(** Pieces of text put one after the other, with one character between
    two of them. *)
Fixpoint weave (first : pystr) (rest : list (N * pystr)) : pystr :=
  match rest with
  | [] => first
  | (c, s) :: rest' => first ++ c :: weave s rest'
  end.

(** Statements that configure no pin and write to none, and whose names
    and values, as they are printed, are [harmless]: delays, serial
    initialisation and output, variable declarations, assignments, calls of
    functions, and loops of such statements. *)
Fixpoint quiet (H : Host) (node : Node) : bool :=
  match node with
  | DelayNode v | SerialBeginNode v | SerialPrintNode v _ =>
      harmless (str H v)
  | VariableDeclarationNode name _ value =>
      harmless (str H name)
      && match value with
         | Some v => harmless (str H v)
         | None => true
         end
  | AssignmentNode name value =>
      harmless (str H name) && harmless (str H value)
  | FunctionCallNode name args _ =>
      harmless (str H name) && forallb (fun a => harmless (str H a)) args
  | LoopNode children => forallb (quiet H) children
  | _ => false
  end.






(** A store that holds a fresh instance and nothing else, and the store
    the compilation of the blinking program leaves of it. *)
Definition fresh_store : Heap :=
  {[ 0 := CompilerObject ArduinoScriptCompiler_init ]}.

Definition used_store : Heap :=
  match compile_at basic_host 10 0 blink_source fresh_store with
  | Return (_, h) => h
  | _ => fresh_store
  end.




(** *** Tokens and their positions *)

(** Equality of tokens is decidable. *)
#[export] Instance Token_eq_dec : EqDecision Token.
Proof. solve_decision. Defined.

(** The end marker [tokenize] appends. *)
Definition eof_token (line column : N) : Token :=
  {| tk_type := "EOF"; tk_value := VStr []; tk_line := line;
     tk_column := column |}.

(** The tokens of a text that is one lexeme at the start of the first
    line. *)
Definition single_token (kind : string) (v : Value) (text : pystr)
  : list Token :=
  [ {| tk_type := kind; tk_value := v; tk_line := 1; tk_column := 1 |};
    eof_token 1 (1 + len text) ].

(** The kinds [tokenize] matches without making a token of them. *)
Definition skipped_kinds : list string :=
  ["WHITESPACE"; "NEWLINE"; "COMMENT"; "ML_COMMENT"].

(** The kinds of the patterns that an earlier pattern shadows: [0x..] and
    [0b..] behind the integers, [==] behind [=], [<=] behind [<], [>=]
    behind [>], [**] behind [*], and [->] behind [-]. *)
Definition shadowed_kinds : list string :=
  ["HEX"; "BINARY"; "POWER"; "EQ"; "LTE"; "GTE"; "ARROW"].

(** [a] starts before [b] in the text, by line and column. *)
Definition precedes (a b : Token) : bool :=
  (tk_line a <? tk_line b)%N
  || ((tk_line a =? tk_line b)%N && (tk_column a <? tk_column b)%N).

(** The position [l1:c1] lies before [l2:c2]. *)
Definition lt_pos (l1 c1 l2 c2 : N) : Prop :=
  (l1 < l2 \/ (l1 = l2 /\ c1 < c2))%N.

(** The tokens made so far are in the order of their positions, which lie
    before the position of the scan. *)
Definition positions_ok (lx : Lexer) : Prop :=
  StronglySorted (fun a b => precedes a b = true) (lx_tokens lx)
  /\ Forall (fun t => lt_pos (tk_line t) (tk_column t)
                        (lx_line lx) (lx_column lx)
                      /\ (1 <= tk_line t)%N /\ (1 <= tk_column t)%N)
       (lx_tokens lx)
  /\ (1 <= lx_line lx)%N /\ (1 <= lx_column lx)%N.

(** The decimal digits of Basic Latin. *)
Definition ascii_digit (c : N) : bool := in_range 48 57 c.

(** Space, tab and line feed. *)
Definition white (c : N) : bool := blank c || (c =? 10)%N.

(** A pattern that cannot match the empty string. *)
Definition consuming (re : list atom) : bool :=
  match re with
  | Lit _ :: _ | Cls _ :: _ | Plus _ :: _ => true
  | _ => false
  end.

(** The token [d] lines further down. *)
Definition shift_line (d : N) (t : Token) : Token :=
  {| tk_type := tk_type t; tk_value := tk_value t;
     tk_line := (tk_line t + d)%N; tk_column := tk_column t |}.

(** The state of the lexer [d] lines further down. *)
Definition shift_lexer (d : N) (lx : Lexer) : Lexer :=
  {| lx_line := (lx_line lx + d)%N; lx_column := lx_column lx;
     lx_tokens := shift_line d <$> lx_tokens lx |}.

(** *** The states of the parser *)

(** The tokens the parser has still to consume: the current one and those
    from [pos] on. *)
Definition remaining (p : Parser) : nat :=
  length (tokens p) - pos p
  + match current_token p with Some _ => 1 | None => 0 end.

(** A parser over [toks] that has not moved back behind [lo]: the current
    token is the one before [pos], and there is none only at the end. *)
Definition consistent (toks : list Token) (lo : nat) (p : Parser) : Prop :=
  tokens p = toks /\ lo <= pos p <= length toks
  /\ match current_token p with
     | Some t => 0 < pos p /\ toks !! (pos p - 1) = Some t
     | None => pos p = length toks
     end.

(** A consistent parser with at most [n] tokens to consume; with [current],
    it has a current token. *)
Definition St (toks : list Token) (lo n : nat) (current : bool) (p : Parser)
  : Prop :=
  consistent toks lo p /\ remaining p <= n
  /\ (current = true -> current_token p <> None).

(** The parser is at the end marker or behind the last token. *)
Definition at_end (p : Parser) : Prop :=
  match current_token p with
  | Some t => tk_type t = "EOF"
  | None => True
  end.

(** [{P} m {Q}]: from a state in [P], the run of [m] raises or returns in
    [Q]; it runs out of fuel only if [T] holds. *)
Definition triple (T : Prop) {A} (P : Parser -> Prop) (m : PM A)
    (Q : A -> Parser -> Prop) : Prop :=
  forall p, P p ->
    match m p with
    | Return (a, p') => Q a p'
    | Raise _ => True
    | OutOfFuel => T
    end.

(** No token of kind [EOF] before the last one. *)
Definition eof_last (toks : list Token) : bool :=
  forallb (fun t => negb (String.eqb (tk_type t) "EOF"))
    (take (length toks - 1) toks).

(** No token of kind [FUNCTION]. *)
Definition no_function (toks : list Token) : bool :=
  forallb (fun t => negb (String.eqb (tk_type t) "FUNCTION")) toks.

(** The kinds at which [Parser.parse] starts a statement. *)
Definition statement_kinds : list string :=
  ["PIN"; "FUNCTION"; "LOOP"; "SERIAL_BEGIN"; "INT"; "FLOAT"; "BOOL"; "CHAR";
   "STRING"; "ID"; "DIGITALWRITE"; "ANALOGWRITE"; "DELAY"; "PRINT";
   "PRINTLN"].

(** *** The failures of the generator *)

(** The exception of a run that raises. *)
Definition failure {A} (o : outcome A) : option Exn :=
  match o with Raise e => Some e | _ => None end.

(** The aliases of [PIN_ALIASES] that stand for a pin number. *)
Definition numeric_aliases : list pystr :=
  [py "светодиод"; py "кнопка"; py "зуммер"; py "серво";
   py "ультразвук_триггер"; py "ультразвук_эхо"].

(** The exception [normalize_pin] raises on a pin, if any. *)
Definition pin_error (pin : Value) : option Exn :=
  match pin with
  | VStr s =>
      if bool_decide (s ∈ numeric_aliases)
      then Some (AttributeError "startswith") else None
  | _ => None
  end.

(** The exception the translation of a statement raises, if any: that of
    the first pin it cannot normalise or the first conditional it meets.
    Bodies of function declarations are not translated. *)
Fixpoint node_error (node : Node) : option Exn :=
  match node with
  | PinDeclarationNode pin _ _ | DigitalWriteNode pin _
  | AnalogWriteNode pin _ | DigitalReadNode pin | AnalogReadNode pin =>
      pin_error pin
  | IfNode _ _ => Some (NameError "BinaryOpNode")
  | LoopNode children =>
      foldr (fun child rest =>
               match node_error child with Some e => Some e | None => rest end)
        None children
  | _ => None
  end.

(** The exception the translation of a sequence of statements raises, if
    any: that of the first statement that raises one. *)
Definition first_error (nodes : list Node) : option Exn :=
  foldr (fun node rest =>
           match node_error node with Some e => Some e | None => rest end)
    None nodes.

(** [l] holds [part] as a block of consecutive elements. *)
Definition has_block {A} (part l : list A) : Prop :=
  exists before after, l = before ++ part ++ after.


(** ** Properties of the lexer *)

Section Lexing.
Variable H : Host.

(** C7.  The alternatives of the token pattern are tried in their listed
    order and the first that matches wins, also when a later one would match
    more: [==] is two assignment tokens, [<=] is a less-than and an
    assignment, and [0x1F] is the integer 0 followed by the identifier
    [x1F]. *)
Theorem tokenize_first_match_wins :
  tokenize H (py "==") =
    [ {| tk_type := "ASSIGN"; tk_value := VStr (py "=");
         tk_line := 1; tk_column := 1 |};
      {| tk_type := "ASSIGN"; tk_value := VStr (py "=");
         tk_line := 1; tk_column := 2 |};
      {| tk_type := "EOF"; tk_value := VStr [];
         tk_line := 1; tk_column := 3 |} ]
  /\ tokenize H (py "<=") =
    [ {| tk_type := "LT"; tk_value := VStr (py "<");
         tk_line := 1; tk_column := 1 |};
      {| tk_type := "ASSIGN"; tk_value := VStr (py "=");
         tk_line := 1; tk_column := 2 |};
      {| tk_type := "EOF"; tk_value := VStr [];
         tk_line := 1; tk_column := 3 |} ]
  /\ tokenize H (py "0x1F") =
    [ {| tk_type := "INTEGER"; tk_value := VInt 0;
         tk_line := 1; tk_column := 1 |};
      {| tk_type := "ID"; tk_value := VStr (py "x1F");
         tk_line := 1; tk_column := 2 |};
      {| tk_type := "EOF"; tk_value := VStr [];
         tk_line := 1; tk_column := 5 |} ].
Proof. split; [|split]; vm_compute; reflexivity. Qed.

End Lexing.

(** ** Properties of the parser *)

(** Runs the first step of a sequence on a concrete state. *)
Ltac run_head :=
  unfold bind at 1;
  match goal with
  | |- context [match ?m ?p with
                | Return _ => _ | Raise _ => _ | OutOfFuel => _
                end] =>
      let r := eval vm_compute in (m p) in
      let E := fresh in
      assert (m p = r) as E by (vm_compute; reflexivity);
      rewrite E; clear E; cbv beta iota
  end.

Section Parsing.
Variable H : Host.

Lemma cur_not_in_some ks p t :
  current_token p = Some t ->
  cur_not_in ks p = Return (negb (kind_in (tk_type t) ks), p).
Proof.
  intros E. unfold cur_not_in, bind, cur, ret. rewrite E. reflexivity.
Qed.

Lemma cur_type_some p t :
  current_token p = Some t -> cur_type p = Return (tk_type t, p).
Proof.
  intros E. unfold cur_type, cur_attr, bind, cur, ret. rewrite E.
  reflexivity.
Qed.

(** The parameter loop makes no progress on a token that is neither a
    parameter type nor the closing parenthesis. *)
Lemma function_params_stuck fuel params p t :
  current_token p = Some t ->
  kind_in (tk_type t) ["RPAREN"] = false ->
  kind_in (tk_type t) ["INT"; "FLOAT"; "BOOL"] = false ->
  function_params fuel params p = OutOfFuel.
Proof.
  intros Hcur Hr Hty. revert params.
  induction fuel as [|fuel IH]; intros params; cbn [function_params];
    unfold bind at 1; rewrite (cur_not_in_some _ _ _ Hcur), Hr; cbn [negb].
  - reflexivity.
  - unfold bind at 1. rewrite (cur_type_some _ _ Hcur), Hty. apply IH.
Qed.

Lemma stuck_tokens :
  tokenize H stuck_source =
    [ {| tk_type := "FUNCTION"; tk_value := VStr (py "функция");
         tk_line := 1; tk_column := 1 |};
      {| tk_type := "ID"; tk_value := VStr (py "f");
         tk_line := 1; tk_column := 9 |};
      {| tk_type := "LPAREN"; tk_value := VStr (py "(");
         tk_line := 1; tk_column := 10 |};
      {| tk_type := "ID"; tk_value := VStr (py "x");
         tk_line := 1; tk_column := 11 |};
      {| tk_type := "RPAREN"; tk_value := VStr (py ")");
         tk_line := 1; tk_column := 12 |};
      {| tk_type := "EOF"; tk_value := VStr [];
         tk_line := 1; tk_column := 13 |} ].
Proof. vm_compute. reflexivity. Qed.

Lemma parse_stuck fuel : parse H fuel (tokenize H stuck_source) = OutOfFuel.
Proof.
  rewrite stuck_tokens.
  destruct fuel as [|fuel]; [reflexivity|].
  unfold parse, parse_from. unfold bind at 1.
  match goal with
  | |- context [parse_program H ?f ?c ?p] =>
      let p' := eval vm_compute in p in
      change p with p';
      assert (parse_program H f c p' = OutOfFuel) as ->; [|reflexivity]
  end.
  cbn [parse_program].
  do 3 run_head.
  cbv beta iota zeta. cbn [String.eqb Ascii.eqb Bool.eqb].
  unfold bind at 1. unfold parse_function_declaration.
  do 3 run_head.
  unfold bind at 1.
  erewrite function_params_stuck; reflexivity.
Qed.

(** C9.  On the tokens of [функция f(x)], a sequence [tokenize] produces
    and that ends in the end marker, the parser does not terminate:
    whatever the fuel, the run is still inside the parameter loop of
    [parse_function_declaration] when the fuel is used up. *)
Theorem parse_function_declaration_diverges fuel :
  last (tk_type <$> tokenize H stuck_source) = Some "EOF"
  /\ parse H fuel (tokenize H stuck_source) = OutOfFuel.
Proof. split; [vm_compute; reflexivity|apply parse_stuck]. Qed.

(** C5.  A pin declaration without a mode raises a syntax error whose
    message is the fixed text [mode_message], which holds no digit: it names
    no line and no column, whether the offending token is the end marker at
    line 1, column 9 or the integer at line 3, column 14. *)
Theorem pin_mode_error_without_position fuel c :
  (tokenize H (source ["пин 13 ="]) !! 3%nat
     = Some {| tk_type := "EOF"; tk_value := VStr [];
               tk_line := 1; tk_column := 9 |}
   /\ fst (compile H (S fuel) (source ["пин 13 ="]) c)
      = Raise (SyntaxError mode_message))
  /\ (tokenize H (source [""; ""; "    пин 13 = 5"]) !! 3%nat
        = Some {| tk_type := "INTEGER"; tk_value := VInt 5;
                  tk_line := 3; tk_column := 14 |}
      /\ fst (compile H (S fuel) (source [""; ""; "    пин 13 = 5"]) c)
         = Raise (SyntaxError mode_message))
  /\ existsb (in_range 48 57) mode_message = false.
Proof.
  split; [split; vm_compute; reflexivity|].
  split; [split; vm_compute; reflexivity|].
  vm_compute. reflexivity.
Qed.

(** *** More fuel does not change a finished run *)

Lemma extends_refl {S A} (m : SM S A) : extends m m.
Proof. intros s _. reflexivity. Qed.

Lemma extends_out_of_fuel {S A} (m : SM S A) : extends out_of_fuel m.
Proof. intros s E. discriminate E. Qed.

Lemma extends_bind {S A B} (m m' : SM S A) (k k' : A -> SM S B) :
  extends m m' -> (forall a, extends (k a) (k' a)) ->
  extends (bind m k) (bind m' k').
Proof.
  intros Hm Hk s. unfold bind. specialize (Hm s).
  destruct (m s) as [[a s']| |] eqn:E; intros T; try discriminate T.
  - rewrite Hm by reflexivity. apply Hk, T.
  - rewrite Hm by reflexivity. reflexivity.
Qed.

Lemma extends_if {S A} (b : bool) (m1 m1' m2 m2' : SM S A) :
  extends m1 m1' -> extends m2 m2' ->
  extends (if b then m1 else m2) (if b then m1' else m2').
Proof. destruct b; auto. Qed.

Create HintDb mono.
#[local] Hint Extern 1 (_ <= _) => lia : mono.

Ltac mono :=
  repeat first
    [ apply extends_refl
    | apply extends_out_of_fuel
    | solve [auto with mono]
    | match goal with IH : forall _, _ -> _ |- _ => apply IH; lia end
    | apply extends_bind; [| intros ?]
    | apply extends_if ].

Lemma call_args_mono n n' args :
  n <= n' -> extends (call_args H n args) (call_args H n' args).
Proof.
  revert n' args. induction n as [|n IH]; intros [|n'] args Hle;
    try lia; cbn [call_args]; mono.
Qed.
#[local] Hint Resolve call_args_mono : mono.

Lemma parse_function_call_mono n n' :
  n <= n' -> extends (parse_function_call H n) (parse_function_call H n').
Proof. intros Hle. unfold parse_function_call. mono. Qed.
#[local] Hint Resolve parse_function_call_mono : mono.

Lemma call_block_mono n n' stops children :
  n <= n' ->
  extends (call_block H n stops children) (call_block H n' stops children).
Proof.
  revert n' children. induction n as [|n IH]; intros [|n'] children Hle;
    try lia; cbn [call_block]; mono.
Qed.
#[local] Hint Resolve call_block_mono : mono.

Lemma parse_if_mono n n' :
  n <= n' -> extends (parse_if H n) (parse_if H n').
Proof. intros Hle. unfold parse_if. mono. Qed.
#[local] Hint Resolve parse_if_mono : mono.

Lemma parse_while_mono n n' :
  n <= n' -> extends (parse_while H n) (parse_while H n').
Proof. intros Hle. unfold parse_while. mono. Qed.
#[local] Hint Resolve parse_while_mono : mono.

Lemma parse_for_mono n n' :
  n <= n' -> extends (parse_for H n) (parse_for H n').
Proof. intros Hle. unfold parse_for. mono. Qed.
#[local] Hint Resolve parse_for_mono : mono.

Lemma loop_block_mono n n' children :
  n <= n' -> extends (loop_block H n children) (loop_block H n' children).
Proof.
  revert n' children. induction n as [|n IH]; intros [|n'] children Hle;
    try lia; cbn [loop_block]; mono.
Qed.
#[local] Hint Resolve loop_block_mono : mono.

Lemma parse_loop_mono n n' :
  n <= n' -> extends (parse_loop H n) (parse_loop H n').
Proof. intros Hle. unfold parse_loop. mono. Qed.
#[local] Hint Resolve parse_loop_mono : mono.

Lemma function_params_mono n n' params :
  n <= n' -> extends (function_params n params) (function_params n' params).
Proof.
  revert n' params. induction n as [|n IH]; intros [|n'] params Hle;
    try lia; cbn [function_params]; mono.
Qed.
#[local] Hint Resolve function_params_mono : mono.

Lemma parse_function_declaration_mono n n' :
  n <= n' ->
  extends (parse_function_declaration H n) (parse_function_declaration H n').
Proof. intros Hle. unfold parse_function_declaration. mono. Qed.
#[local] Hint Resolve parse_function_declaration_mono : mono.

Lemma parse_program_mono n n' children :
  n <= n' ->
  extends (parse_program H n children) (parse_program H n' children).
Proof.
  revert n' children. induction n as [|n IH]; intros [|n'] children Hle;
    try lia; cbn [parse_program]; mono.
Qed.
#[local] Hint Resolve parse_program_mono : mono.

Lemma parse_mono n n' toks :
  n <= n' -> terminates (parse H n toks) = true ->
  parse H n' toks = parse H n toks.
Proof.
  intros Hle. unfold parse.
  assert (extends (parse_from H n) (parse_from H n')) as E
    by (unfold parse_from; mono).
  specialize (E (Parser_init toks)).
  destruct (parse_from H n (Parser_init toks)) as [[? ?]| |] eqn:E1;
    intros T; try discriminate T; rewrite E; reflexivity.
Qed.

(** Two finished runs of the parser on the same tokens agree. *)
Lemma parse_agree n n' toks :
  terminates (parse H n toks) = true -> terminates (parse H n' toks) = true ->
  parse H n toks = parse H n' toks.
Proof.
  intros T T'. destruct (Nat.le_ge_cases n n') as [L|L].
  - symmetry. apply parse_mono; assumption.
  - apply parse_mono; assumption.
Qed.

(** Two finished runs of [compile] on the same text have the same result,
    whatever the fuel of each. *)
Lemma compile_agree source fuel fuel' c c' :
  terminates (fst (compile H fuel source c)) = true ->
  terminates (fst (compile H fuel' source c')) = true ->
  fst (compile H fuel source c) = fst (compile H fuel' source c').
Proof.
  unfold compile. intros T T'.
  assert (parse H fuel (tokenize H source)
          = parse H fuel' (tokenize H source)) as E.
  { apply parse_agree.
    - destruct (parse H fuel (tokenize H source));
        [reflexivity|reflexivity|discriminate T].
    - destruct (parse H fuel' (tokenize H source));
        [reflexivity|reflexivity|discriminate T']. }
  rewrite E.
  destruct (parse H fuel' (tokenize H source)) as [program| |];
    try reflexivity.
  destruct (generate H program); reflexivity.
Qed.

End Parsing.

(** ** Properties of the code generator *)

Lemma Node_ind_children (P : Node -> Prop) :
  (forall node, Forall P (node_children node) -> P node) ->
  forall node, P node.
Proof.
  intros HP. fix IH 1. intros node. apply HP.
  destruct node; simpl; try constructor;
    induction children as [|c cs IHcs]; constructor; auto.
Qed.

Section Generation.
Variable H : Host.

(** C1.  Two trees the parser produces on which [generate] raises: a pin
    declared through an alias of a numeric pin ([AttributeError], the
    resolved pin is an [int]), and a conditional on a comparison
    ([NameError], [BinaryOpNode] is not a name of [codegen.py]). *)
Theorem generate_raises fuel :
  (parse H (2 + fuel) (tokenize H alias_source) = Return alias_ast
   /\ generate H alias_ast = Raise (AttributeError "startswith"))
  /\ (parse H (6 + fuel) (tokenize H if_source) = Return if_ast
      /\ generate H if_ast = Raise (NameError "BinaryOpNode")).
Proof. split; split; vm_compute; reflexivity. Qed.

(** C2.  The text compiled from the blinking program is [blink_lines].
    Its repeating routine holds, in this order, a write call setting pin 13
    high, a delay of 1000, a write call setting pin 13 low and a delay of
    500; its initialisation routine holds the pin-mode call of pin 13 as
    output.  The levels are written as the booleans [true] and [false]. *)
Theorem compile_blink fuel c :
  fst (compile H (10 + fuel) blink_source c) = Return (join [10%N] blink_lines)
  /\ loop_routine blink_lines
     = py <$> ["  digitalWrite(13, true);"; "  delay(1000);";
               "  digitalWrite(13, false);"; "  delay(500);"]
  /\ match loop_routine blink_lines with
     | [l1; l2; l3; l4] =>
         writes_level (py "13") true l1 && delays (py "1000") l2
         && writes_level (py "13") false l3 && delays (py "500") l4
     | _ => false
     end = true
  /\ existsb (configures (py "13") (py "OUTPUT")) (setup_block blink_lines)
     = true.
Proof.
  split; [vm_compute; reflexivity|].
  split; [vm_compute; reflexivity|].
  split; vm_compute; reflexivity.
Qed.

(** *** The lines a statement emits depend on the nesting depth only *)

Lemma indent_indented n rest :
  0 < n -> indented (repeat_str (py "  ") n ++ rest) = true.
Proof. destruct n; [lia|]. intros _. reflexivity. Qed.

Ltac emitted :=
  cbn [same_lines output indent_level];
  rewrite <- ?app_assoc; cbn [app];
  repeat match goal with
         | E : indent_level _ = indent_level _ |- _ => rewrite <- ?E; clear E
         end;
  eexists; split; [reflexivity|]; split; [reflexivity|];
  split; [reflexivity|]; split; [reflexivity|];
  intros; repeat constructor; apply indent_indented; assumption.

Ltac emit_none :=
  exists []; split; [symmetry; apply app_nil_r|];
  split; [symmetry; apply app_nil_r|];
  split; [reflexivity|]; split; [reflexivity|]; intros; constructor.

Lemma for_each_same nodes :
  Forall (fun node => forall g1 g2, indent_level g1 = indent_level g2 ->
            same_lines g1 g2 (generate_node H node g1)
              (generate_node H node g2))
         nodes ->
  forall g1 g2, indent_level g1 = indent_level g2 ->
    same_lines g1 g2 (for_each (generate_node H) nodes g1)
      (for_each (generate_node H) nodes g2).
Proof.
  induction 1 as [|node nodes Hn _ IH]; intros g1 g2 E.
  - cbn. emit_none.
  - cbn [for_each]. unfold bind. specialize (Hn g1 g2 E).
    destruct (generate_node H node g1) as [[[] g1']| |],
      (generate_node H node g2) as [[[] g2']| |];
      cbn [same_lines] in Hn |- *; try tauto.
    destruct Hn as (ls & O1 & O2 & L1 & L2 & I).
    specialize (IH g1' g2' ltac:(congruence)).
    destruct (for_each (generate_node H) nodes g1') as [[[] g1'']| |],
      (for_each (generate_node H) nodes g2') as [[[] g2'']| |];
      cbn [same_lines] in IH |- *; try tauto.
    destruct IH as (ls' & O1' & O2' & L1' & L2' & I').
    exists (ls ++ ls'). rewrite O1', O2', O1, O2, <- !app_assoc.
    split; [reflexivity|]. split; [reflexivity|].
    split; [congruence|]. split; [congruence|].
    intros Hpos. apply Forall_app. split; [auto|]. apply I'. lia.
Qed.

Ltac split_outcomes :=
  repeat match goal with
         | |- context [normalize_pin H ?p] => destruct (normalize_pin H p)
         | |- context [normalize_value H ?v ?t] =>
             destruct (normalize_value H v t)
         | |- context [generate_binary_op H ?a ?b ?c] =>
             destruct (generate_binary_op H a b c)
         end.

Ltac leaf E :=
  cbn [generate_node];
  unfold generate_pin_declaration, generate_digital_write,
    generate_analog_write, generate_digital_read, generate_analog_read,
    generate_delay, generate_serial_begin, generate_serial_print,
    generate_variable_declaration, generate_assignment,
    generate_function_call, bind, lift, get, emit, modify, ret;
  split_outcomes; cbv beta iota zeta; cbn [same_lines output indent_level];
  rewrite <- ?E; try reflexivity; try tauto.

Lemma generate_node_same node :
  forall g1 g2, indent_level g1 = indent_level g2 ->
    same_lines g1 g2 (generate_node H node g1) (generate_node H node g2).
Proof.
  induction node as [node IH] using Node_ind_children.
  intros g1 g2 E.
  destruct node; cbn [node_children] in IH.
  - leaf E. destruct value.
    + match goal with
      | |- context [str_eqb ?a ?b] => destruct (str_eqb a b)
      end; emitted.
    + emitted.
  - leaf E. emitted.
  - leaf E. emitted.
  - leaf E. emitted.
  - leaf E. emitted.
  - leaf E. emitted.
  - leaf E. emitted.
  - leaf E. destruct newline; emitted.
  - change (generate_node H (LoopNode children) g1)
      with (for_each (generate_node H) children g1).
    change (generate_node H (LoopNode children) g2)
      with (for_each (generate_node H) children g2).
    apply for_each_same; assumption.
  - reflexivity.
  - leaf E. destruct value; split_outcomes; cbv beta iota zeta;
      cbn [same_lines output indent_level]; try reflexivity; try tauto;
      emitted.
  - leaf E. emitted.
  - leaf E. emitted.
  - leaf E. emit_none.
Qed.

Lemma for_each_run nodes g :
  match for_each (generate_node H) nodes g with
  | Return (_, g') =>
      exists ls, translate H nodes (indent_level g) = Return ls
        /\ output g' = output g ++ ls
        /\ indent_level g' = indent_level g
        /\ (0 < indent_level g -> Forall (fun l => indented l = true) ls)
  | Raise e => translate H nodes (indent_level g) = Raise e
  | OutOfFuel => translate H nodes (indent_level g) = OutOfFuel
  end.
Proof.
  pose proof (for_each_same nodes
    (proj2 (Forall_forall _ _) (fun node _ => generate_node_same node))
    g (blank_generator (indent_level g)) eq_refl) as S.
  unfold translate.
  destruct (for_each (generate_node H) nodes g) as [[[] g1]| |],
    (for_each (generate_node H) nodes (blank_generator (indent_level g)))
    as [[[] g2]| |]; cbn [same_lines] in S; try tauto; try congruence.
  destruct S as (ls & O1 & O2 & L1 & L2 & I).
  exists ls. cbn [blank_generator output app] in O2. rewrite O2. auto.
Qed.

Lemma translate_indented nodes level ls :
  translate H nodes level = Return ls -> 0 < level ->
  Forall (fun l => indented l = true) ls.
Proof.
  intros T Hpos. pose proof (for_each_run nodes (blank_generator level)) as R.
  cbn [blank_generator indent_level] in R. unfold translate in T.
  destruct (for_each (generate_node H) nodes (blank_generator level))
    as [[[] g1]| |]; try discriminate T.
  destruct R as (ls' & T' & O & _ & I). injection T as <-.
  cbn [blank_generator output app] in O. rewrite O. auto.
Qed.

Lemma translate_cons node rest level :
  translate H (node :: rest) level =
    match translate H [node] level with
    | Return l1 =>
        match translate H rest level with
        | Return l2 => Return (l1 ++ l2)
        | Raise e => Raise e
        | OutOfFuel => OutOfFuel
        end
    | Raise e => Raise e
    | OutOfFuel => OutOfFuel
    end.
Proof.
  unfold translate at 1 2. cbn [for_each]. unfold bind at 1 2.
  pose proof (generate_node_same node (blank_generator level)
                (blank_generator level) eq_refl) as S.
  destruct (generate_node H node (blank_generator level)) as [[[] g1]| |];
    try reflexivity.
  cbn [same_lines] in S. destruct S as (ls & O & _ & L & _).
  cbn [blank_generator output indent_level app] in O, L.
  pose proof (for_each_run rest g1) as R. rewrite L in R.
  cbn [ret].
  destruct (for_each (generate_node H) rest g1) as [[[] g2]| |].
  - destruct R as (l2 & -> & O2 & _). congruence.
  - rewrite R. reflexivity.
  - rewrite R. reflexivity.
Qed.

(** *** The shape of the generated text *)

Lemma generate_first_loop_find children g :
  generate_first_loop H children g =
    match List.find is_loop children with
    | Some (LoopNode body) => for_each (generate_node H) body g
    | _ => Return (tt, g)
    end.
Proof.
  induction children as [|node rest IH]; [reflexivity|].
  cbn [generate_first_loop List.find].
  destruct node; cbn [is_loop]; try apply IH. reflexivity.
Qed.

Lemma generate_header_init :
  generate_header H CodeGenerator_init =
    Return (tt, {| output := header_lines; indent_level := 0;
                   variables := []; in_setup := true;
                   includes := {[ py "<Arduino.h>" ]} |}).
Proof. vm_compute. reflexivity. Qed.

Lemma generate_setup_run ast g :
  generate_setup H ast g =
    match for_each (generate_node H) (program_children ast)
            {| output := output g ++ [py "void setup() {"];
               indent_level := S (indent_level g);
               variables := variables g; in_setup := in_setup g;
               includes := includes g |} with
    | Return (_, g1) =>
        Return (tt, {| output := (output g1 ++ [py "}"]) ++ [[]];
                       indent_level := Nat.pred (indent_level g1);
                       variables := variables g1; in_setup := false;
                       includes := includes g1 |})
    | Raise e => Raise e
    | OutOfFuel => OutOfFuel
    end.
Proof.
  unfold generate_setup, bind, emit, set_indent, modify.
  cbn [output indent_level variables in_setup includes].
  destruct (for_each _ _ _) as [[[] g1]| |]; reflexivity.
Qed.

Lemma generate_loop_run ast g :
  generate_loop H ast g =
    match generate_first_loop H (program_children ast)
            {| output := output g ++ [py "void loop() {"];
               indent_level := S (indent_level g);
               variables := variables g; in_setup := in_setup g;
               includes := includes g |} with
    | Return (_, g1) =>
        Return (tt, {| output := output g1 ++ [py "}"];
                       indent_level := Nat.pred (indent_level g1);
                       variables := variables g1; in_setup := in_setup g1;
                       includes := includes g1 |})
    | Raise e => Raise e
    | OutOfFuel => OutOfFuel
    end.
Proof.
  unfold generate_loop, bind, emit, set_indent, modify.
  cbn [output indent_level variables in_setup includes].
  destruct (generate_first_loop _ _ _) as [[[] g1]| |]; reflexivity.
Qed.

(** The generated lines are the header, the translation of all top-level
    statements inside [setup] and the translation of the body of the first
    loop inside [loop]. *)
Lemma generate_lines_eq ast :
  generate_lines H ast =
    match translate H (program_children ast) 1 with
    | Return setup_ls =>
        match translate H (first_loop_body ast) 1 with
        | Return body => Return (assemble setup_ls body)
        | Raise e => Raise e
        | OutOfFuel => OutOfFuel
        end
    | Raise e => Raise e
    | OutOfFuel => OutOfFuel
    end.
Proof.
  unfold generate_lines, generate_from.
  unfold bind at 1. rewrite generate_header_init.
  unfold bind at 1. rewrite generate_setup_run.
  cbn [output indent_level variables in_setup includes].
  match goal with
  | |- context [for_each (generate_node H) (program_children ast) ?g] =>
      pose proof (for_each_run (program_children ast) g) as R1;
      destruct (for_each (generate_node H) (program_children ast) g)
        as [[[] g1]| |]
  end; cbn [output indent_level] in R1; [|rewrite R1; reflexivity..].
  destruct R1 as (setup_ls & -> & O1 & L1 & _).
  unfold bind at 1. rewrite generate_loop_run.
  cbn [output indent_level variables in_setup includes].
  rewrite generate_first_loop_find. unfold first_loop_body. rewrite L1.
  cbn [Nat.pred].
  assert (translate H [] 1 = Return []) as T0 by reflexivity.
  destruct (List.find is_loop (program_children ast)) as [[]|];
    try (rewrite T0; unfold bind, get, ret, assemble; cbn [output];
         rewrite O1, <- !app_assoc; reflexivity).
  match goal with
  | |- context [for_each (generate_node H) children ?g] =>
      pose proof (for_each_run children g) as R2;
      destruct (for_each (generate_node H) children g) as [[[] g2]| |]
  end; cbn [output indent_level] in R2; [|rewrite R2; reflexivity..].
  destruct R2 as (body & -> & O2 & _ & _).
  unfold bind, get, ret, assemble. cbn [output].
  rewrite O2, O1, <- !app_assoc. reflexivity.
Qed.

Lemma until_brace_app body rest :
  Forall (fun l => indented l = true) body ->
  until_brace (body ++ py "}" :: rest) = body.
Proof.
  induction 1 as [|l body Hl _ IH].
  - cbn [app until_brace]. unfold str_eqb.
    rewrite bool_decide_eq_true_2 by reflexivity. reflexivity.
  - cbn [app until_brace]. unfold str_eqb.
    case_bool_decide as D; [subst l; discriminate Hl|]. f_equal. exact IH.
Qed.

Lemma routine_body_skip opening pre rest :
  Forall (fun l => l <> opening) pre ->
  routine_body opening (pre ++ opening :: rest) = until_brace rest.
Proof.
  induction 1 as [|l pre Hl _ IH]; cbn [app routine_body]; unfold str_eqb.
  - rewrite bool_decide_eq_true_2 by reflexivity. reflexivity.
  - rewrite bool_decide_eq_false_2 by assumption. exact IH.
Qed.

Lemma loop_routine_assemble setup_ls body :
  Forall (fun l => indented l = true) setup_ls ->
  Forall (fun l => indented l = true) body ->
  loop_routine (assemble setup_ls body) = body.
Proof.
  intros I1 I2. unfold loop_routine, assemble.
  change (header_lines ++ py "void setup() {" :: setup_ls
           ++ [py "}"; []; py "void loop() {"] ++ body ++ [py "}"])
    with ((header_lines ++ [py "void setup() {"]) ++ setup_ls
           ++ [py "}"; []] ++ py "void loop() {" :: body ++ [py "}"]).
  rewrite !app_assoc. rewrite routine_body_skip.
  - apply until_brace_app. assumption.
  - rewrite !Forall_app. split; [split|].
    + repeat constructor; intros D; vm_compute in D; discriminate D.
    + eapply Forall_impl; [exact I1|]. intros l Hl ->. discriminate Hl.
    + repeat constructor; intros D; vm_compute in D; discriminate D.
Qed.

Lemma setup_block_assemble setup_ls body :
  Forall (fun l => indented l = true) setup_ls ->
  setup_block (assemble setup_ls body) = setup_ls.
Proof.
  intros I1. unfold setup_block, assemble.
  rewrite routine_body_skip.
  - apply until_brace_app. assumption.
  - repeat constructor; intros D; vm_compute in D; discriminate D.
Qed.

Lemma find_first_loop pre body post :
  Forall (fun node => is_loop node = false) pre ->
  List.find is_loop (pre ++ LoopNode body :: post) = Some (LoopNode body).
Proof.
  induction 1 as [|node pre Hn _ IH]; [reflexivity|].
  cbn [app List.find]. rewrite Hn. exact IH.
Qed.

Lemma find_no_loop children :
  Forall (fun node => is_loop node = false) children ->
  List.find is_loop children = None.
Proof.
  induction 1 as [|node pre Hn _ IH]; [reflexivity|].
  cbn [List.find]. rewrite Hn. exact IH.
Qed.

(** C4.  In the text generated for a program, the body of the repeating
    routine is the translation of the body of the first [LoopNode] among
    the children of the program: it is empty when the program has no
    [LoopNode], and it is the translation of the first one, whatever comes
    before or after it, when there are several. *)
Theorem loop_routine_first_loop ast ls :
  generate_lines H ast = Return ls ->
  translate H (first_loop_body ast) 1 = Return (loop_routine ls)
  /\ (Forall (fun node => is_loop node = false) (program_children ast) ->
      loop_routine ls = [])
  /\ (forall pre body post,
        program_children ast = pre ++ LoopNode body :: post ->
        Forall (fun node => is_loop node = false) pre ->
        translate H body 1 = Return (loop_routine ls)).
Proof.
  rewrite generate_lines_eq.
  destruct (translate H (program_children ast) 1) as [setup_ls| |] eqn:T1;
    try discriminate.
  destruct (translate H (first_loop_body ast) 1) as [body| |] eqn:T2;
    try discriminate.
  intros [= <-].
  rewrite loop_routine_assemble
    by (eapply translate_indented; [eassumption|lia]).
  split; [reflexivity|]. split.
  - intros NL. unfold first_loop_body in T2.
    rewrite (find_no_loop _ NL) in T2. injection T2 as <-. reflexivity.
  - intros pre b post E NL. unfold first_loop_body in T2.
    rewrite E, (find_first_loop _ _ _ NL) in T2. exact T2.
Qed.

Lemma generate_join ast :
  generate H ast =
    match generate_lines H ast with
    | Return ls => Return (join [10%N] ls)
    | Raise e => Raise e
    | OutOfFuel => OutOfFuel
    end.
Proof.
  unfold generate, generate_lines, generate_from, bind, get, ret.
  destruct (generate_header H CodeGenerator_init) as [[[] g1]| |];
    [|reflexivity..].
  destruct (generate_setup H ast g1) as [[[] g2]| |]; [|reflexivity..].
  destruct (generate_loop H ast g2) as [[[] g3]| |]; reflexivity.
Qed.

(** *** Include directives *)

(** C6.  The text compiled from a program that initialises the serial
    port: the only include directive is the one of [<Arduino.h>], the
    header is written before the statement is translated. *)
Theorem compile_serial_begin fuel c :
  fst (compile H (2 + fuel) serial_source c)
    = Return (join [10%N] serial_lines)
  /\ List.filter is_include serial_lines = [py "#include <Arduino.h>"].
Proof. split; vm_compute; reflexivity. Qed.

(** *** The initialisation block of a program with one output pin *)

Lemma dict_get_in {A} (d : list (pystr * A)) k v :
  dict_get d k = Some v -> In v (snd <$> d).
Proof.
  induction d as [|[k' v'] d IH]; [discriminate|].
  cbn [dict_get]. destruct (str_eqb k' k).
  - intros [= <-]. left. reflexivity.
  - intros E. right. exact (IH E).
Qed.

Lemma alias_normalizes s alias :
  dict_get PIN_ALIASES s = Some alias ->
  exists r, normalize_pin H alias = Return r.
Proof.
  intros E. apply dict_get_in in E.
  assert (forallb (fun v => returns (normalize_pin H v))
            (snd <$> PIN_ALIASES) = true) as F
    by (vm_compute; reflexivity).
  rewrite forallb_forall in F. specialize (F _ E).
  destruct (normalize_pin H alias); try discriminate F. eauto.
Qed.

Lemma normalize_value_returns v t :
  exists r, normalize_value H v t = Return r.
Proof.
  destruct v; cbn [normalize_value]; eauto.
  destruct (bool_decide (lower H s ∈ truthy_words)); eauto.
  destruct (bool_decide (lower H s ∈ falsy_words)); eauto.
  destruct (dict_get PIN_ALIASES s) eqn:A; [eapply alias_normalizes; eauto|].
  match goal with |- context [if ?b then _ else _] => destruct b end; eauto.
Qed.

Lemma map_type_cases t :
  In (map_type t)
     (py <$> ["int"; "float"; "bool"; "char"; "String"; "void"; "long";
              "byte"; "word"]).
Proof.
  unfold map_type. cbn [find fst snd].
  repeat (destruct (String.eqb _ t); [cbn [fmap list_fmap In]; tauto|]).
  cbn [fmap list_fmap In]; tauto.
Qed.

(** The lines of a text joined from entries without line feeds are the
    entries. *)
Lemma split_lines_app l rest :
  one_line l = true -> split_lines (l ++ 10%N :: rest) = l :: split_lines rest.
Proof.
  induction l as [|c l IH]; [reflexivity|].
  unfold one_line. cbn [forallb app split_lines]. intros O.
  apply andb_prop in O as [Oc Ol]. apply negb_true_iff in Oc.
  rewrite Oc, (IH Ol). reflexivity.
Qed.

Lemma split_lines_line l : one_line l = true -> split_lines l = [l].
Proof.
  induction l as [|c l IH]; [reflexivity|].
  unfold one_line. cbn [forallb split_lines]. intros O.
  apply andb_prop in O as [Oc Ol]. apply negb_true_iff in Oc.
  rewrite Oc, (IH Ol). reflexivity.
Qed.

Lemma split_lines_join ls :
  ls <> [] -> Forall (fun l => one_line l = true) ls ->
  split_lines (join [10%N] ls) = ls.
Proof.
  intros N F. induction F as [|l ls Ol F IH]; [congruence|].
  destruct ls as [|l' ls].
  - apply split_lines_line. exact Ol.
  - change (join [10%N] (l :: l' :: ls))
      with (l ++ 10%N :: join [10%N] (l' :: ls)).
    rewrite (split_lines_app _ _ Ol), IH by discriminate. reflexivity.
Qed.

(** A word does not start across a character that is not one of its
    own. *)
Lemma startswith_sep w a c b :
  ~ In c w -> startswith (a ++ c :: b) w = startswith a w.
Proof.
  revert a. induction w as [|y w IH]; intros a Nc; [reflexivity|].
  destruct a as [|x a]; cbn [app startswith].
  - destruct (N.eqb_spec y c) as [->|_]; [|reflexivity].
    exfalso. apply Nc. left. reflexivity.
  - rewrite IH; [reflexivity|]. intros I. apply Nc. right. exact I.
Qed.

Lemma occurrences_sep w a c b :
  w <> [] -> ~ In c w ->
  occurrences w (a ++ c :: b) = occurrences w a + occurrences w b.
Proof.
  intros Nw Nc. induction a as [|x a IH].
  - cbn [app occurrences]. pose proof (startswith_sep w [] c b Nc) as S.
    cbn [app] in S. rewrite S. destruct w; [congruence|reflexivity].
  - change ((x :: a) ++ c :: b) with (x :: a ++ c :: b).
    cbn [occurrences].
    change (x :: a ++ c :: b) with ((x :: a) ++ c :: b).
    rewrite (startswith_sep w (x :: a) c b Nc), IH. lia.
Qed.

Lemma one_line_sep a c b :
  (c =? 10)%N = false -> one_line a = true -> one_line b = true ->
  one_line (a ++ c :: b) = true.
Proof.
  unfold one_line. intros Nc Oa Ob.
  rewrite forallb_app. cbn [forallb]. rewrite Oa, Ob, Nc. reflexivity.
Qed.

Lemma separator_word c w :
  separator c = true -> In w pin_functions -> w <> [] /\ ~ In c w.
Proof.
  unfold separator. intros S I. apply andb_prop in S as [_ S].
  rewrite forallb_forall in S. specialize (S w I).
  apply negb_true_iff, bool_decide_eq_false in S. split.
  - intros ->. cbn in I. repeat destruct I as [I|I]; try discriminate I.
    exact I.
  - intros I'. apply S, list_elem_of_In, I'.
Qed.

Lemma harmless_sep a c b :
  separator c = true -> harmless a = true -> harmless b = true ->
  harmless (a ++ c :: b) = true.
Proof.
  unfold harmless. intros S Ha Hb.
  apply andb_prop in Ha as [Oa Wa]. apply andb_prop in Hb as [Ob Wb].
  apply andb_true_intro. split.
  - apply one_line_sep; [|assumption..].
    unfold separator in S. apply andb_prop in S as [S _].
    apply negb_true_iff in S. exact S.
  - rewrite forallb_forall in Wa, Wb |- *. intros w I.
    destruct (separator_word c w S I) as [Nw Nc].
    specialize (Wa w I). specialize (Wb w I).
    apply Nat.eqb_eq in Wa, Wb. apply Nat.eqb_eq.
    rewrite (occurrences_sep w a c b Nw Nc). lia.
Qed.

Lemma harmless_weave rest :
  forall first,
    harmless first = true ->
    Forall (fun cs => separator (fst cs) = true /\ harmless (snd cs) = true)
      rest ->
    harmless (weave first rest) = true.
Proof.
  induction rest as [|[c s] rest IH]; intros first Hf F; [exact Hf|].
  apply Forall_cons in F as [[Sc Hs] F]. cbn [weave fst snd] in *.
  apply harmless_sep; [exact Sc|exact Hf|]. apply IH; assumption.
Qed.

Ltac piece := cbn [fst snd]; first [assumption | vm_compute; reflexivity].

Ltac woven :=
  apply harmless_weave;
  [piece|repeat (apply Forall_cons_2; [split; piece|]); apply Forall_nil_2].

Lemma harmless_join parts :
  Forall (fun s => harmless s = true) parts ->
  harmless (join (py ", ") parts) = true.
Proof.
  induction 1 as [|s parts Hs F IH]; [reflexivity|].
  destruct parts as [|s' parts]; [exact Hs|].
  change (join (py ", ") (s :: s' :: parts))
    with (weave s [(44%N, []); (32%N, join (py ", ") (s' :: parts))]).
  woven.
Qed.

Lemma harmless_words l :
  harmless l = true ->
  one_line l = true
  /\ occurrences (py "pinMode") l = 0
  /\ occurrences (py "digitalWrite") l = 0
  /\ occurrences (py "analogWrite") l = 0.
Proof.
  unfold harmless, pin_functions. cbn [forallb]. intros E.
  apply andb_prop in E as [O E]. apply andb_prop in E as [E1 E].
  apply andb_prop in E as [E2 E]. apply andb_prop in E as [E3 _].
  apply Nat.eqb_eq in E1, E2, E3. auto.
Qed.

(** What [normalize_value] makes of a harmless value is harmless. *)
Lemma normalize_value_harmless v t r :
  harmless (str H v) = true -> normalize_value H v t = Return r ->
  harmless r = true.
Proof.
  destruct v as [n|lx|s]; cbn [normalize_value];
    [intros Hv [= <-]; exact Hv..|].
  cbn [str]. intros Hs.
  destruct (bool_decide (lower H s ∈ truthy_words)).
  { intros [= <-]. destruct (bool_decide _); vm_compute; reflexivity. }
  destruct (bool_decide (lower H s ∈ falsy_words)).
  { intros [= <-]. destruct (bool_decide _); vm_compute; reflexivity. }
  destruct (dict_get PIN_ALIASES s) as [alias|] eqn:A.
  - apply dict_get_in in A.
    assert (forallb (fun a => match normalize_pin H a with
                              | Return p => harmless p
                              | _ => true
                              end) (snd <$> PIN_ALIASES) = true) as F
      by (vm_compute; reflexivity).
    rewrite forallb_forall in F. specialize (F _ A).
    intros E. rewrite E in F. exact F.
  - match goal with |- context [if ?b then _ else _] => destruct b end;
      intros [= <-]; [|exact Hs].
    change (harmless (weave [] [(34%N, s); (34%N, [])]) = true).
    woven.
Qed.

Lemma translate_loop children level :
  translate H [LoopNode children] level = translate H children level.
Proof.
  unfold translate. cbn [for_each]. unfold bind at 1.
  change (generate_node H (LoopNode children) (blank_generator level))
    with (for_each (generate_node H) children (blank_generator level)).
  destruct (for_each (generate_node H) children (blank_generator level))
    as [[[] g]| |]; reflexivity.
Qed.

Lemma translate_harmless nodes :
  Forall (fun node => exists ls, translate H [node] 1 = Return ls
            /\ Forall (fun l => harmless l = true) ls) nodes ->
  exists ls, translate H nodes 1 = Return ls
    /\ Forall (fun l => harmless l = true) ls.
Proof.
  induction 1 as [|node nodes (l1 & T1 & P1) _ (ls & T & P)].
  - exists []. split; [reflexivity|constructor].
  - exists (l1 ++ ls). split; [|apply Forall_app; split; assumption].
    rewrite translate_cons, T1, T. reflexivity.
Qed.

Ltac one_entry := constructor; [|constructor].

(** A quiet statement is translated to harmless lines. *)
Lemma quiet_translate node :
  quiet H node = true ->
  exists ls, translate H [node] 1 = Return ls
    /\ Forall (fun l => harmless l = true) ls.
Proof.
  induction node as [node IH] using Node_ind_children.
  destruct node; try discriminate; intros Q; cbn [node_children] in IH;
    cbn [quiet] in Q.
  - exists [weave (py " ") [(32%N, py "delay"); (40%N, str H duration);
                            (41%N, py ";")]].
    split; [reflexivity|]. one_entry. woven.
  - exists [weave (py " ") [(32%N, py "Serial.begin"); (40%N, str H baud_rate);
                            (41%N, py ";")]].
    split; [reflexivity|]. one_entry. woven.
  - destruct newline.
    + exists [weave (py " ") [(32%N, py "Serial.println");
                              (40%N, str H value); (41%N, py ";")]].
      split; [reflexivity|]. one_entry. woven.
    + exists [weave (py " ") [(32%N, py "Serial.print");
                              (40%N, str H value); (41%N, py ";")]].
      split; [reflexivity|]. one_entry. woven.
  - rewrite translate_loop. apply translate_harmless.
    rewrite forallb_forall in Q.
    rewrite Forall_forall in IH |- *. intros child Hin.
    apply IH; [exact Hin|]. apply Q. apply list_elem_of_In. exact Hin.
  - apply andb_prop in Q as [Qn Qv].
    assert (harmless (map_type type) = true) as Ht.
    { pose proof (map_type_cases type) as M. cbn [fmap list_fmap In] in M.
      repeat (destruct M as [<-|M]; [vm_compute; reflexivity|]).
      destruct M. }
    destruct value as [v|].
    + destruct (normalize_value_returns v (Some type)) as [r E].
      pose proof (normalize_value_harmless _ _ _ Qv E) as Hr.
      exists [weave (py " ") [(32%N, map_type type); (32%N, str H name);
                              (32%N, py "="); (32%N, r); (59%N, [])]].
      split; [|one_entry; woven].
      unfold translate. cbn [for_each generate_node].
      unfold generate_variable_declaration, bind, lift, get, emit, modify,
        ret.
      rewrite E. reflexivity.
    + exists [weave (py " ") [(32%N, map_type type); (32%N, str H name);
                              (59%N, [])]].
      split; [reflexivity|]. one_entry. woven.
  - apply andb_prop in Q as [Qn Qv].
    destruct (normalize_value_returns value None) as [r E].
    pose proof (normalize_value_harmless _ _ _ Qv E) as Hr.
    exists [weave (py " ") [(32%N, str H name); (32%N, py "="); (32%N, r);
                            (59%N, [])]].
    split; [|one_entry; woven].
    unfold translate. cbn [for_each generate_node].
    unfold generate_assignment, bind, lift, get, emit, modify, ret.
    rewrite E. reflexivity.
  - apply andb_prop in Q as [Qn Qa].
    assert (harmless (join (py ", ") (str H <$> args)) = true) as Ha.
    { apply harmless_join. rewrite forallb_forall in Qa.
      apply Forall_forall. intros s I. apply list_elem_of_In in I.
      apply in_map_iff in I as (a & <- & I). exact (Qa a I). }
    exists [weave (py " ") [(32%N, str H name);
                            (40%N, join (py ", ") (str H <$> args));
                            (41%N, py ";")]].
    split; [reflexivity|]. one_entry. woven.
Qed.

Lemma translate_app a b level la lb :
  translate H a level = Return la -> translate H b level = Return lb ->
  translate H (a ++ b) level = Return (la ++ lb).
Proof.
  revert la. induction a as [|node a IH]; intros la Ta Tb.
  - injection Ta as <-. exact Tb.
  - cbn [app]. rewrite translate_cons in Ta |- *.
    destruct (translate H [node] level) as [l1| |]; try discriminate Ta.
    destruct (translate H a level) as [l2| |]; try discriminate Ta.
    injection Ta as <-. rewrite (IH l2 eq_refl Tb), app_assoc. reflexivity.
Qed.

Lemma translate_quiet nodes :
  Forall (fun node => quiet H node = true) nodes ->
  exists ls, translate H nodes 1 = Return ls
    /\ Forall (fun l => harmless l = true) ls.
Proof.
  intros Q. apply translate_harmless.
  eapply Forall_impl; [exact Q|]. apply quiet_translate.
Qed.

Lemma translate_output_pin pin p :
  normalize_pin H pin = Return p ->
  translate H [PinDeclarationNode pin (VStr (py "выход")) None] 1
    = Return [py "  pinMode(" ++ p ++ py ", OUTPUT);"].
Proof.
  intros E. unfold translate. cbn [for_each generate_node].
  unfold generate_pin_declaration, bind, lift, get, emit, modify, ret.
  rewrite E. vm_compute. reflexivity.
Qed.

Lemma first_loop_returns nodes :
  Forall (fun node => quiet H node = true \/ is_loop node = false) nodes ->
  exists body,
    translate H match List.find is_loop nodes with
                | Some (LoopNode b) => b
                | _ => []
                end 1 = Return body
    /\ Forall (fun l => harmless l = true) body.
Proof.
  induction 1 as [|node nodes Hn _ IH];
    [exists []; split; [reflexivity|constructor]|].
  cbn [List.find]. destruct node; cbn [is_loop]; try exact IH.
  destruct Hn as [Q|Q]; [|discriminate Q]. cbn [quiet] in Q.
  rewrite forallb_forall in Q.
  apply translate_quiet.
  apply Forall_forall. intros child Hin. apply Q, list_elem_of_In, Hin.
Qed.

Lemma mentions_app fn a b :
  mentions fn (a ++ b) = mentions fn a + mentions fn b.
Proof.
  induction a as [|l a IH]; [reflexivity|].
  cbn [app mentions foldr]. fold (mentions fn (a ++ b)).
  fold (mentions fn a). lia.
Qed.

Lemma mentions_harmless ls :
  Forall (fun l => harmless l = true) ls ->
  mentions "pinMode" ls = 0 /\ mentions "digitalWrite" ls = 0
  /\ mentions "analogWrite" ls = 0.
Proof.
  induction 1 as [|l ls Hl _ (I1 & I2 & I3)]; [repeat split|].
  apply harmless_words in Hl as (_ & O1 & O2 & O3).
  unfold mentions in *. cbn [foldr]. rewrite O1, O2, O3, I1, I2, I3.
  repeat split.
Qed.

(** The pin-mode call of a harmless pin names [pinMode] once and no
    function that writes. *)
Lemma pin_mode_line p :
  harmless p = true ->
  one_line (py "  pinMode(" ++ p ++ py ", OUTPUT);") = true
  /\ mentions "pinMode" [py "  pinMode(" ++ p ++ py ", OUTPUT);"] = 1
  /\ mentions "digitalWrite" [py "  pinMode(" ++ p ++ py ", OUTPUT);"] = 0
  /\ mentions "analogWrite" [py "  pinMode(" ++ p ++ py ", OUTPUT);"] = 0.
Proof.
  intros Hp. apply harmless_words in Hp as (Op & P1 & P2 & P3).
  change (py "  pinMode(" ++ p ++ py ", OUTPUT);")
    with (py "  pinMode" ++ 40%N :: p ++ 44%N :: py " OUTPUT);").
  split.
  { apply one_line_sep; [reflexivity|reflexivity|].
    apply one_line_sep; [reflexivity|exact Op|reflexivity]. }
  unfold mentions. cbn [foldr]. rewrite !Nat.add_0_r.
  assert (forall w, w <> [] -> ~ In 40%N w -> ~ In 44%N w ->
            occurrences w
              (py "  pinMode" ++ 40%N :: p ++ 44%N :: py " OUTPUT);")
            = occurrences w (py "  pinMode") + occurrences w p
              + occurrences w (py " OUTPUT);")) as O.
  { intros w Nw N1 N2.
    rewrite (occurrences_sep w _ 40%N _ Nw N1).
    rewrite (occurrences_sep w p 44%N _ Nw N2). lia. }
  rewrite !O, P1, P2, P3;
    [repeat split; vm_compute; reflexivity
    |try discriminate; vm_compute; intuition discriminate..].
Qed.

(** C3, amended.  For a program whose top-level statements are one pin
    declaration in output mode without initial value, for a pin that is not
    an alias of a numeric pin, and otherwise quiet statements only (delays,
    serial initialisation and output, variable declarations, assignments,
    calls of functions, loops of such statements), where no name or value,
    the pin included, holds a line feed or one of the words [pinMode],
    [digitalWrite] and [analogWrite]: generation returns, and in the text
    it returns the initialisation block, the lines between
    [void setup() {] and the next closing brace, holds the pin-mode call of
    that pin, names [pinMode] exactly once, and names neither
    [digitalWrite] nor [analogWrite]. *)
Theorem setup_block_single_output_pin pre post pin p :
  Forall (fun node => quiet H node = true) pre ->
  Forall (fun node => quiet H node = true) post ->
  normalize_pin H pin = Return p ->
  harmless p = true ->
  exists text,
    generate H
      (ProgramNode
         (pre ++ PinDeclarationNode pin (VStr (py "выход")) None :: post))
      = Return text
    /\ In (py "  pinMode(" ++ p ++ py ", OUTPUT);")
         (setup_block (split_lines text))
    /\ mentions "pinMode" (setup_block (split_lines text)) = 1
    /\ mentions "digitalWrite" (setup_block (split_lines text)) = 0
    /\ mentions "analogWrite" (setup_block (split_lines text)) = 0.
Proof.
  intros Qpre Qpost E Hp.
  destruct (translate_quiet pre Qpre) as (lpre & Tpre & Ppre).
  destruct (translate_quiet post Qpost) as (lpost & Tpost & Ppost).
  pose proof (translate_output_pin pin p E) as Tpin.
  destruct (pin_mode_line p Hp) as (Ol & M1 & M2 & M3).
  set (line := py "  pinMode(" ++ p ++ py ", OUTPUT);") in *.
  set (pin_node := PinDeclarationNode pin (VStr (py "выход")) None) in *.
  assert (translate H (pre ++ pin_node :: post) 1
          = Return (lpre ++ line :: lpost)) as T.
  { apply translate_app; [assumption|].
    change (pin_node :: post) with ([pin_node] ++ post).
    change (line :: lpost) with ([line] ++ lpost).
    apply translate_app; assumption. }
  destruct (first_loop_returns (pre ++ pin_node :: post)) as (body & B & Pb).
  { apply Forall_app. split.
    - eapply Forall_impl; [exact Qpre|]. intros node Q. left. exact Q.
    - constructor; [right; reflexivity|].
      eapply Forall_impl; [exact Qpost|]. intros node Q. left. exact Q. }
  exists (join [10%N] (assemble (lpre ++ line :: lpost) body)).
  assert (forall ls, Forall (fun l => harmless l = true) ls ->
            Forall (fun l => one_line l = true) ls) as One.
  { intros ls F. eapply Forall_impl; [exact F|].
    intros l Hl. apply harmless_words in Hl. tauto. }
  split.
  { rewrite generate_join, generate_lines_eq. cbn [program_children].
    rewrite T. unfold first_loop_body. cbn [program_children]. rewrite B.
    reflexivity. }
  rewrite split_lines_join.
  2:{ unfold assemble. destruct header_lines; discriminate. }
  2:{ unfold assemble. rewrite !Forall_app, !Forall_cons, !Forall_app.
      repeat split; auto;
        repeat (constructor; [vm_compute; reflexivity|]); constructor. }
  rewrite setup_block_assemble
    by (eapply translate_indented; [exact T|lia]).
  split; [apply in_or_app; right; left; reflexivity|].
  change (line :: lpost) with ([line] ++ lpost).
  rewrite !mentions_app.
  destruct (mentions_harmless lpre Ppre) as (-> & -> & ->).
  destruct (mentions_harmless lpost Ppost) as (-> & -> & ->).
  rewrite M1, M2, M3. repeat split.
Qed.

End Generation.

(** ** Properties of the compiler driver *)

Section Driver.
Variable H : Host.

Lemma compile_cpp_code fuel text c code c' :
  compile H fuel text c = (Return code, c') -> cpp_code c' = code.
Proof.
  unfold compile.
  destruct (parse H fuel (tokenize H text)) as [program| |];
    [|intros E; discriminate E..].
  destruct (generate H program) as [text'| |];
    [|intros E; discriminate E..].
  intros E. injection E as <- <-. reflexivity.
Qed.

(** *** [compile] among the objects of earlier calls *)

Lemma fresh_address (h : Heap) l o : h !! l = Some o -> fresh (dom h) <> l.
Proof.
  intros E F. apply (is_fresh (dom h)). rewrite F. apply elem_of_dom. eauto.
Qed.

Lemma keeps_refl (h : Heap) self c :
  h !! self = Some (CompilerObject c) -> keeps h self c h.
Proof. intros E. split; [exact E|]. intros l o _ L. exact L. Qed.

Lemma keeps_new (h h' : Heap) self c o :
  keeps h self c h' ->
  fresh (dom h') <> self
  /\ h !! fresh (dom h') = None
  /\ keeps h self c (<[fresh (dom h') := o]> h').
Proof.
  intros [Ks Ko].
  assert (fresh (dom h') <> self) as N by (eapply fresh_address; eassumption).
  assert (h !! fresh (dom h') = None) as F.
  { destruct (h !! fresh (dom h')) as [o'|] eqn:E; [|reflexivity].
    destruct (fresh_address h' _ o' (Ko _ _ N E) eq_refl). }
  split; [exact N|]. split; [exact F|]. split.
  - rewrite lookup_insert_ne by exact N. exact Ks.
  - intros l o' Nl L. rewrite lookup_insert_ne by congruence.
    exact (Ko l o' Nl L).
Qed.

Lemma keeps_own (h h' : Heap) self c l o :
  keeps h self c h' -> l <> self -> h !! l = None ->
  keeps h self c (<[l := o]> h').
Proof.
  intros [Ks Ko] N F. split.
  - rewrite lookup_insert_ne by exact N. exact Ks.
  - intros l' o' Nl L. rewrite lookup_insert_ne by congruence.
    exact (Ko l' o' Nl L).
Qed.

Lemma keeps_self (h h' : Heap) self c c' :
  keeps h self c h' -> keeps h self c' (<[self := CompilerObject c']> h').
Proof.
  intros [Ks Ko]. split; [apply lookup_insert_eq|].
  intros l o Nl L. rewrite lookup_insert_ne by congruence. exact (Ko l o Nl L).
Qed.

(** A call of [compile] on the store gives what [compile] gives on the
    instance alone, and leaves the instance as [compile] leaves it and
    every other object that was in the store as it was. *)
Lemma compile_at_run fuel self source c (h : Heap) :
  h !! self = Some (CompilerObject c) ->
  match compile_at H fuel self source h with
  | Return (text, h') =>
      fst (compile H fuel source c) = Return text
      /\ keeps h self (snd (compile H fuel source c)) h'
  | Raise e => fst (compile H fuel source c) = Raise e
  | OutOfFuel => fst (compile H fuel source c) = OutOfFuel
  end.
Proof.
  intros Hs. pose proof (keeps_refl h self c Hs) as K.
  unfold compile_at, compile.
  unfold bind at 1. unfold new at 1. cbv beta zeta.
  destruct (keeps_new h h self c (LexerObject source Lexer_init) K)
    as (N1 & F1 & K1).
  set (l1 := fresh (dom h)) in *.
  unfold bind at 1. unfold tokenize_at at 1.
  rewrite lookup_insert_eq. cbv beta iota zeta.
  change (lx_tokens (scan H source 0 Lexer_init) ++ _)
    with (tokenize H source).
  match goal with
  | |- context [<[l1 := ?o]> (<[l1 := _]> h)] =>
      pose proof (keeps_own h _ self c l1 o K1 N1 F1) as K2
  end.
  match type of K2 with keeps _ _ _ ?x => set (h2 := x) in * end.
  unfold bind at 1. unfold new at 1. cbv beta zeta.
  destruct (keeps_new h h2 self c
              (ParserObject (Parser_init (tokenize H source))) K2)
    as (N2 & F2 & K3).
  set (l2 := fresh (dom h2)) in *.
  unfold bind at 1. unfold parse_at at 1.
  rewrite lookup_insert_eq. cbv beta iota zeta.
  unfold parse.
  destruct (parse_from H fuel (Parser_init (tokenize H source)))
    as [[program p']| |]; cbv beta iota; cbn [fst snd];
    [|reflexivity..].
  match goal with
  | |- context [<[l2 := ?o]> (<[l2 := _]> h2)] =>
      pose proof (keeps_own h _ self c l2 o K3 N2 F2) as K4
  end.
  match type of K4 with keeps _ _ _ ?x => set (h4 := x) in * end.
  unfold bind at 1. unfold set_field at 1.
  rewrite (proj1 K4). cbv beta iota zeta.
  pose proof (keeps_self h h4 self c (set_ast program c) K4) as K5.
  match type of K5 with keeps _ _ _ ?x => set (h5 := x) in * end.
  unfold bind at 1. unfold get_field at 1.
  rewrite (proj1 K5). cbv beta iota zeta. cbn [ast set_ast].
  unfold bind at 1. unfold new at 1. cbv beta zeta.
  destruct (keeps_new h h5 self (set_ast program c)
              (GeneratorObject (Some program) CodeGenerator_init) K5)
    as (N3 & F3 & K6).
  set (l3 := fresh (dom h5)) in *.
  unfold bind at 1. unfold generate_at at 1.
  rewrite lookup_insert_eq. cbv beta iota zeta.
  unfold generate.
  destruct (generate_from H program CodeGenerator_init)
    as [[text g']| |]; cbv beta iota; cbn [fst snd];
    [|reflexivity..].
  match goal with
  | |- context [<[l3 := ?o]> (<[l3 := _]> h5)] =>
      pose proof (keeps_own h _ self _ l3 o K6 N3 F3) as K7
  end.
  match type of K7 with keeps _ _ _ ?x => set (h7 := x) in * end.
  unfold bind at 1. unfold set_field at 1.
  rewrite (proj1 K7). cbv beta iota zeta.
  pose proof (keeps_self h h7 self _
                (set_cpp_code text (set_ast program c)) K7) as K8.
  match type of K8 with keeps _ _ _ ?x => set (h8 := x) in * end.
  unfold get_field. rewrite (proj1 K8). cbn [cpp_code set_cpp_code].
  split; [reflexivity|]. exact K8.
Qed.

(** C10.  Two calls of [compile] on the same text that both finish give
    the same result, the same text or the same exception, whatever the
    store holds when each is called: a fresh instance or one that earlier
    compilations have used, alone or among the lexers, parsers and
    generators earlier calls have left, and whatever the number of loop
    iterations allowed to each.  A call builds its own lexer, parser and
    generator: apart from the instance it is called on, it leaves every
    object that was in the store as it was. *)
Theorem compile_deterministic source fuel fuel' self self' c c'
    (h h' : Heap) :
  h !! self = Some (CompilerObject c) ->
  h' !! self' = Some (CompilerObject c') ->
  terminates (compile_at H fuel self source h) = true ->
  terminates (compile_at H fuel' self' source h') = true ->
  result (compile_at H fuel self source h)
  = result (compile_at H fuel' self' source h')
  /\ forall text h1,
       compile_at H fuel self source h = Return (text, h1) ->
       forall l o, l <> self -> h !! l = Some o -> h1 !! l = Some o.
Proof.
  intros Hs Hs' T T'.
  pose proof (compile_at_run fuel self source c h Hs) as R.
  pose proof (compile_at_run fuel' self' source c' h' Hs') as R'.
  assert (result (compile_at H fuel self source h)
          = fst (compile H fuel source c)) as E.
  { destruct (compile_at H fuel self source h) as [[text h1]| |];
      cbn [result]; [symmetry; exact (proj1 R)|congruence..]. }
  assert (result (compile_at H fuel' self' source h')
          = fst (compile H fuel' source c')) as E'.
  { destruct (compile_at H fuel' self' source h') as [[text h1]| |];
      cbn [result]; [symmetry; exact (proj1 R')|congruence..]. }
  split.
  - rewrite E, E'. apply compile_agree.
    + rewrite <- E.
      destruct (compile_at H fuel self source h) as [[? ?]| |];
        [reflexivity|reflexivity|discriminate T].
    + rewrite <- E'.
      destruct (compile_at H fuel' self' source h') as [[? ?]| |];
        [reflexivity|reflexivity|discriminate T'].
  - intros text h1 C. rewrite C in R. exact (proj2 (proj2 R)).
Qed.


End Driver.

(** ** The scan of the lexer *)

Section Scanning.

Variable H : Host.

Lemma span_len_le p s : span_len p s <= length s.
Proof. induction s as [|c s IH]; cbn; [lia|]. destruct (p c); cbn; lia. Qed.

Lemma find_lit_le stop s k :
  find_lit stop s = Some k -> k + length stop <= length s.
Proof.
  revert k. induction s as [|c s IH]; intros k.
  - cbn. destruct stop; cbn; [intros [= <-]; cbn; lia|discriminate].
  - cbn [find_lit].
    destruct (startswith (c :: s) stop) eqn:E.
    + intros [= <-]. clear IH. revert E. generalize (c :: s). clear.
      induction stop as [|x stop IH]; intros l; cbn; [lia|].
      destruct l as [|y l]; [discriminate|]. cbn.
      intros E. apply andb_prop in E as [_ E]. apply IH in E. lia.
    + destruct (find_lit stop s) as [k'|]; [|discriminate].
      intros [= <-]. specialize (IH _ eq_refl). cbn. lia.
Qed.

Lemma re_match_le re s n : re_match re s = Some n -> n <= length s.
Proof.
  revert s n. induction re as [|a re IH]; intros s n.
  - intros [= <-]. lia.
  - destruct a; cbn [re_match].
    + destruct s as [|c' s]; [discriminate|].
      destruct (c =? c')%N; [|discriminate].
      destruct (re_match re s) as [m|] eqn:E; [|discriminate].
      intros [= <-]. apply IH in E. cbn. lia.
    + destruct s as [|c' s]; [discriminate|].
      destruct (p c'); [|discriminate].
      destruct (re_match re s) as [m|] eqn:E; [|discriminate].
      intros [= <-]. apply IH in E. cbn. lia.
    + pose proof (span_len_le p s) as L.
      destruct (span_len p s) as [|k] eqn:Ek; [discriminate|].
      destruct (re_match re (drop (S k) s)) as [m|] eqn:E; [|discriminate].
      intros [= <-]. apply IH in E. rewrite length_drop in E. lia.
    + pose proof (span_len_le p s) as L.
      destruct (re_match re (drop (span_len p s) s)) as [m|] eqn:E;
        [|discriminate].
      intros [= <-]. apply IH in E. rewrite length_drop in E. lia.
    + destruct (find_lit stop s) as [k|] eqn:F; [|discriminate].
      apply find_lit_le in F.
      destruct (re_match re (drop (k + length stop) s)) as [m|] eqn:E;
        [|discriminate].
      intros [= <-]. apply IH in E. rewrite length_drop in E. lia.
Qed.

Lemma re_match_consuming re s n :
  consuming re = true -> re_match re s = Some n -> 0 < n.
Proof.
  destruct re as [|[c|p|p|p|stop] re]; try discriminate; intros _;
    cbn [re_match].
  - destruct s as [|c' s]; [discriminate|].
    destruct (c =? c')%N; [|discriminate].
    destruct (re_match re s); [|discriminate]. intros [= <-]. lia.
  - destruct s as [|c' s]; [discriminate|].
    destruct (p c'); [|discriminate].
    destruct (re_match re s); [|discriminate]. intros [= <-]. lia.
  - destruct (span_len p s) as [|k]; [discriminate|].
    destruct (re_match re _); [|discriminate]. intros [= <-]. lia.
Qed.

Lemma first_match_some specs s kind n :
  forallb (fun spec => consuming (snd spec)) specs = true ->
  first_match specs s = Some (kind, n) ->
  In kind (fst <$> specs) /\ 0 < n <= length s.
Proof.
  induction specs as [|[name re] specs IH]; [discriminate|].
  cbn [forallb snd first_match]. intros C. apply andb_prop in C as [C1 C2].
  destruct (re_match re s) as [m|] eqn:E.
  - intros [= <- <-]. split; [left; reflexivity|].
    split; [eapply re_match_consuming; eauto|eapply re_match_le; eauto].
  - intros F. destruct (IH C2 F) as [I L]. split; [right; exact I|exact L].
Qed.

Lemma token_specs_consuming :
  forallb (fun spec => consuming (snd spec)) (token_specs H) = true.
Proof. reflexivity. Qed.

Lemma scan_skip a b k lx :
  scan H (a ++ b) (length a + k) lx = scan H b k lx.
Proof. induction a as [|c a IH]; [reflexivity|]. exact IH. Qed.

(** One match of the scan: the lexeme is processed and the scan goes on
    behind it. *)
Lemma scan_match s kind n lx :
  first_match (token_specs H) s = Some (kind, n) ->
  scan H s 0 lx = scan H (drop n s) 0 (lex_step H kind (take n s) lx).
Proof.
  intros F.
  destruct (first_match_some _ _ _ _ token_specs_consuming F) as [_ [P L]].
  destruct s as [|c s]; [cbn in L; lia|].
  cbn [scan]. rewrite F.
  destruct n as [|n]; [lia|]. cbn [drop]. cbn in L.
  replace (S n - 1) with n by lia.
  pose proof (scan_skip (take n s) (drop n s) 0
                (lex_step H kind (take (S n) (c :: s)) lx)) as E.
  rewrite take_drop, length_take, Nat.add_0_r in E.
  replace (n `min` length s) with n in E by lia. exact E.
Qed.

Lemma scan_invariant_match (P : Lexer -> Prop) :
  (forall s kind n lx,
     first_match (token_specs H) s = Some (kind, n) ->
     P lx -> P (lex_step H kind (take n s) lx)) ->
  forall s skip lx, P lx -> P (scan H s skip lx).
Proof.
  intros Step. induction s as [|c s IH]; intros skip lx Plx; [exact Plx|].
  cbn [scan]. destruct skip as [|k]; [|apply IH; exact Plx].
  destruct (first_match (token_specs H) (c :: s)) as [[kind n]|] eqn:F;
    [|apply IH; exact Plx].
  apply IH. apply (Step _ _ _ _ F). exact Plx.
Qed.

(** An invariant of the scan is one of [lex_step] on the lexemes of the
    patterns. *)
Lemma scan_invariant (P : Lexer -> Prop) :
  (forall kind value lx,
     In kind (fst <$> token_specs H) -> value <> [] ->
     P lx -> P (lex_step H kind value lx)) ->
  forall s skip lx, P lx -> P (scan H s skip lx).
Proof.
  intros Step. apply scan_invariant_match. intros s kind n lx F.
  destruct (first_match_some _ _ _ _ token_specs_consuming F) as [I [P0 L]].
  apply Step; [exact I|]. destruct s; [cbn in L; lia|].
  destruct n; [lia|]. discriminate.
Qed.

(** *** What the token list never holds *)

Lemma keyword_kinds_visible :
  forallb (fun kind => negb (kind_in kind ("EOF" :: skipped_kinds)))
    (snd <$> KEYWORDS) = true.
Proof. vm_compute. reflexivity. Qed.

Lemma pattern_kinds_not_eof :
  forallb (fun kind => negb (String.eqb kind "EOF")) (fst <$> token_specs H)
  = true.
Proof. vm_compute. reflexivity. Qed.

Lemma lex_step_visible kind value lx :
  In kind (fst <$> token_specs H) ->
  Forall (fun t => kind_in (tk_type t) ("EOF" :: skipped_kinds) = false)
    (lx_tokens lx) ->
  Forall (fun t => kind_in (tk_type t) ("EOF" :: skipped_kinds) = false)
    (lx_tokens (lex_step H kind value lx)).
Proof.
  intros I F. unfold lex_step.
  destruct (String.eqb kind "NEWLINE") eqn:E1; [exact F|].
  destruct (String.eqb kind "WHITESPACE") eqn:E2; [exact F|].
  destruct (String.eqb kind "COMMENT") eqn:E3; [exact F|].
  destruct (String.eqb kind "ML_COMMENT") eqn:E4; [exact F|].
  cbn [orb].
  assert (kind_in kind ("EOF" :: skipped_kinds) = false) as V.
  { pose proof pattern_kinds_not_eof as N.
    rewrite forallb_forall in N. specialize (N _ I).
    apply negb_true_iff in N.
    unfold kind_in, skipped_kinds. cbn [existsb].
    rewrite N, E1, E2, E3, E4. reflexivity. }
  assert (forall k, dict_get KEYWORDS value = Some k ->
            kind_in k ("EOF" :: skipped_kinds) = false) as K.
  { intros k D. apply dict_get_in in D.
    pose proof keyword_kinds_visible as N.
    rewrite forallb_forall in N. specialize (N _ D).
    apply negb_true_iff in N. exact N. }
  destruct (String.eqb kind "ID").
  - destruct (dict_get KEYWORDS value) as [k|] eqn:D; cbn [lx_tokens];
      apply Forall_app; (split; [exact F|]); constructor;
      try constructor; cbn [tk_type]; [apply K; reflexivity|exact V].
  - repeat match goal with
           | |- context [if ?b then _ else _] => destruct b
           end;
      cbn [lx_tokens]; apply Forall_app; (split; [exact F|]);
      constructor; try constructor; exact V.
Qed.

Lemma scan_visible code :
  Forall (fun t => kind_in (tk_type t) ("EOF" :: skipped_kinds) = false)
    (lx_tokens (scan H code 0
                  {| lx_line := 1; lx_column := 1; lx_tokens := [] |})).
Proof.
  apply (scan_invariant
           (fun lx => Forall (fun t => kind_in (tk_type t)
                                         ("EOF" :: skipped_kinds) = false)
                        (lx_tokens lx))).
  - intros kind value lx I _. apply lex_step_visible. exact I.
  - constructor.
Qed.

(** X1.  The token list ends with the one end marker, and no token before
    it has the kind of the end marker, of whitespace, of a line feed or of a
    comment. *)
Theorem tokenize_visible_kinds code :
  exists toks line column,
    tokenize H code = toks ++ [eof_token line column]
    /\ Forall (fun t => kind_in (tk_type t) ("EOF" :: skipped_kinds) = false)
         toks.
Proof.
  unfold tokenize. eexists _, _, _. split; [reflexivity|].
  apply scan_visible.
Qed.

Lemma eof_last_tokenize code : eof_last (tokenize H code) = true.
Proof.
  unfold eof_last, tokenize. rewrite length_app. cbn [length].
  replace (length _ + 1 - 1) with
    (length (lx_tokens (scan H code 0
               {| lx_line := 1; lx_column := 1; lx_tokens := [] |}))) by lia.
  rewrite take_app_length. apply forallb_forall. intros t I.
  pose proof (scan_visible code) as V. rewrite Forall_forall in V.
  apply list_elem_of_In in I. specialize (V t I).
  unfold kind_in in V. cbn [existsb] in V.
  apply orb_false_elim in V as [V _]. rewrite V. reflexivity.
Qed.

(** *** Shadowed patterns *)

(** A pattern matches where a longer pattern that starts with it does. *)
Lemma re_match_prefix a b s n :
  re_match (a ++ b) s = Some n -> exists m, re_match a s = Some m.
Proof.
  revert s n. induction a as [|x a IH]; intros s n; [eexists; reflexivity|].
  cbn [app]. destruct x; cbn [re_match].
  - destruct s as [|c' s]; [discriminate|].
    destruct (c =? c')%N; [|discriminate].
    destruct (re_match (a ++ b) s) as [k|] eqn:E; [|discriminate].
    intros _. destruct (IH _ _ E) as [m ->]. eexists. reflexivity.
  - destruct s as [|c' s]; [discriminate|].
    destruct (p c'); [|discriminate].
    destruct (re_match (a ++ b) s) as [k|] eqn:E; [|discriminate].
    intros _. destruct (IH _ _ E) as [m ->]. eexists. reflexivity.
  - destruct (span_len p s) as [|j]; [discriminate|].
    destruct (re_match (a ++ b) _) as [k|] eqn:E; [|discriminate].
    intros _. destruct (IH _ _ E) as [m ->]. eexists. reflexivity.
  - destruct (re_match (a ++ b) _) as [k|] eqn:E; [|discriminate].
    intros _. destruct (IH _ _ E) as [m ->]. eexists. reflexivity.
  - destruct (find_lit stop s) as [j|]; [|discriminate].
    destruct (re_match (a ++ b) _) as [k|] eqn:E; [|discriminate].
    intros _. destruct (IH _ _ E) as [m ->]. eexists. reflexivity.
Qed.

Lemma shadowed_by_prefix a b s n :
  re_match (a ++ b) s = Some n -> re_match a s = None -> False.
Proof.
  intros E N. destruct (re_match_prefix _ _ _ _ E) as [m M]. congruence.
Qed.

(** A text that starts with the digit [0] starts with an integer. *)
Lemma shadowed_by_integer re s n :
  re_match (Lit 48%N :: re) s = Some n ->
  re_match [Plus (is_decimal H)] s = None -> False.
Proof.
  cbn [re_match]. destruct s as [|c s]; [discriminate|].
  destruct (N.eqb_spec 48 c) as [<-|]; [|discriminate].
  intros _. cbn [span_len].
  change (is_decimal H 48) with true. cbv iota. discriminate.
Qed.

(** No shadowed pattern is ever the first to match. *)
Lemma first_match_live s kind n :
  first_match (token_specs H) s = Some (kind, n) ->
  kind_in kind shadowed_kinds = false.
Proof.
  unfold token_specs. cbn [first_match].
  repeat match goal with
         | |- context [match re_match ?re s with _ => _ end] =>
             let E := fresh "E" in destruct (re_match re s) eqn:E
         end;
    try discriminate; intros [= <- _]; try reflexivity; exfalso;
    match goal with
    | E : re_match (lit "0x" ++ _) s = Some _,
      N : re_match [Plus (is_decimal H)] s = None |- _ =>
        exact (shadowed_by_integer _ _ _ E N)
    | E : re_match (lit "0b" ++ _) s = Some _,
      N : re_match [Plus (is_decimal H)] s = None |- _ =>
        exact (shadowed_by_integer _ _ _ E N)
    | E : re_match (lit "**") s = Some _,
      N : re_match (lit "*") s = None |- _ =>
        exact (shadowed_by_prefix (lit "*") (lit "*") _ _ E N)
    | E : re_match (lit "==") s = Some _,
      N : re_match (lit "=") s = None |- _ =>
        exact (shadowed_by_prefix (lit "=") (lit "=") _ _ E N)
    | E : re_match (lit "<=") s = Some _,
      N : re_match (lit "<") s = None |- _ =>
        exact (shadowed_by_prefix (lit "<") (lit "=") _ _ E N)
    | E : re_match (lit ">=") s = Some _,
      N : re_match (lit ">") s = None |- _ =>
        exact (shadowed_by_prefix (lit ">") (lit "=") _ _ E N)
    | E : re_match (lit "->") s = Some _,
      N : re_match (lit "-") s = None |- _ =>
        exact (shadowed_by_prefix (lit "-") (lit ">") _ _ E N)
    end.
Qed.

Lemma lex_step_shadowed s kind n lx :
  first_match (token_specs H) s = Some (kind, n) ->
  Forall (fun t => kind_in (tk_type t) shadowed_kinds = true ->
            exists word, tk_value t = VStr word
              /\ dict_get KEYWORDS word = Some (tk_type t)) (lx_tokens lx) ->
  Forall (fun t => kind_in (tk_type t) shadowed_kinds = true ->
            exists word, tk_value t = VStr word
              /\ dict_get KEYWORDS word = Some (tk_type t))
    (lx_tokens (lex_step H kind (take n s) lx)).
Proof.
  intros M F. apply first_match_live in M. unfold lex_step.
  destruct (String.eqb kind "NEWLINE"); [exact F|].
  destruct (String.eqb kind "WHITESPACE"); [exact F|].
  destruct (String.eqb kind "COMMENT" || String.eqb kind "ML_COMMENT");
    [exact F|].
  destruct (String.eqb kind "ID").
  - destruct (dict_get KEYWORDS (take n s)) as [k|] eqn:D; cbn [lx_tokens];
      apply Forall_app; (split; [exact F|]); constructor;
      try constructor; cbn [tk_type tk_value].
    + intros _. eexists. split; [reflexivity|exact D].
    + rewrite M. discriminate.
  - repeat match goal with
           | |- context [if ?b then _ else _] => destruct b
           end;
      cbn [lx_tokens]; apply Forall_app; (split; [exact F|]);
      constructor; try constructor; cbn [tk_type]; rewrite M; discriminate.
Qed.

(** X2.  The patterns of hexadecimal and binary literals and of the
    operators [==], [<=], [>=], [**] and [->] never make a token, whatever
    the text: a token of one of their kinds is a keyword of the table (there
    are keywords of kind [EQ], [LTE] and [GTE], and none of the other
    four). *)
Theorem tokenize_shadowed_patterns code :
  Forall (fun t => kind_in (tk_type t) shadowed_kinds = true ->
            exists word, tk_value t = VStr word
              /\ dict_get KEYWORDS word = Some (tk_type t))
    (tokenize H code)
  /\ Forall (fun t => kind_in (tk_type t) ["HEX"; "BINARY"; "POWER"; "ARROW"]
                      = false)
       (tokenize H code).
Proof.
  assert (Forall (fun t => kind_in (tk_type t) shadowed_kinds = true ->
            exists word, tk_value t = VStr word
              /\ dict_get KEYWORDS word = Some (tk_type t))
           (tokenize H code)) as F.
  { unfold tokenize. apply Forall_app. split.
    - apply (scan_invariant_match
               (fun lx => Forall (fun t =>
                            kind_in (tk_type t) shadowed_kinds = true ->
                            exists word, tk_value t = VStr word
                              /\ dict_get KEYWORDS word = Some (tk_type t))
                            (lx_tokens lx))).
      + intros s kind n lx. apply lex_step_shadowed.
      + constructor.
    - constructor; [|constructor]. cbn [tk_type]. discriminate. }
  split; [exact F|].
  eapply Forall_impl; [exact F|]. cbn beta. intros t K.
  destruct (kind_in (tk_type t) ["HEX"; "BINARY"; "POWER"; "ARROW"]) eqn:D;
    [|reflexivity].
  exfalso.
  assert (kind_in (tk_type t) shadowed_kinds = true) as S.
  { unfold kind_in, shadowed_kinds in *. cbn [existsb] in *.
    repeat match type of D with
           | (_ || _)%bool = true => apply orb_prop in D as [D|D]
           end;
      rewrite ?D, ?orb_true_r; try reflexivity; discriminate D. }
  destruct (K S) as (word & _ & G). apply dict_get_in in G.
  assert (forallb (fun k => negb (kind_in k ["HEX"; "BINARY"; "POWER";
                                            "ARROW"]))
            (snd <$> KEYWORDS) = true) as N by (vm_compute; reflexivity).
  rewrite forallb_forall in N. specialize (N _ G). rewrite D in N.
  discriminate N.
Qed.

(** *** Positions *)

Lemma precedes_lt_pos a b :
  precedes a b = true
  <-> lt_pos (tk_line a) (tk_column a) (tk_line b) (tk_column b).
Proof.
  unfold precedes, lt_pos.
  rewrite orb_true_iff, andb_true_iff, !N.ltb_lt, N.eqb_eq. reflexivity.
Qed.

Lemma positions_ok_move lx line column :
  positions_ok lx ->
  (lx_line lx < line /\ 1 <= column
   \/ lx_line lx = line /\ lx_column lx <= column)%N ->
  positions_ok {| lx_line := line; lx_column := column;
                  lx_tokens := lx_tokens lx |}.
Proof.
  intros (S & F & L & C) M. split; [exact S|].
  cbn [lx_line lx_column lx_tokens].
  split; [|lia].
  eapply Forall_impl; [exact F|]. cbn beta. unfold lt_pos. intros t. lia.
Qed.

Lemma sorted_snoc {A} (R : A -> A -> Prop) l x :
  StronglySorted R l -> Forall (fun y => R y x) l ->
  StronglySorted R (l ++ [x]).
Proof.
  induction 1 as [|y l S IH F]; intros Fx.
  - repeat constructor.
  - cbn [app]. apply Forall_cons in Fx as [Ryx Fx]. constructor.
    + apply IH. exact Fx.
    + apply Forall_app. split; [exact F|]. constructor; [exact Ryx|constructor].
Qed.

Lemma positions_ok_token lx kind v n :
  positions_ok lx -> (1 <= n)%N ->
  positions_ok {| lx_line := lx_line lx; lx_column := (lx_column lx + n)%N;
                  lx_tokens := lx_tokens lx ++
                    [{| tk_type := kind; tk_value := v;
                        tk_line := lx_line lx; tk_column := lx_column lx |}] |}.
Proof.
  intros (S & F & L & C) Hn. split; [|split]; cbn [lx_line lx_column lx_tokens].
  - apply sorted_snoc; [exact S|].
    eapply Forall_impl; [exact F|]. cbn beta. intros t (P & _).
    apply precedes_lt_pos. exact P.
  - apply Forall_app. split.
    + eapply Forall_impl; [exact F|]. cbn beta. unfold lt_pos. intros t. lia.
    + constructor; [|constructor]. cbn [tk_line tk_column]. unfold lt_pos. lia.
  - lia.
Qed.

Lemma len_pos (value : pystr) : value <> [] -> (1 <= len value)%N.
Proof. destruct value; [congruence|]. intros _. unfold len. cbn. lia. Qed.

Lemma lex_step_positions kind value lx :
  value <> [] -> positions_ok lx -> positions_ok (lex_step H kind value lx).
Proof.
  intros V P. apply len_pos in V. unfold lex_step.
  destruct (String.eqb kind "NEWLINE");
    [apply positions_ok_move; [exact P|lia]|].
  destruct (String.eqb kind "WHITESPACE");
    [apply positions_ok_move; [exact P|lia]|].
  destruct (String.eqb kind "COMMENT" || String.eqb kind "ML_COMMENT").
  { apply positions_ok_move; [exact P|].
    destruct (count_char 10 value); lia. }
  match goal with
  | |- context [let '(k, v) := ?e in _] => destruct e as [k v]
  end.
  apply positions_ok_token; assumption.
Qed.

(** X3.  The positions of the tokens, end marker included, increase
    strictly in the order of the list, by line and then by column, and every
    line and column number is at least 1. *)
Theorem tokenize_positions_increase code :
  StronglySorted (fun a b => precedes a b = true) (tokenize H code)
  /\ Forall (fun t => (1 <= tk_line t)%N /\ (1 <= tk_column t)%N)
       (tokenize H code).
Proof.
  unfold tokenize.
  assert (positions_ok
            (scan H code 0 {| lx_line := 1; lx_column := 1; lx_tokens := [] |}))
    as (S & F & L & C).
  { apply scan_invariant.
    - intros kind value lx _. apply lex_step_positions.
    - split; [constructor|]. split; [constructor|]. cbn. lia. }
  split.
  - apply sorted_snoc; [exact S|].
    eapply Forall_impl; [exact F|]. cbn beta. intros t (P & _).
    apply precedes_lt_pos. exact P.
  - apply Forall_app. split.
    + eapply Forall_impl; [exact F|]. cbn beta. tauto.
    + constructor; [|constructor]. cbn [tk_line tk_column]. lia.
Qed.

(** *** Keywords *)

(** X4.  Every word of the keyword table, taken as a program text, lexes to
    a single token of the kind the table gives it, with the word as its
    value. *)
Theorem keywords_lex :
  Forall (fun kv => tokenize H (fst kv)
                    = single_token (snd kv) (VStr (fst kv)) (fst kv)) KEYWORDS.
Proof.
  assert (forallb (fun kv => bool_decide
                     (tokenize H (fst kv)
                      = single_token (snd kv) (VStr (fst kv)) (fst kv)))
            KEYWORDS = true) as F by (vm_compute; reflexivity).
  rewrite forallb_forall in F. apply Forall_forall. intros kv I.
  apply list_elem_of_In in I. exact (proj1 (bool_decide_eq_true _) (F kv I)).
Qed.

(** *** Integer literals *)

Lemma ascii_digit_cases c :
  ascii_digit c = true ->
  In c [48; 49; 50; 51; 52; 53; 54; 55; 56; 57]%N.
Proof.
  unfold ascii_digit, in_range. rewrite andb_true_iff, !N.leb_le.
  intros [L U]. cbn [In]. lia.
Qed.

Lemma ascii_digit_decimal c : ascii_digit c = true -> is_decimal H c = true.
Proof.
  intros D. apply ascii_digit_cases in D. cbn [In] in D.
  repeat (destruct D as [<-|D]; [reflexivity|]). destruct D.
Qed.

Lemma span_len_all p ds rest :
  Forall (fun c => p c = true) ds ->
  match rest with c :: _ => p c = false | [] => True end ->
  span_len p (ds ++ rest) = length ds.
Proof.
  intros F R. induction F as [|c ds Pc _ IH]; cbn [app span_len length].
  - destruct rest as [|c rest]; [reflexivity|]. cbn. rewrite R. reflexivity.
  - rewrite Pc, IH. reflexivity.
Qed.

Lemma first_match_skip name re specs s :
  re_match re s = None ->
  first_match ((name, re) :: specs) s = first_match specs s.
Proof. intros E. cbn [first_match]. rewrite E. reflexivity. Qed.

(** A run of ASCII digits that is followed neither by a digit nor by a dot
    is matched as one integer. *)
Lemma first_match_digits ds rest :
  ds <> [] -> Forall (fun c => ascii_digit c = true) ds ->
  match rest with
  | c :: _ => is_decimal H c = false /\ c <> 46%N
  | [] => True
  end ->
  first_match (token_specs H) (ds ++ rest) = Some ("INTEGER", length ds).
Proof.
  intros N F R.
  assert (span_len (is_decimal H) (ds ++ rest) = length ds) as Sp.
  { apply span_len_all.
    - eapply Forall_impl; [exact F|]. exact ascii_digit_decimal.
    - destruct rest; [exact I|]. apply R. }
  destruct ds as [|d ds]; [congruence|].
  unfold token_specs.
  assert (In d [48; 49; 50; 51; 52; 53; 54; 55; 56; 57]%N) as D
    by (apply ascii_digit_cases; inversion F; assumption).
  rewrite 4 first_match_skip;
    [|cbn [In] in D;
      repeat (destruct D as [<-|D]; [vm_compute; reflexivity|]);
      destruct D ..].
  cbn [first_match]. cbn [re_match]. rewrite Sp.
  rewrite !drop_app_length.
  cbn [length fmap option_fmap option_map Nat.add].
  rewrite ?Nat.add_0_r.
  destruct rest as [|c rest]; [reflexivity|].
  destruct R as [_ R]. destruct (N.eqb_spec 46 c); [congruence|reflexivity].
Qed.

Lemma lex_step_integer ds lx :
  lex_step H "INTEGER" ds lx =
    {| lx_line := lx_line lx; lx_column := (lx_column lx + len ds)%N;
       lx_tokens := lx_tokens lx ++
         [{| tk_type := "INTEGER"; tk_value := VInt (int_of H 10 ds);
             tk_line := lx_line lx; tk_column := lx_column lx |}] |}.
Proof. reflexivity. Qed.

Lemma scan_digits ds rest lx :
  ds <> [] -> Forall (fun c => ascii_digit c = true) ds ->
  match rest with
  | c :: _ => is_decimal H c = false /\ c <> 46%N
  | [] => True
  end ->
  scan H (ds ++ rest) 0 lx =
    scan H rest 0
      {| lx_line := lx_line lx; lx_column := (lx_column lx + len ds)%N;
         lx_tokens := lx_tokens lx ++
           [{| tk_type := "INTEGER"; tk_value := VInt (int_of H 10 ds);
               tk_line := lx_line lx; tk_column := lx_column lx |}] |}.
Proof.
  intros N F R.
  rewrite (scan_match _ _ _ _ (first_match_digits ds rest N F R)).
  rewrite drop_app_length, take_app_length. rewrite lex_step_integer.
  reflexivity.
Qed.

Lemma uint_digits_digit d :
  Forall (fun c => ascii_digit c = true) (uint_digits d).
Proof. induction d; constructor; (reflexivity || assumption). Qed.

Lemma str_of_N_nonempty n : str_of_N n <> [].
Proof.
  unfold str_of_N. destruct n as [|p]; [discriminate|]. cbn [N.to_uint].
  pose proof (DecimalPos.Unsigned.to_uint_nonnil p) as Nn.
  destruct (Pos.to_uint p); [congruence|discriminate..].
Qed.

Lemma int_of_acc d acc :
  foldl (fun a c => (a * 10 + digit_of H c)%Z) (Zpos acc) (uint_digits d)
  = Zpos (Pos.of_uint_acc d acc).
Proof.
  revert acc. induction d; intros acc; cbn [uint_digits foldl Pos.of_uint_acc];
    [reflexivity|..];
    match goal with
    | |- foldl _ ?z _ = _ =>
        match z with
        | (_ + digit_of H ?c)%Z =>
            change (digit_of H c) with (Z.of_N (c - 48))
        end
    end;
    rewrite <- IHd; f_equal; lia.
Qed.

(** [int(str(n))] is [n]. *)
Lemma int_of_uint d : int_of H 10 (uint_digits d) = Z.of_N (Pos.of_uint d).
Proof.
  unfold int_of. induction d; cbn [uint_digits foldl Pos.of_uint];
    [reflexivity|exact IHd|..]; apply int_of_acc.
Qed.

Lemma int_of_str_of_N n : int_of H 10 (str_of_N n) = Z.of_N n.
Proof.
  unfold str_of_N. rewrite int_of_uint.
  change (Pos.of_uint (N.to_uint n)) with (N.of_uint (N.to_uint n)).
  rewrite DecimalN.Unsigned.of_to. reflexivity.
Qed.

Lemma str_of_Z_of_N n : str_of_Z (Z.of_N n) = str_of_N n.
Proof. destruct n; reflexivity. Qed.

(** X5.  The decimal text of a natural number lexes to a single integer
    token whose value is that number. *)
Theorem tokenize_integer n :
  tokenize H (str_of_N n)
  = single_token "INTEGER" (VInt (Z.of_N n)) (str_of_N n).
Proof.
  unfold tokenize.
  rewrite <- (app_nil_r (str_of_N n)) at 1 2 3.
  rewrite scan_digits;
    [|apply str_of_N_nonempty|apply uint_digits_digit|exact I].
  cbn [scan lx_tokens lx_line lx_column app].
  rewrite int_of_str_of_N. reflexivity.
Qed.

(** *** String literals *)

Lemma first_match_string s rest :
  ~ In 34%N s ->
  first_match (token_specs H) (quote ++ s ++ quote ++ rest)
  = Some ("STRING", length (quote ++ s ++ quote)).
Proof.
  intros Q. unfold token_specs, quote. cbn [app].
  rewrite 8 first_match_skip by (vm_compute; reflexivity).
  cbn [first_match]. cbn [re_match].
  destruct (N.eqb_spec 34 34) as [_|Ne]; [|congruence].
  assert (span_len (none_of [34%N]) (s ++ 34%N :: rest) = length s) as Sp.
  { apply span_len_all; [|reflexivity].
    apply Forall_forall. intros c Ic. unfold none_of.
    apply negb_true_iff, bool_decide_eq_false. intros Ec.
    apply list_elem_of_singleton in Ec. subst c. apply Q.
    apply list_elem_of_In. exact Ic. }
  rewrite Sp, drop_app_length. change (34 =? 34)%N with true.
  cbn [fmap option_fmap option_map length]. rewrite length_app.
  cbn [length]. do 2 f_equal.
Qed.

Lemma strip_ends_quoted s : strip_ends (quote ++ s ++ quote) = s.
Proof.
  unfold strip_ends, quote. cbn [app drop length].
  rewrite length_app. cbn [length].
  replace (S (length s + 1) - 2) with (length s) by lia.
  apply take_app_length.
Qed.

(** X6.  A string literal lexes to one token that holds the text between
    the quotes unchanged.  The line counter does not move, whatever the text
    holds: the end marker is on line 1. *)
Theorem tokenize_string_literal s :
  ~ In 34%N s ->
  tokenize H (quote ++ s ++ quote)
  = single_token "STRING" (VStr s) (quote ++ s ++ quote).
Proof.
  intros Q. unfold tokenize.
  pose proof (first_match_string s [] Q) as F.
  rewrite app_nil_r in F.
  rewrite (scan_match _ _ _ _ F).
  rewrite drop_all, firstn_all.
  cbn [scan].
  change (lex_step H "STRING" (quote ++ s ++ quote)
            {| lx_line := 1; lx_column := 1; lx_tokens := [] |})
    with {| lx_line := 1; lx_column := (1 + len (quote ++ s ++ quote))%N;
            lx_tokens := [{| tk_type := "STRING";
                             tk_value :=
                               VStr (strip_ends (quote ++ s ++ quote));
                             tk_line := 1; tk_column := 1 |}] |}.
  cbn [lx_tokens lx_line lx_column app]. rewrite strip_ends_quoted.
  reflexivity.
Qed.

Lemma scan_string s rest lx :
  ~ In 34%N s ->
  scan H (quote ++ s ++ quote ++ rest) 0 lx =
    scan H rest 0
      {| lx_line := lx_line lx;
         lx_column := (lx_column lx + len (quote ++ s ++ quote))%N;
         lx_tokens := lx_tokens lx ++
           [{| tk_type := "STRING"; tk_value := VStr s;
               tk_line := lx_line lx; tk_column := lx_column lx |}] |}.
Proof.
  intros Q. rewrite (scan_match _ _ _ lx (first_match_string s rest Q)).
  assert (quote ++ s ++ quote ++ rest = (quote ++ s ++ quote) ++ rest) as ->
    by (rewrite <- !app_assoc; reflexivity).
  rewrite drop_app_length, take_app_length.
  change (lex_step H "STRING" (quote ++ s ++ quote) lx)
    with {| lx_line := lx_line lx;
            lx_column := (lx_column lx + len (quote ++ s ++ quote))%N;
            lx_tokens := lx_tokens lx ++
              [{| tk_type := "STRING";
                  tk_value := VStr (strip_ends (quote ++ s ++ quote));
                  tk_line := lx_line lx; tk_column := lx_column lx |}] |}.
  rewrite strip_ends_quoted. reflexivity.
Qed.

(** *** Blank texts and comments *)

Lemma scan_white s skip lx :
  Forall (fun c => white c = true) s ->
  lx_tokens (scan H s skip lx) = lx_tokens lx.
Proof.
  intros W. revert skip lx.
  induction W as [|c s Wc _ IH]; intros skip lx; [reflexivity|].
  cbn [scan]. destruct skip as [|k]; [|apply IH].
  assert (exists kind n,
            first_match (token_specs H) (c :: s) = Some (kind, n)
            /\ In kind ["WHITESPACE"; "NEWLINE"]) as (kind & n & F & K).
  { unfold white, blank in Wc. rewrite !orb_true_iff, !N.eqb_eq in Wc.
    destruct Wc as [[-> | ->] | ->]; eexists _, _;
      (split; [cbn; reflexivity|]); cbn; tauto. }
  rewrite F, IH. cbn [In] in K.
  destruct K as [<-|[<-|[]]]; reflexivity.
Qed.

Lemma tokenize_white s :
  Forall (fun c => white c = true) s ->
  exists line column, tokenize H s = [eof_token line column].
Proof.
  intros W. unfold tokenize. rewrite scan_white by exact W.
  eexists _, _. reflexivity.
Qed.

Lemma lex_step_shift d kind value lx :
  lex_step H kind value (shift_lexer d lx)
  = shift_lexer d (lex_step H kind value lx).
Proof.
  unfold lex_step, shift_lexer. cbn [lx_line lx_column lx_tokens].
  destruct (String.eqb kind "NEWLINE");
    [cbn [lx_line lx_column lx_tokens]; f_equal; lia|].
  destruct (String.eqb kind "WHITESPACE"); [reflexivity|].
  destruct (String.eqb kind "COMMENT" || String.eqb kind "ML_COMMENT");
    [cbn [lx_line lx_column lx_tokens]; f_equal; lia|].
  match goal with
  | |- context [let '(k, v) := ?e in _] => destruct e as [k v]
  end.
  cbn [lx_line lx_column lx_tokens]. rewrite fmap_app. reflexivity.
Qed.

Lemma scan_shift d s skip lx :
  scan H s skip (shift_lexer d lx) = shift_lexer d (scan H s skip lx).
Proof.
  revert skip lx. induction s as [|c s IH]; intros skip lx; [reflexivity|].
  cbn [scan]. destruct skip as [|k]; [|apply IH].
  destruct (first_match (token_specs H) (c :: s)) as [[kind n]|];
    [|apply IH].
  rewrite lex_step_shift. apply IH.
Qed.

Lemma count_char_none c s : ~ In c s -> count_char c s = 0.
Proof.
  intros N. unfold count_char. induction s as [|x s IH]; [reflexivity|].
  rewrite filter_cons. destruct (decide (x = c)) as [->|_].
  - exfalso. apply N. left. reflexivity.
  - apply IH. intros I'. apply N. right. exact I'.
Qed.

(** X7.  A comment line in front of a text changes nothing but the line
    numbers of the tokens, which grow by one. *)
Theorem tokenize_comment_line body rest :
  ~ In 10%N body ->
  tokenize H (py "//" ++ body ++ [10%N] ++ rest)
  = shift_line 1 <$> tokenize H rest.
Proof.
  intros N. unfold tokenize.
  set (lx0 := {| lx_line := 1; lx_column := 1; lx_tokens := [] |}).
  assert (scan H (py "//" ++ body ++ [10%N] ++ rest) 0 lx0
          = shift_lexer 1 (scan H rest 0 lx0)) as ->.
  { rewrite <- scan_shift.
    assert (first_match (token_specs H) (py "//" ++ body ++ [10%N] ++ rest)
            = Some ("COMMENT", length (py "//" ++ body))) as F.
    { unfold token_specs. change (py "//") with [47%N; 47%N]. cbn [app].
      rewrite 2 first_match_skip by (vm_compute; reflexivity).
      cbn [first_match]. change (lit "//") with [Lit 47%N; Lit 47%N].
      cbn [app re_match]. change (47 =? 47)%N with true. cbv iota.
      rewrite (span_len_all (none_of [10%N]) body (10%N :: rest));
        [|apply Forall_forall; intros ch Ic; unfold none_of;
          apply negb_true_iff, bool_decide_eq_false; intros Ec;
          apply list_elem_of_singleton in Ec; subst ch; apply N;
          apply list_elem_of_In; exact Ic
         |reflexivity].
      cbn [fmap option_fmap option_map length]. rewrite Nat.add_0_r.
      reflexivity. }
    rewrite (scan_match _ _ _ lx0 F).
    rewrite (app_assoc (py "//") body), drop_app_length, take_app_length.
    assert (lex_step H "COMMENT" (py "//" ++ body) lx0
            = {| lx_line := 1; lx_column := 1 + len (py "//" ++ body);
                 lx_tokens := [] |}) as ->.
    { unfold lex_step. cbn [String.eqb Ascii.eqb Bool.eqb orb].
      rewrite count_char_none; [reflexivity|].
      intros [E|[E|I']]; [discriminate E..|exact (N I')]. }
    cbn [app].
    assert (first_match (token_specs H) (10%N :: rest) = Some ("NEWLINE", 1))
      as F' by (vm_compute; reflexivity).
    rewrite (scan_match _ _ _ _ F'). reflexivity. }
  cbn [shift_lexer lx_tokens lx_line lx_column]. rewrite fmap_app.
  reflexivity.
Qed.

(** *** Spaces and pin prefixes in front of digits *)

Lemma ascii_digit_not_blank d : ascii_digit d = true -> blank d = false.
Proof.
  intros D. apply ascii_digit_cases in D. cbn [In] in D.
  repeat (destruct D as [<-|D]; [reflexivity|]). destruct D.
Qed.

(** A space in front of a character that is not blank. *)
Lemma scan_space c s lx :
  blank c = false ->
  scan H (32%N :: c :: s) 0 lx
  = scan H (c :: s) 0
      {| lx_line := lx_line lx; lx_column := (lx_column lx + 1)%N;
         lx_tokens := lx_tokens lx |}.
Proof.
  intros B.
  assert (first_match (token_specs H) (32%N :: c :: s)
          = Some ("WHITESPACE", 1)) as F.
  { unfold token_specs. cbn [first_match re_match span_len].
    change (blank 32) with true. cbv iota. rewrite B. reflexivity. }
  rewrite (scan_match _ _ _ lx F). reflexivity.
Qed.

Lemma scan_space_digits ds rest lx :
  ds <> [] -> Forall (fun c => ascii_digit c = true) ds ->
  scan H (32%N :: ds ++ rest) 0 lx
  = scan H (ds ++ rest) 0
      {| lx_line := lx_line lx; lx_column := (lx_column lx + 1)%N;
         lx_tokens := lx_tokens lx |}.
Proof.
  intros N F. destruct ds as [|d ds]; [congruence|]. cbn [app].
  apply scan_space. apply ascii_digit_not_blank. inversion F; assumption.
Qed.

(** The letter [D] in front of a run of ASCII digits is a pin with its
    prefix. *)
Lemma scan_pin_prefix ds rest lx :
  ds <> [] -> Forall (fun c => ascii_digit c = true) ds ->
  match rest with
  | c :: _ => is_decimal H c = false
  | [] => True
  end ->
  scan H (68%N :: ds ++ rest) 0 lx =
    scan H rest 0
      {| lx_line := lx_line lx;
         lx_column := (lx_column lx + len (68%N :: ds))%N;
         lx_tokens := lx_tokens lx ++
           [{| tk_type := "PIN_PREFIX"; tk_value := VStr (68%N :: ds);
               tk_line := lx_line lx; tk_column := lx_column lx |}] |}.
Proof.
  intros N F R.
  assert (first_match (token_specs H) (68%N :: ds ++ rest)
          = Some ("PIN_PREFIX", length (68%N :: ds))) as M.
  { unfold token_specs.
    rewrite 37 first_match_skip by (vm_compute; reflexivity).
    cbn [first_match re_match].
    replace (one_of "DA" 68) with true by (vm_compute; reflexivity).
    rewrite (span_len_all (is_decimal H) ds rest);
      [|eapply Forall_impl; [exact F|]; apply ascii_digit_decimal
       |destruct rest; [exact I|exact R]].
    destruct ds as [|d ds]; [congruence|].
    cbn [length fmap option_fmap option_map]. rewrite ?Nat.add_0_r.
    reflexivity. }
  rewrite (scan_match _ _ _ lx M).
  change (68%N :: ds ++ rest) with ((68%N :: ds) ++ rest).
  rewrite drop_app_length, take_app_length. reflexivity.
Qed.

End Scanning.

(** ** A program logic for the parser *)

Section ParserLogic.

Variable H : Host.
Variable T : Prop.
Variable toks : list Token.
Variable lo : nat.

(** The rules of the triples [triple T P m Q] over the parsers of a fixed
    token list [toks].  With [T := False] a triple says that the run does
    not run out of fuel; with [T := True] it says what holds when the run
    returns.  The state [St toks lo n c] bounds the tokens still to consume
    by [n], so that a loop entered with at most as much left as it has fuel
    terminates: each iteration that goes on consumes a token. *)
Lemma triple_ret {A} (P : Parser -> Prop) (a : A) :
  triple T P (ret a) (fun _ => P).
Proof. intros p Pp. exact Pp. Qed.

Lemma triple_raise {A} (P : Parser -> Prop) e (Q : A -> Parser -> Prop) :
  triple T P (raise e) Q.
Proof. intros p _. exact I. Qed.

Lemma triple_bind {A B} (P : Parser -> Prop) (m : PM A) Q (k : A -> PM B) R :
  triple T P m Q -> (forall a, triple T (Q a) (k a) R) ->
  triple T P (bind m k) R.
Proof.
  intros Hm Hk p Pp. specialize (Hm p Pp). unfold bind.
  destruct (m p) as [[a p']| |]; [|exact I|exact Hm].
  exact (Hk a p' Hm).
Qed.

Lemma triple_pre {A} (P P' : Parser -> Prop) (m : PM A) Q :
  (forall p, P p -> P' p) -> triple T P' m Q -> triple T P m Q.
Proof. intros W Hm p Pp. exact (Hm p (W p Pp)). Qed.

Lemma triple_post {A} (P : Parser -> Prop) (m : PM A)
    (Q Q' : A -> Parser -> Prop) :
  (forall a p, Q a p -> Q' a p) -> triple T P m Q -> triple T P m Q'.
Proof.
  intros W Hm p Pp. specialize (Hm p Pp).
  destruct (m p) as [[a p']| |]; [exact (W a p' Hm)|exact I|exact Hm].
Qed.

Lemma triple_pure {A} (P : Parser -> Prop) (F : Prop) (m : PM A) Q :
  (F -> triple T P m Q) -> triple T (fun p => P p /\ F) m Q.
Proof. intros Hm p [Pp HF]. exact (Hm HF p Pp). Qed.

Lemma triple_out_of_fuel {A} (P : Parser -> Prop) (Q : A -> Parser -> Prop) :
  (forall p, P p -> T) -> triple T P out_of_fuel Q.
Proof. intros W p Pp. exact (W p Pp). Qed.

Lemma St_weaken n m c p : n <= m -> St toks lo n c p -> St toks lo m false p.
Proof.
  intros L (C & R & _). split; [exact C|]. split; [lia|discriminate].
Qed.

Lemma St_positive n p : St toks lo n true p -> 0 < n.
Proof.
  intros (_ & R & C). specialize (C eq_refl). unfold remaining in R.
  destruct (current_token p); [lia|congruence].
Qed.

Lemma triple_ret_weaken {A} n m c (a : A) :
  n <= m -> triple T (St toks lo n c) (ret a) (fun _ => St toks lo m false).
Proof. intros L p S. exact (St_weaken _ _ _ _ L S). Qed.

(** *** The primitives *)

Lemma cur_type_spec n c :
  triple T (St toks lo n c) cur_type
    (fun ty p => St toks lo n true p /\ exists t, In t toks /\ tk_type t = ty).
Proof.
  intros p (C & R & _). unfold cur_type, cur_attr, cur, bind, ret, raise.
  destruct (current_token p) as [t|] eqn:E; [|exact I].
  split.
  - split; [exact C|]. split; [exact R|]. rewrite E. discriminate.
  - exists t. split; [|reflexivity].
    destruct C as (_ & _ & C). rewrite E in C. destruct C as [_ C].
    apply list_elem_of_In. eapply list_elem_of_lookup_2. exact C.
Qed.

Lemma cur_value_spec n c :
  triple T (St toks lo n c) cur_value (fun _ => St toks lo n true).
Proof.
  intros p (C & R & _). unfold cur_value, cur_attr, cur, bind, ret, raise.
  destruct (current_token p) as [t|] eqn:E; [|exact I].
  split; [exact C|]. split; [exact R|]. rewrite E. discriminate.
Qed.

Lemma cur_in_spec kinds n c :
  triple T (St toks lo n c) (cur_in kinds)
    (fun b => St toks lo n (if b then true else c)).
Proof.
  intros p (C & R & Cu). unfold cur_in, cur, bind, ret.
  split; [exact C|]. split; [exact R|].
  destruct (current_token p) as [t|]; [discriminate|exact Cu].
Qed.

Lemma cur_not_in_spec kinds n c :
  triple T (St toks lo n c) (cur_not_in kinds)
    (fun b => St toks lo n (if b then true else c)).
Proof.
  intros p (C & R & Cu). unfold cur_not_in, cur, bind, ret.
  split; [exact C|]. split; [exact R|].
  destruct (current_token p) as [t|]; [discriminate|exact Cu].
Qed.

Lemma cur_not_in_eof_spec n c :
  triple T (St toks lo n c) (cur_not_in ["EOF"])
    (fun b p => St toks lo n (if b then true else c) p
                /\ (b = false -> at_end p)).
Proof.
  intros p S. pose proof (cur_not_in_spec ["EOF"] n c p S) as Q.
  unfold cur_not_in, cur, bind, ret, at_end in *. split; [exact Q|].
  destruct (current_token p) as [t|]; [|intros; exact I].
  intros E. apply negb_false_iff in E. cbn in E.
  rewrite orb_false_r in E. apply String.eqb_eq. exact E.
Qed.

Lemma peek_spec n c : triple T (St toks lo n c) peek (fun _ => St toks lo n c).
Proof.
  intros p S. unfold peek. destruct (bool_decide _); exact S.
Qed.

Lemma set_symbol_spec name sym n c :
  triple T (St toks lo n c) (set_symbol name sym) (fun _ => St toks lo n c).
Proof. intros p S. exact S. Qed.

Lemma advance_spec n c :
  triple T (St toks lo n c) advance
    (fun _ => St toks lo (if c then Nat.pred n else n) false).
Proof.
  intros p ((Tk & Lo & Cu) & R & Hc). unfold advance, remaining in *.
  rewrite Tk in *. unfold St, consistent, remaining.
  case_bool_decide as Lt; cbn [tokens pos current_token].
  - destruct (lookup_lt_is_Some_2 toks (pos p) Lt) as [t Et].
    split; [|split; [|discriminate]].
    + split; [reflexivity|]. split; [lia|]. rewrite Et.
      split; [lia|]. replace (S (pos p) - 1) with (pos p) by lia. exact Et.
    + rewrite Et. destruct c.
      * specialize (Hc eq_refl). destruct (current_token p); [lia|congruence].
      * destruct (current_token p); lia.
  - split; [|split; [|discriminate]].
    + split; [reflexivity|]. split; lia.
    + destruct c; lia.
Qed.

Lemma expect_spec token_type n c :
  triple T (St toks lo n c) (expect token_type)
    (fun _ => St toks lo (Nat.pred n) false).
Proof.
  unfold expect. eapply triple_bind.
  - intros p S. unfold cur.
    instantiate (1 := fun ct p => St toks lo n c p /\ ct = current_token p).
    split; [exact S|reflexivity].
  - intros [t|]; [|apply triple_raise].
    destruct (String.eqb (tk_type t) token_type); [|apply triple_raise].
    eapply triple_bind; [|intros ?; apply triple_ret].
    eapply triple_pre; [|apply (advance_spec n true)].
    intros p ((C & R & _) & E). split; [exact C|]. split; [exact R|].
    intros _. rewrite <- E. discriminate.
Qed.

Lemma value_upper_spec (P : Parser -> Prop) v :
  triple T P (value_upper H v) (fun _ => P).
Proof. destruct v; (apply triple_raise || apply triple_ret). Qed.

Tactic Notation "hbind" uconstr(L) :=
  eapply triple_bind; [eapply L|intros ?; cbv beta iota].
Tactic Notation "hbind" uconstr(L) "as" ident(x) :=
  eapply triple_bind; [eapply L|intros x; cbv beta iota].

(** A block of which no more is needed than that it keeps the state
    consistent. *)
Tactic Notation "hblock" :=
  match goal with
  | |- triple _ (St _ _ ?n _) (bind _ _) _ =>
      eapply (triple_bind _ _ (fun _ => St toks lo n false))
  end.

(** A block that leaves the parser as it is. *)
Tactic Notation "hkeep" :=
  match goal with
  | |- triple _ ?P (bind _ _) _ => eapply (triple_bind _ _ (fun _ => P))
  end.

Ltac hret := apply triple_ret_weaken; lia.

Ltac fuel_ok :=
  match goal with
  | Hf : ?T' \/ _ |- ?T' \/ _ =>
      destruct Hf as [Hf|Hf]; [left; exact Hf|right; lia]
  end.

Lemma skip_end_spec n c :
  triple T (St toks lo n c) skip_end (fun _ => St toks lo n false).
Proof.
  unfold skip_end. hbind cur_in_spec as is_end. destruct is_end.
  - hbind advance_spec. hret.
  - hret.
Qed.

(** *** The parsing functions *)

Lemma parse_pin_declaration_spec n c :
  triple T (St toks lo n c) parse_pin_declaration
    (fun _ => St toks lo (Nat.pred n) false).
Proof.
  unfold parse_pin_declaration.
  hbind expect_spec. hbind cur_type_spec as ty. apply triple_pure. intros _.
  hblock.
  { destruct (kind_in ty _); [|apply triple_raise].
    hbind cur_value_spec. hbind advance_spec. hret. }
  intros pin. hbind expect_spec.
  hbind cur_type_spec as ty'. apply triple_pure. intros _.
  hblock.
  { destruct (kind_in ty' _); [|apply triple_raise].
    hbind cur_value_spec. hbind advance_spec. hret. }
  intros mode. hbind cur_in_spec as has_value.
  hblock.
  { destruct has_value; [|hret].
    hbind advance_spec. hbind cur_type_spec as ty''. apply triple_pure.
    intros _. destruct (kind_in ty'' _); [|hret].
    hbind cur_value_spec. hbind advance_spec. hret. }
  intros value. hbind set_symbol_spec. hret.
Qed.

Lemma call_args_spec fuel :
  forall n c args, T \/ n <= fuel ->
    triple T (St toks lo n c) (call_args H fuel args)
      (fun _ => St toks lo n false).
Proof.
  induction fuel as [|fuel IH]; intros n c args Hf; cbn [call_args].
  - hbind cur_not_in_spec as more. destruct more; [|hret].
    apply triple_out_of_fuel. intros p S. apply St_positive in S.
    destruct Hf as [Hf|Hf]; [exact Hf|lia].
  - hbind cur_not_in_spec as more. destruct more; [|hret].
    hbind cur_type_spec as ty. apply triple_pure. intros _.
    hbind cur_value_spec as v.
    hkeep.
    { repeat match goal with
             | |- context [if ?b then _ else _] => destruct b
             end;
        first [apply triple_ret | apply value_upper_spec]. }
    intros arg. hbind advance_spec. hbind cur_in_spec as comma.
    hblock.
    { destruct comma; [hbind advance_spec; hret|hret]. }
    intros ?. eapply triple_post; [|apply IH; fuel_ok].
    intros ? p S. eapply St_weaken; [|exact S]. lia.
Qed.

Lemma parse_function_call_spec fuel n c :
  T \/ n <= S fuel ->
  triple T (St toks lo n c) (parse_function_call H fuel)
    (fun _ => St toks lo (Nat.pred n) false).
Proof.
  intros Hf. unfold parse_function_call.
  hbind cur_value_spec as func_name. hbind advance_spec.
  hbind expect_spec. hbind call_args_spec as args; [fuel_ok|].
  hbind expect_spec. hret.
Qed.

Lemma parse_serial_begin_spec n c :
  triple T (St toks lo n c) parse_serial_begin
    (fun _ => St toks lo (Nat.pred n) false).
Proof.
  unfold parse_serial_begin.
  hbind expect_spec. hbind expect_spec. hbind cur_value_spec as baud_rate.
  hbind cur_type_spec as ty. apply triple_pure. intros _.
  destruct (negb _); [apply triple_raise|].
  hbind advance_spec. hbind expect_spec. hret.
Qed.

Lemma parse_expression_spec n c :
  triple T (St toks lo n c) parse_expression
    (fun _ => St toks lo (Nat.pred n) false).
Proof.
  unfold parse_expression.
  hbind cur_type_spec as ty. apply triple_pure. intros _.
  destruct (kind_in ty _); [|apply triple_raise].
  hbind cur_value_spec as lhs. hbind advance_spec.
  hbind cur_in_spec as is_op. destruct is_op; [|hret].
  hbind cur_type_spec as op. apply triple_pure. intros _.
  hbind advance_spec.
  hbind cur_type_spec as ty'. apply triple_pure. intros _.
  destruct (kind_in ty' _); [|hret].
  hbind cur_value_spec as rhs. hbind advance_spec. hret.
Qed.

Lemma parse_variable_declaration_spec n c :
  triple T (St toks lo n c) parse_variable_declaration
    (fun _ => St toks lo (Nat.pred n) false).
Proof.
  unfold parse_variable_declaration.
  hbind cur_type_spec as var_type. apply triple_pure. intros _.
  hbind advance_spec. hbind expect_spec as name_tok.
  hbind cur_in_spec as has_value.
  hblock.
  { destruct has_value; [|hret].
    hbind advance_spec. hbind cur_type_spec as ty. apply triple_pure.
    intros _. destruct (kind_in ty _); [|hret].
    hbind cur_value_spec. hbind advance_spec. hret. }
  intros value. hbind set_symbol_spec. hret.
Qed.

Lemma parse_assignment_spec n c :
  triple T (St toks lo n c) parse_assignment
    (fun _ => St toks lo (Nat.pred n) false).
Proof.
  unfold parse_assignment.
  hbind cur_value_spec as name. hbind advance_spec. hbind expect_spec.
  hbind cur_value_spec as value. hbind advance_spec. hret.
Qed.

Lemma call_block_spec fuel :
  forall stops n c children, T \/ n <= fuel ->
    triple T (St toks lo n c) (call_block H fuel stops children)
      (fun _ => St toks lo n false).
Proof.
  induction fuel as [|fuel IH]; intros stops n c children Hf;
    cbn [call_block].
  - hbind cur_not_in_spec as more. destruct more; [|hret].
    apply triple_out_of_fuel. intros p S. apply St_positive in S.
    destruct Hf as [Hf|Hf]; [exact Hf|lia].
  - hbind cur_not_in_spec as more. destruct more; [|hret].
    hbind cur_type_spec as ty. apply triple_pure. intros _.
    destruct (kind_in ty _).
    + hbind parse_function_call_spec as node; [fuel_ok|].
      eapply triple_post; [|apply IH; fuel_ok].
      intros ? p S. eapply St_weaken; [|exact S]. lia.
    + hbind advance_spec.
      eapply triple_post; [|apply IH; fuel_ok].
      intros ? p S. eapply St_weaken; [|exact S]. lia.
Qed.

Lemma parse_if_spec fuel n c :
  T \/ n <= S fuel ->
  triple T (St toks lo n c) (parse_if H fuel)
    (fun _ => St toks lo (Nat.pred n) false).
Proof.
  intros Hf. unfold parse_if.
  hbind expect_spec. hbind parse_expression_spec as condition.
  hbind expect_spec. hbind call_block_spec as children; [fuel_ok|].
  hbind cur_in_spec as has_else.
  hblock.
  { destruct has_else; [|hret].
    hbind advance_spec. hbind cur_type_spec as ty. apply triple_pure.
    intros _. destruct (String.eqb ty "COLON"); [|hret].
    hbind advance_spec.
    eapply triple_post; [|apply call_block_spec; fuel_ok].
    intros ? p S. eapply St_weaken; [|exact S]. lia. }
  intros children'. hbind skip_end_spec. hret.
Qed.

Lemma parse_while_spec fuel n c :
  T \/ n <= S fuel ->
  triple T (St toks lo n c) (parse_while H fuel)
    (fun _ => St toks lo (Nat.pred n) false).
Proof.
  intros Hf. unfold parse_while.
  hbind expect_spec. hbind parse_expression_spec as condition.
  hbind expect_spec. hbind call_block_spec as children; [fuel_ok|].
  hbind skip_end_spec. hret.
Qed.

Lemma parse_for_spec fuel n c :
  T \/ n <= S fuel ->
  triple T (St toks lo n c) (parse_for H fuel)
    (fun _ => St toks lo (Nat.pred n) false).
Proof.
  intros Hf. unfold parse_for.
  hbind expect_spec. hbind expect_spec.
  hbind cur_type_spec as ty. apply triple_pure. intros _.
  hblock.
  { destruct (kind_in ty _); [|hret].
    destruct (String.eqb ty "INT").
    - hbind parse_variable_declaration_spec. hret.
    - hbind parse_assignment_spec. hret. }
  intros ?. hbind expect_spec. hbind parse_expression_spec as condition.
  hbind expect_spec. hbind cur_type_spec as ty'. apply triple_pure.
  intros _.
  hblock.
  { destruct (String.eqb ty' "ID"); [|hret].
    hbind parse_assignment_spec. hret. }
  intros ?. hbind expect_spec. hbind expect_spec.
  hbind call_block_spec as children; [fuel_ok|].
  hbind skip_end_spec. hret.
Qed.

Lemma loop_block_spec fuel :
  forall n c children, T \/ n <= fuel ->
    triple T (St toks lo n c) (loop_block H fuel children)
      (fun _ => St toks lo n false).
Proof.
  induction fuel as [|fuel IH]; intros n c children Hf; cbn [loop_block].
  - hbind cur_not_in_spec as more. destruct more; [|hret].
    apply triple_out_of_fuel. intros p S. apply St_positive in S.
    destruct Hf as [Hf|Hf]; [exact Hf|lia].
  - hbind cur_not_in_spec as more. destruct more; [|hret].
    hbind cur_type_spec as ty. apply triple_pure. intros _.
    assert (forall children',
              triple T (St toks lo (Nat.pred n) false)
                (loop_block H fuel children')
                (fun _ => St toks lo n false)) as Next.
    { intros children'. eapply triple_post; [|apply IH; fuel_ok].
      intros ? p S. eapply St_weaken; [|exact S]. lia. }
    destruct (String.eqb ty "PIN");
      [hbind parse_pin_declaration_spec as node; apply Next|].
    destruct (kind_in ty _);
      [hbind parse_function_call_spec as node;
       [fuel_ok|apply Next]|].
    destruct (String.eqb ty "IF");
      [hbind parse_if_spec as node; [fuel_ok|apply Next]|].
    destruct (String.eqb ty "WHILE");
      [hbind parse_while_spec as node; [fuel_ok|apply Next]|].
    destruct (String.eqb ty "FOR");
      [hbind parse_for_spec as node; [fuel_ok|apply Next]|].
    hbind advance_spec. apply Next.
Qed.

Lemma parse_loop_spec fuel n c :
  T \/ n <= S fuel ->
  triple T (St toks lo n c) (parse_loop H fuel)
    (fun _ => St toks lo (Nat.pred n) false).
Proof.
  intros Hf. unfold parse_loop.
  hbind expect_spec. hbind expect_spec.
  hbind loop_block_spec as children; [fuel_ok|].
  hbind skip_end_spec. hret.
Qed.

(** The parameter loop may spin: it is only known to keep the state
    consistent when it returns. *)
Lemma function_params_spec fuel :
  forall n c params, T ->
    triple T (St toks lo n c) (function_params fuel params)
      (fun _ => St toks lo n false).
Proof.
  induction fuel as [|fuel IH]; intros n c params HT;
    cbn [function_params].
  - hbind cur_not_in_spec as more. destruct more; [|hret].
    apply triple_out_of_fuel. intros _ _. exact HT.
  - hbind cur_not_in_spec as more. destruct more; [|hret].
    hbind cur_type_spec as ty. apply triple_pure. intros _.
    destruct (kind_in ty _).
    + hbind advance_spec. hbind expect_spec as name_tok.
      hbind cur_in_spec as comma.
      hblock.
      { destruct comma; [hbind advance_spec; hret|hret]. }
      intros ?. eapply triple_post; [|apply IH; exact HT].
      intros ? p S. eapply St_weaken; [|exact S]. lia.
    + eapply triple_post; [|apply IH; exact HT].
      intros ? p S. eapply St_weaken; [|exact S]. lia.
Qed.

Lemma parse_function_declaration_spec fuel n c :
  T ->
  triple T (St toks lo n c) (parse_function_declaration H fuel)
    (fun _ => St toks lo (Nat.pred n) false).
Proof.
  intros HT. unfold parse_function_declaration.
  hbind expect_spec. hbind expect_spec as name_tok. hbind expect_spec.
  hbind function_params_spec as params; [exact HT|].
  hbind expect_spec. hbind expect_spec. hbind set_symbol_spec.
  hbind call_block_spec as children; [left; exact HT|].
  hbind cur_in_spec as has_return.
  hblock.
  { destruct has_return; [|hret].
    hbind advance_spec. hbind cur_type_spec as ty. apply triple_pure.
    intros _. destruct (kind_in ty _); [|hret].
    hbind advance_spec. hret. }
  intros ?. hbind skip_end_spec. hret.
Qed.

Lemma parse_program_spec fuel :
  T \/ no_function toks = true ->
  forall n c children, T \/ n <= fuel ->
    triple T (St toks lo n c) (parse_program H fuel children)
      (fun _ p => St toks lo n false p /\ at_end p).
Proof.
  intros NF.
  induction fuel as [|fuel IH]; intros n c children Hf; cbn [parse_program].
  - hbind cur_not_in_eof_spec as more. destruct more.
    + apply triple_out_of_fuel. intros p [S _]. apply St_positive in S.
      destruct Hf as [Hf|Hf]; [exact Hf|lia].
    + intros p [S E]. split; [|exact (E eq_refl)].
      eapply St_weaken; [|exact S]. lia.
  - hbind cur_not_in_eof_spec as more. destruct more.
    2:{ intros p [S E]. split; [|exact (E eq_refl)].
        eapply St_weaken; [|exact S]. lia. }
    eapply triple_pre; [intros p [S _]; exact S|].
    hbind cur_type_spec as ty. apply triple_pure. intros (t & It & Et).
    hbind peek_spec as next.
    assert (forall children',
              triple T (St toks lo (Nat.pred n) false)
                (parse_program H fuel children')
                (fun _ p => St toks lo n false p /\ at_end p)) as Next.
    { intros children'. eapply triple_post; [|apply IH; fuel_ok].
      intros ? p [S E]. split; [|exact E].
      eapply St_weaken; [|exact S]. lia. }
    destruct (String.eqb ty "PIN");
      [hbind parse_pin_declaration_spec as node; apply Next|].
    destruct (String.eqb ty "FUNCTION") eqn:Ef.
    { destruct NF as [HT|NF].
      - hbind parse_function_declaration_spec as node;
          [exact HT|apply Next].
      - exfalso. unfold no_function in NF. rewrite forallb_forall in NF.
        specialize (NF t It). rewrite Et, Ef in NF. discriminate NF. }
    destruct (String.eqb ty "LOOP");
      [hbind parse_loop_spec as node; [fuel_ok|apply Next]|].
    destruct (String.eqb ty "SERIAL_BEGIN");
      [hbind parse_serial_begin_spec as node; apply Next|].
    destruct (kind_in ty _);
      [hbind parse_variable_declaration_spec as node; apply Next|].
    destruct (String.eqb ty "ID" && _);
      [hbind parse_assignment_spec as node; apply Next|].
    destruct (kind_in ty _);
      [hbind parse_function_call_spec as node;
       [fuel_ok|apply Next]|].
    hbind advance_spec. apply Next.
Qed.

Lemma parse_from_spec fuel n c :
  T \/ no_function toks = true -> T \/ n <= fuel ->
  triple T (St toks lo n c) (parse_from H fuel)
    (fun _ p => St toks lo n false p /\ at_end p).
Proof.
  intros NF Hf. unfold parse_from.
  hbind parse_program_spec as children; [exact NF|exact Hf|].
  apply triple_ret.
Qed.

End ParserLogic.

(** ** Termination and progress of the parser *)

Section ParserRuns.

Variable H : Host.

Lemma Parser_init_state toks :
  St toks (pos (Parser_init toks)) (length toks) false (Parser_init toks).
Proof.
  unfold Parser_init, advance, St, consistent, remaining.
  cbn [tokens pos current_token].
  case_bool_decide as Lt; cbn [tokens pos current_token].
  - destruct (lookup_lt_is_Some_2 toks 0 Lt) as [t Et]. rewrite Et.
    split; [|split; [lia|discriminate]].
    split; [reflexivity|]. split; [lia|]. split; [lia|exact Et].
  - split; [|split; [lia|discriminate]].
    split; [reflexivity|]. split; lia.
Qed.

(** X8.  On tokens without the keyword of a function declaration the
    parser terminates: the number of tokens is enough fuel, and more fuel
    gives the same result. *)
Theorem parse_terminates toks fuel :
  no_function toks = true -> length toks <= fuel ->
  terminates (parse H fuel toks) = true
  /\ parse H fuel toks = parse H (length toks) toks.
Proof.
  intros NF Hle.
  assert (forall n, length toks <= n -> terminates (parse H n toks) = true)
    as Tm.
  { intros n Hn.
    pose proof (parse_from_spec H False toks (pos (Parser_init toks)) n
                  (length toks) false (or_intror NF) (or_intror Hn)
                  (Parser_init toks) (Parser_init_state toks)) as S.
    unfold parse.
    destruct (parse_from H n (Parser_init toks)) as [[? ?]| |];
      [reflexivity|reflexivity|destruct S]. }
  split; [apply Tm; exact Hle|].
  apply parse_mono; [exact Hle|]. apply Tm. lia.
Qed.

Lemma at_end_consumed toks lo n p :
  eof_last toks = true -> St toks lo n false p -> at_end p ->
  pos p = length toks.
Proof.
  intros EL ((_ & Lo & Cu) & _) E. unfold at_end in E.
  destruct (current_token p) as [t|]; [|exact Cu].
  destruct Cu as [Pp Lk].
  destruct (Nat.lt_ge_cases (pos p - 1) (length toks - 1)) as [Lt|Ge]; [|lia].
  exfalso. unfold eof_last in EL. rewrite forallb_forall in EL.
  specialize (EL t). rewrite E in EL. cbn in EL.
  assert (In t (take (length toks - 1) toks)) as It.
  { apply list_elem_of_In. eapply list_elem_of_lookup_2.
    rewrite lookup_take_lt by exact Lt. exact Lk. }
  specialize (EL It). discriminate EL.
Qed.

(** When the parser returns, it has consumed every token, provided only
    the last token is an end marker; it never changes the token list and
    never moves back. *)
Lemma parse_from_consumes toks fuel program p' :
  eof_last toks = true ->
  parse_from H fuel (Parser_init toks) = Return (program, p') ->
  tokens p' = toks /\ pos p' = length toks
  /\ pos (Parser_init toks) <= pos p'.
Proof.
  intros EL R.
  pose proof (parse_from_spec H True toks (pos (Parser_init toks)) fuel
                (length toks) false (or_introl I) (or_introl I)
                (Parser_init toks) (Parser_init_state toks)) as S.
  rewrite R in S. destruct S as [S E].
  pose proof (at_end_consumed _ _ _ _ EL S E) as C.
  destruct S as ((Tk & Lo & _) & _).
  split; [exact Tk|]. split; [exact C|lia].
Qed.

(** X9.  When the parser returns on the tokens of a text, it has consumed
    all of them, end marker included; it has not changed the token list. *)
Theorem parse_consumes_tokens code fuel program p' :
  parse_from H fuel (Parser_init (tokenize H code)) = Return (program, p') ->
  tokens p' = tokenize H code /\ pos p' = length (tokenize H code).
Proof.
  intros R.
  destruct (parse_from_consumes _ _ _ _ (eof_last_tokenize H code) R)
    as (Tk & Ps & _).
  split; assumption.
Qed.

Lemma parse_program_skips toks lo :
  Forall (fun t => kind_in (tk_type t) statement_kinds = false) toks ->
  forall fuel n c p children,
    St toks lo n c p -> n <= fuel ->
    exists p', parse_program H fuel children p = Return (children, p').
Proof.
  intros J. induction fuel as [|fuel IH]; intros n c p children S Hn;
    cbn [parse_program]; unfold bind at 1; unfold cur_not_in, cur, bind, ret.
  - destruct (current_token p) as [t|] eqn:Ec; [|eexists; reflexivity].
    destruct (negb (kind_in (tk_type t) ["EOF"])); [|eexists; reflexivity].
    exfalso. destruct S as (_ & R & _). unfold remaining in R.
    rewrite Ec in R. lia.
  - destruct (current_token p) as [t|] eqn:Ec; [|eexists; reflexivity].
    destruct (negb (kind_in (tk_type t) ["EOF"])); [|eexists; reflexivity].
    assert (kind_in (tk_type t) statement_kinds = false) as Jt.
    { rewrite Forall_forall in J. apply J.
      destruct S as ((_ & _ & Cu) & _). rewrite Ec in Cu.
      destruct Cu as [_ Cu]. eapply list_elem_of_lookup_2. exact Cu. }
    unfold cur_type, cur_attr, cur, bind, ret. rewrite Ec.
    assert (exists next, peek p = Return (next, p)) as [next ->]
      by (unfold peek; destruct (bool_decide _); eexists; reflexivity).
    unfold kind_in, statement_kinds in Jt. cbn [existsb] in Jt.
    repeat match type of Jt with
           | (_ || _)%bool = false => apply orb_false_elim in Jt as [? Jt]
           end.
    unfold kind_in. cbn [existsb].
    repeat match goal with
           | E : String.eqb (tk_type t) _ = false |- _ => rewrite E; clear E
           end.
    cbn [orb andb].
    assert (St toks lo n true p) as S1.
    { destruct S as (C & R & _). split; [exact C|]. split; [exact R|].
      intros _. rewrite Ec. discriminate. }
    pose proof (St_positive _ _ _ _ S1) as Pn.
    pose proof (advance_spec False toks lo n true p S1) as A.
    assert (exists t1 p1, advance p = Return (t1, p1)) as (t1 & p1 & Ea)
      by (unfold advance; destruct (bool_decide _); eexists _, _;
          reflexivity).
    rewrite Ea in A |- *.
    apply (IH (Nat.pred n) false p1 children A). lia.
Qed.

(** X10.  Tokens of kinds that start no statement are passed over without
    an error: a token list that holds no other kind parses to the empty
    program. *)
Theorem parse_skips toks fuel :
  Forall (fun t => kind_in (tk_type t) statement_kinds = false) toks ->
  length toks <= fuel ->
  parse H fuel toks = Return (ProgramNode []).
Proof.
  intros J Hle. unfold parse, parse_from. unfold bind.
  destruct (parse_program_skips toks _ J fuel (length toks) false
              (Parser_init toks) [] (Parser_init_state toks) Hle)
    as [p' ->].
  reflexivity.
Qed.

(** X11.  The parser does not terminate on a function declaration whose
    parameter list starts with a token that is neither a parameter type nor
    the closing parenthesis, an identifier or the end marker for instance:
    whatever the fuel, it is used up inside the parameter loop. *)
Theorem function_declaration_diverges fuel v1 l1 c1 v2 l2 c2 v3 l3 c3 t rest :
  kind_in (tk_type t) ["RPAREN"; "INT"; "FLOAT"; "BOOL"] = false ->
  parse H fuel
    ({| tk_type := "FUNCTION"; tk_value := v1; tk_line := l1;
        tk_column := c1 |}
     :: {| tk_type := "ID"; tk_value := v2; tk_line := l2; tk_column := c2 |}
     :: {| tk_type := "LPAREN"; tk_value := v3; tk_line := l3;
           tk_column := c3 |}
     :: t :: rest)
  = OutOfFuel.
Proof.
  intros K.
  assert (kind_in (tk_type t) ["RPAREN"] = false
          /\ kind_in (tk_type t) ["INT"; "FLOAT"; "BOOL"] = false) as [Kr Kt].
  { unfold kind_in in *. cbn [existsb] in *.
    apply orb_false_elim in K as [-> ->]. split; reflexivity. }
  destruct fuel as [|fuel]; [reflexivity|].
  unfold parse, parse_from. unfold bind at 1.
  match goal with
  | |- context [parse_program H ?f ?c ?p] =>
      let p' := eval vm_compute in p in
      change p with p';
      assert (parse_program H f c p' = OutOfFuel) as ->; [|reflexivity]
  end.
  cbn [parse_program].
  do 3 run_head.
  cbv beta iota zeta. cbn [String.eqb Ascii.eqb Bool.eqb].
  unfold bind at 1. unfold parse_function_declaration.
  do 3 run_head.
  unfold bind at 1.
  erewrite function_params_stuck; [reflexivity|reflexivity|exact Kr|exact Kt].
Qed.

End ParserRuns.

(** ** The failures and the shape of the generated text *)

Section GeneratorRuns.

Variable H : Host.

Lemma dict_get_pair {A} (d : list (pystr * A)) k v :
  dict_get d k = Some v -> In (k, v) d.
Proof.
  induction d as [|[k' v'] d IH]; [discriminate|].
  cbn [dict_get]. unfold str_eqb. case_bool_decide as E.
  - intros [= <-]. left. rewrite E. reflexivity.
  - intros G. right. exact (IH G).
Qed.

Lemma dict_get_none {A} (d : list (pystr * A)) k :
  dict_get d k = None -> ~ In k (fst <$> d).
Proof.
  induction d as [|[k' v'] d IH]; [intros _ []|].
  cbn [dict_get]. unfold str_eqb. case_bool_decide as E; [discriminate|].
  intros G [E'|I]; [exact (E E')|exact (IH G I)].
Qed.

(** [normalize_pin] raises exactly on the aliases of a pin number. *)
Lemma normalize_pin_outcome pin :
  match pin_error pin with
  | Some e => normalize_pin H pin = Raise e
  | None => exists r, normalize_pin H pin = Return r
  end.
Proof.
  destruct pin as [n|lx|s]; cbn [pin_error]; [eexists; reflexivity..|].
  cbn [normalize_pin].
  destruct (dict_get PIN_ALIASES s) as [alias|] eqn:D.
  - apply dict_get_pair in D.
    assert (forallb (fun kv =>
              match snd kv with
              | VStr _ => negb (bool_decide (fst kv ∈ numeric_aliases))
              | _ => bool_decide (fst kv ∈ numeric_aliases)
              end) PIN_ALIASES = true) as F by (vm_compute; reflexivity).
    rewrite forallb_forall in F. specialize (F _ D). cbn [fst snd] in F.
    destruct alias as [n|lx|s'].
    + rewrite F. reflexivity.
    + rewrite F. reflexivity.
    + apply negb_true_iff in F. rewrite F.
      destruct (startswith s' (py "D")); [eexists; reflexivity|].
      destruct (startswith (upper H s') (py "A")); eexists; reflexivity.
  - apply dict_get_none in D.
    assert (forallb (fun k => bool_decide (k ∈ fst <$> PIN_ALIASES))
              numeric_aliases = true) as F by (vm_compute; reflexivity).
    rewrite forallb_forall in F.
    case_bool_decide as E.
    + exfalso. apply D. apply list_elem_of_In.
      apply list_elem_of_In in E. specialize (F _ E).
      apply bool_decide_eq_true in F. exact F.
    + destruct (startswith s (py "D")); [eexists; reflexivity|].
      destruct (startswith (upper H s) (py "A")); eexists; reflexivity.
Qed.

Ltac run_pin pin :=
  let P := fresh "P" in
  let r := fresh "r" in
  pose proof (normalize_pin_outcome pin) as P;
  destruct (pin_error pin);
  [rewrite P; split; reflexivity|destruct P as [r ->]].

Ltac run_value :=
  match goal with
  | |- context [normalize_value H ?v ?t] =>
      let r := fresh "r" in
      destruct (normalize_value_returns H v t) as [r ->]
  end.

Ltac unfold_leaf :=
  unfold translate; cbn [for_each generate_node node_error];
  unfold generate_pin_declaration, generate_digital_write,
    generate_analog_write, generate_digital_read, generate_analog_read,
    generate_delay, generate_serial_begin, generate_serial_print,
    generate_variable_declaration, generate_assignment,
    generate_function_call, generate_binary_op, bind, lift, get, emit,
    modify, ret.

Lemma translate_failure_cons node rest level :
  terminates (translate H [node] level) = true
  /\ failure (translate H [node] level) = node_error node ->
  terminates (translate H rest level) = true
  /\ failure (translate H rest level) = first_error rest ->
  terminates (translate H (node :: rest) level) = true
  /\ failure (translate H (node :: rest) level) = first_error (node :: rest).
Proof.
  intros [T1 F1] [T2 F2]. rewrite translate_cons. cbn [first_error foldr].
  fold (first_error rest). rewrite <- F1, <- F2.
  destruct (translate H [node] level); [|split; reflexivity|discriminate T1].
  destruct (translate H rest level); [split; reflexivity..|discriminate T2].
Qed.

Lemma translate_failure_nodes nodes level :
  Forall (fun node => forall level,
            terminates (translate H [node] level) = true
            /\ failure (translate H [node] level) = node_error node) nodes ->
  terminates (translate H nodes level) = true
  /\ failure (translate H nodes level) = first_error nodes.
Proof.
  induction 1 as [|node nodes Hn _ IH]; [split; reflexivity|].
  apply translate_failure_cons; [apply Hn|exact IH].
Qed.

Lemma translate_failure_node node :
  forall level,
    terminates (translate H [node] level) = true
    /\ failure (translate H [node] level) = node_error node.
Proof.
  induction node as [node IH] using Node_ind_children. intros level.
  destruct node; cbn [node_children] in IH.
  - unfold_leaf. run_pin pin. cbv beta iota zeta.
    destruct value;
      [match goal with
       | |- context [str_eqb ?a ?b] => destruct (str_eqb a b)
       end|]; split; reflexivity.
  - unfold_leaf. run_pin pin. run_value. split; reflexivity.
  - unfold_leaf. run_pin pin. split; reflexivity.
  - unfold_leaf. run_pin pin. split; reflexivity.
  - unfold_leaf. run_pin pin. split; reflexivity.
  - split; reflexivity.
  - split; reflexivity.
  - unfold_leaf. destruct newline; split; reflexivity.
  - rewrite translate_loop.
    change (node_error (LoopNode children)) with (first_error children).
    apply translate_failure_nodes. exact IH.
  - split; reflexivity.
  - unfold_leaf. destruct value; [run_value|]; split; reflexivity.
  - unfold_leaf. run_value. split; reflexivity.
  - split; reflexivity.
  - unfold_leaf. run_value. split; reflexivity.
Qed.

Lemma translate_failure nodes level :
  terminates (translate H nodes level) = true
  /\ failure (translate H nodes level) = first_error nodes.
Proof.
  apply translate_failure_nodes. apply Forall_forall. intros node _.
  apply translate_failure_node.
Qed.

Lemma first_error_none nodes node :
  first_error nodes = None -> In node nodes -> node_error node = None.
Proof.
  induction nodes as [|n nodes IH]; [intros _ []|].
  cbn [first_error foldr]. fold (first_error nodes).
  destruct (node_error n) eqn:E; [discriminate|].
  intros F [<-|I]; [exact E|exact (IH F I)].
Qed.

Lemma first_loop_body_error ast :
  first_error (program_children ast) = None ->
  first_error (first_loop_body ast) = None.
Proof.
  intros F. unfold first_loop_body.
  destruct (List.find is_loop (program_children ast)) as [node|] eqn:E;
    [|reflexivity].
  apply find_some in E as [I L]. destruct node; try reflexivity.
  exact (first_error_none _ _ F I).
Qed.

(** The outcome of [generate_lines], by the error of the program. *)
Lemma generate_lines_outcome ast :
  match first_error (program_children ast) with
  | Some e => generate_lines H ast = Raise e
  | None =>
      exists setup_ls body,
        translate H (program_children ast) 1 = Return setup_ls
        /\ translate H (first_loop_body ast) 1 = Return body
        /\ generate_lines H ast = Return (assemble setup_ls body)
  end.
Proof.
  rewrite generate_lines_eq.
  pose proof (translate_failure (program_children ast) 1) as [T1 F1].
  pose proof (translate_failure (first_loop_body ast) 1) as [T2 F2].
  pose proof (first_loop_body_error ast) as B.
  destruct (first_error (program_children ast)) as [e|].
  - destruct (translate H (program_children ast) 1);
      [discriminate F1|injection F1 as ->; reflexivity|discriminate T1].
  - rewrite (B eq_refl) in F2.
    destruct (translate H (program_children ast) 1) as [setup_ls| |];
      [|discriminate F1|discriminate T1].
    destruct (translate H (first_loop_body ast) 1) as [body| |];
      [|discriminate F2|discriminate T2].
    exists setup_ls, body. split; [reflexivity|]. split; reflexivity.
Qed.

(** X14.  Code generation always terminates, and it fails exactly when a
    statement outside the bodies of function declarations is a conditional
    or names its pin by an alias of a pin number; the exception is that of
    the first such statement. *)
Theorem generate_failure ast :
  terminates (generate H ast) = true
  /\ failure (generate H ast) = first_error (program_children ast).
Proof.
  rewrite generate_join. pose proof (generate_lines_outcome ast) as O.
  destruct (first_error (program_children ast)) as [e|].
  - rewrite O. split; reflexivity.
  - destruct O as (setup_ls & body & _ & _ & ->). split; reflexivity.
Qed.

Lemma translate_app_inv a b level ls :
  translate H (a ++ b) level = Return ls ->
  exists la lb,
    translate H a level = Return la /\ translate H b level = Return lb
    /\ ls = la ++ lb.
Proof.
  revert ls. induction a as [|node a IH]; intros ls.
  - intros T. exists [], ls. split; [reflexivity|].
    split; [exact T|reflexivity].
  - cbn [app]. rewrite translate_cons.
    destruct (translate H [node] level) as [l1| |] eqn:T1; try discriminate.
    destruct (translate H (a ++ b) level) as [l2| |] eqn:T2; try discriminate.
    intros [= <-]. destruct (IH l2 eq_refl) as (la & lb & Ta & Tb & ->).
    exists (l1 ++ la), lb. rewrite translate_cons, T1, Ta.
    split; [reflexivity|]. split; [exact Tb|]. apply app_assoc.
Qed.

Lemma first_loop_block ast setup_ls body :
  translate H (program_children ast) 1 = Return setup_ls ->
  translate H (first_loop_body ast) 1 = Return body ->
  has_block body setup_ls.
Proof.
  intros T1 T2. unfold first_loop_body in T2.
  destruct (List.find is_loop (program_children ast)) as [node|] eqn:E.
  - apply find_some in E as [I L]. destruct node; try discriminate L.
    apply in_split in I as (pre & post & Ec). rewrite Ec in T1.
    apply translate_app_inv in T1 as (la & lb & _ & Tb & ->).
    rewrite translate_cons, translate_loop, T2 in Tb.
    destruct (translate H post 1) as [lp| |]; try discriminate Tb.
    injection Tb as <-. exists la, lp. reflexivity.
  - injection T2 as <-. exists [], setup_ls. reflexivity.
Qed.

(** X15.  The text [generate] returns is made of entries joined by line
    feeds: the fixed header, with its one include directive and no
    declaration of a variable, and the two routines.  The initialisation
    routine holds the entries of every top-level statement, in order,
    loops included; the repeating routine holds the entries of the body of
    the first loop, which are a block of those of the initialisation
    routine.  Every entry of a routine starts with the indentation; an
    entry is one line of the text unless a value printed in it holds a
    line feed. *)
Theorem setup_block_translation ast text :
  generate H ast = Return text ->
  exists setup_ls body,
    text = join [10%N] (assemble setup_ls body)
    /\ translate H (program_children ast) 1 = Return setup_ls
    /\ translate H (first_loop_body ast) 1 = Return body
    /\ has_block body setup_ls
    /\ Forall (fun l => indented l = true) setup_ls
    /\ Forall (fun l => indented l = true) body.
Proof.
  rewrite generate_join. intros G.
  pose proof (generate_lines_outcome ast) as O.
  destruct (first_error (program_children ast));
    [rewrite O in G; discriminate G|].
  destruct O as (setup_ls & body & T1 & T2 & E).
  rewrite E in G. injection G as <-.
  exists setup_ls, body. split; [reflexivity|].
  split; [exact T1|]. split; [exact T2|].
  split; [exact (first_loop_block ast _ _ T1 T2)|].
  split; eapply translate_indented; try eassumption; lia.
Qed.

End GeneratorRuns.

(** ** The pipeline on families of texts *)

Ltac scan_token H :=
  match goal with
  | |- context [scan H ?s 0 ?lx] =>
      let r := eval vm_compute in (first_match (token_specs H) s) in
      match r with
      | Some (?kind, ?n) =>
          let F := fresh "F" in
          assert (first_match (token_specs H) s = Some (kind, n)) as F
            by (vm_compute; reflexivity);
          rewrite (scan_match H s kind n lx F); clear F;
          cbn [drop take]; rewrite ?drop_0;
          match goal with
          | |- context [lex_step H kind ?v lx] =>
              let r' := eval vm_compute in (lex_step H kind v lx) in
              let E := fresh "E" in
              assert (lex_step H kind v lx = r') as E
                by (vm_compute; reflexivity);
              rewrite E; clear E
          end
      end
  end.

Section Pipeline.

Variable H : Host.

Lemma split_lines_header l ls :
  one_line l = true -> ls <> [] ->
  split_lines (join [10%N] (l :: ls)) = l :: split_lines (join [10%N] ls).
Proof.
  intros O N. destruct ls as [|l' ls]; [congruence|].
  change (join [10%N] (l :: l' :: ls))
    with (l ++ 10%N :: join [10%N] (l' :: ls)).
  apply split_lines_app. exact O.
Qed.

(** X16.  Whatever the program, serial initialisation included, the text
    [compile] returns begins with the same six lines: two lines of
    comment, an empty line, the include directive of [Arduino.h], an empty
    line and the opening of the initialisation routine.  The header holds
    this one include directive and nothing of the program. *)
Theorem compile_includes_fixed fuel source c text c' :
  compile H fuel source c = (Return text, c') ->
  take 6 (split_lines text) = header_lines ++ [py "void setup() {"]
  /\ List.filter is_include header_lines = [py "#include <Arduino.h>"].
Proof.
  intros C. split; [|vm_compute; reflexivity]. unfold compile in C.
  destruct (parse H fuel (tokenize H source)) as [program| |];
    [|discriminate C..].
  destruct (generate H program) as [text'| |] eqn:G; [|discriminate C..].
  pose proof (f_equal fst C) as Et. cbn [fst] in Et. clear C.
  rewrite generate_join, generate_lines_eq in G.
  destruct (translate H (program_children program) 1) as [setup_ls| |];
    [|discriminate G..].
  destruct (translate H (first_loop_body program) 1) as [body| |];
    [|discriminate G..].
  assert (text = join [10%N] (assemble setup_ls body)) as -> by congruence.
  unfold assemble, header_lines. cbn [fmap list_fmap app].
  rewrite !split_lines_header
    by first [vm_compute; reflexivity | discriminate
             | destruct setup_ls; discriminate].
  reflexivity.
Qed.

(** X17.  A program text of spaces, tabs and line feeds only compiles to
    the empty sketch: the header, the one include directive and the two
    routines without a statement. *)
Theorem compile_blank_text code fuel c :
  Forall (fun ch => white ch = true) code ->
  fst (compile H (S fuel) code c) = Return (join [10%N] (assemble [] [])).
Proof.
  intros W. destruct (tokenize_white H code W) as (line & column & E).
  unfold compile. rewrite E.
  change (parse H (S fuel) [eof_token line column])
    with (Return (A := Program) (ProgramNode [])).
  cbv beta iota.
  assert (generate H (ProgramNode []) = Return (join [10%N] (assemble [] [])))
    as G by (vm_compute; reflexivity).
  rewrite G. reflexivity.
Qed.

(** X18.  A delay of [n] milliseconds at the top level compiles to the call
    [delay(n)]: the duration reaches the output unchanged, for every natural
    number [n]. *)
Theorem compile_delay n fuel c :
  fst (compile H (3 + fuel) (py "ждать(" ++ str_of_N n ++ py ")") c)
  = Return (join [10%N]
              (assemble [py "  delay(" ++ str_of_N n ++ py ");"] [])).
Proof.
  unfold compile.
  assert (tokenize H (py "ждать(" ++ str_of_N n ++ py ")") =
            [ {| tk_type := "DELAY"; tk_value := VStr (py "ждать");
                 tk_line := 1; tk_column := 1 |};
              {| tk_type := "LPAREN"; tk_value := VStr (py "(");
                 tk_line := 1; tk_column := 6 |};
              {| tk_type := "INTEGER"; tk_value := VInt (Z.of_N n);
                 tk_line := 1; tk_column := 7 |};
              {| tk_type := "RPAREN"; tk_value := VStr (py ")");
                 tk_line := 1; tk_column := 7 + len (str_of_N n) |};
              eof_token 1 (7 + len (str_of_N n) + 1) ]) as T.
  { unfold tokenize.
    pose proof (str_of_N_nonempty n) as Nn.
    pose proof (uint_digits_digit (N.to_uint n)) as Dn.
    pose proof (int_of_str_of_N H n) as In.
    fold (str_of_N n) in Dn. generalize dependent (str_of_N n). intros ds.
    intros Nn Dn In.
    let v := eval vm_compute in (py "ждать(") in change (py "ждать(") with v.
    let v := eval vm_compute in (py ")") in change (py ")") with v.
    cbn [app]. scan_token H. scan_token H.
    rewrite scan_digits;
      [|exact Nn|exact Dn|split; [vm_compute; reflexivity|discriminate]].
    rewrite In.
    assert (first_match (token_specs H) [41%N] = Some ("RPAREN", 1)) as F
      by (vm_compute; reflexivity).
    rewrite (scan_match H _ _ _ _ F). reflexivity. }
  rewrite T.
  assert (forall p1 p2 p3 p4 p5 p6,
          parse H (3 + fuel)
            [ {| tk_type := "DELAY"; tk_value := VStr (py "ждать");
                 tk_line := 1; tk_column := 1 |};
              {| tk_type := "LPAREN"; tk_value := p1;
                 tk_line := 1; tk_column := 6 |};
              {| tk_type := "INTEGER"; tk_value := p2;
                 tk_line := 1; tk_column := 7 |};
              {| tk_type := "RPAREN"; tk_value := p3;
                 tk_line := 1; tk_column := p4 |};
              eof_token p5 p6 ]
          = Return (ProgramNode [DelayNode p2])) as P
    by (intros; vm_compute; reflexivity).
  rewrite P. cbv beta iota.
  rewrite generate_join, generate_lines_eq.
  change (translate H (first_loop_body _) 1)
    with (Return (A := list pystr) []).
  change (translate H (program_children
                         (ProgramNode [DelayNode (VInt (Z.of_N n))])) 1)
    with (Return [(py "  " ++ []) ++ py "delay(" ++ str_of_Z (Z.of_N n)
                    ++ py ");"]).
  rewrite str_of_Z_of_N. cbn [fst]. do 3 f_equal.
Qed.

(** X19.  A pin declared as output by its number [n], or by [Dn], is
    configured in the initialisation routine as pin [n]. *)
Theorem compile_pin_output n fuel c :
  fst (compile H (2 + fuel) (py "пин " ++ str_of_N n ++ py " = выход") c)
  = Return (join [10%N]
              (assemble [py "  pinMode(" ++ str_of_N n ++ py ", OUTPUT);"]
                 []))
  /\ fst (compile H (2 + fuel) (py "пин D" ++ str_of_N n ++ py " = выход") c)
     = Return (join [10%N]
                 (assemble [py "  pinMode(" ++ str_of_N n ++ py ", OUTPUT);"]
                    [])).
Proof.
  assert (forall kind pin p1 p2 p3 p4 p5 p6 p7 p8 p9 p10 p11 p12 p13,
          kind_in kind ["INTEGER"; "PIN_PREFIX"] = true ->
          parse H (2 + fuel)
            [ {| tk_type := "PIN"; tk_value := p1; tk_line := p2;
                 tk_column := p3 |};
              {| tk_type := kind; tk_value := pin; tk_line := p12;
                 tk_column := p13 |};
              {| tk_type := "ASSIGN"; tk_value := p4; tk_line := p5;
                 tk_column := p6 |};
              {| tk_type := "OUTPUT"; tk_value := VStr (py "выход");
                 tk_line := p7; tk_column := p8 |};
              {| tk_type := "EOF"; tk_value := p9; tk_line := p10;
                 tk_column := p11 |} ]
          = Return (ProgramNode
                      [PinDeclarationNode pin (VStr (py "выход")) None]))
    as P.
  { intros kind pin p1 p2 p3 p4 p5 p6 p7 p8 p9 p10 p11 p12 p13 K.
    unfold kind_in in K. cbn [existsb] in K. rewrite orb_false_r in K.
    apply orb_prop in K as [K|K]; apply String.eqb_eq in K; subst kind;
      vm_compute; reflexivity. }
  assert (forall pin,
            normalize_pin H pin = Return (str_of_N n) ->
            generate H (ProgramNode
                          [PinDeclarationNode pin (VStr (py "выход")) None])
            = Return (join [10%N]
                        (assemble [py "  pinMode(" ++ str_of_N n
                                     ++ py ", OUTPUT);"] []))) as G.
  { intros pin Np. rewrite generate_join, generate_lines_eq.
    change (translate H (first_loop_body _) 1)
      with (Return (A := list pystr) []).
    cbn [program_children].
    assert (translate H [PinDeclarationNode pin (VStr (py "выход")) None] 1
            = Return [py "  pinMode(" ++ str_of_N n ++ py ", OUTPUT);"])
      as ->; [|reflexivity].
    unfold translate. cbn [for_each generate_node].
    unfold generate_pin_declaration, bind, get, lift. rewrite Np.
    reflexivity. }
  pose proof (str_of_N_nonempty n) as Nn.
  pose proof (uint_digits_digit (N.to_uint n)) as Dn.
  pose proof (int_of_str_of_N H n) as In.
  fold (str_of_N n) in Dn.
  unfold compile. split.
  - assert (exists p1 p2 p3 p4 p5 p6 p7 p8 p9 p10 p11 p12 p13,
              tokenize H (py "пин " ++ str_of_N n ++ py " = выход") =
              [ {| tk_type := "PIN"; tk_value := p1; tk_line := p2;
                   tk_column := p3 |};
                {| tk_type := "INTEGER"; tk_value := VInt (Z.of_N n);
                   tk_line := p12; tk_column := p13 |};
                {| tk_type := "ASSIGN"; tk_value := p4; tk_line := p5;
                   tk_column := p6 |};
                {| tk_type := "OUTPUT"; tk_value := VStr (py "выход");
                   tk_line := p7; tk_column := p8 |};
                {| tk_type := "EOF"; tk_value := p9; tk_line := p10;
                   tk_column := p11 |} ])
      as (p1 & p2 & p3 & p4 & p5 & p6 & p7 & p8 & p9 & p10 & p11 & p12 & p13
          & ->).
    { unfold tokenize.
      let v := eval vm_compute in (py "пин ") in change (py "пин ") with v.
      let v := eval vm_compute in (py " = выход") in
        change (py " = выход") with v.
      cbn [app]. scan_token H.
      rewrite scan_space_digits by assumption.
      rewrite scan_digits;
        [|exact Nn|exact Dn|split; [vm_compute; reflexivity|discriminate]].
      rewrite In. cbn [lx_line lx_column lx_tokens app].
      generalize (len (str_of_N n)). intros w.
      scan_token H. scan_token H. scan_token H. scan_token H.
      cbn [scan lx_line lx_column lx_tokens app].
      do 13 eexists. reflexivity. }
    rewrite P by reflexivity. cbv beta iota.
    rewrite (G (VInt (Z.of_N n))); [reflexivity|].
    cbn [normalize_pin str]. rewrite str_of_Z_of_N. reflexivity.
  - assert (exists p1 p2 p3 p4 p5 p6 p7 p8 p9 p10 p11 p12 p13,
              tokenize H (py "пин D" ++ str_of_N n ++ py " = выход") =
              [ {| tk_type := "PIN"; tk_value := p1; tk_line := p2;
                   tk_column := p3 |};
                {| tk_type := "PIN_PREFIX";
                   tk_value := VStr (68%N :: str_of_N n);
                   tk_line := p12; tk_column := p13 |};
                {| tk_type := "ASSIGN"; tk_value := p4; tk_line := p5;
                   tk_column := p6 |};
                {| tk_type := "OUTPUT"; tk_value := VStr (py "выход");
                   tk_line := p7; tk_column := p8 |};
                {| tk_type := "EOF"; tk_value := p9; tk_line := p10;
                   tk_column := p11 |} ])
      as (p1 & p2 & p3 & p4 & p5 & p6 & p7 & p8 & p9 & p10 & p11 & p12 & p13
          & ->).
    { unfold tokenize.
      let v := eval vm_compute in (py "пин D") in change (py "пин D") with v.
      let v := eval vm_compute in (py " = выход") in
        change (py " = выход") with v.
      cbn [app]. scan_token H. scan_token H.
      rewrite scan_pin_prefix;
        [|exact Nn|exact Dn|vm_compute; reflexivity].
      cbn [lx_line lx_column lx_tokens app].
      generalize (len (68%N :: str_of_N n)). intros w.
      scan_token H. scan_token H. scan_token H. scan_token H.
      cbn [scan lx_line lx_column lx_tokens app].
      do 13 eexists. reflexivity. }
    rewrite P by reflexivity. cbv beta iota.
    rewrite (G (VStr (68%N :: str_of_N n))); [reflexivity|].
    vm_compute. reflexivity.
Qed.

(** X20.  The text of a string literal that is printed reaches the output
    without its quotes: [печать("s")] compiles to the call
    [Serial.print(s);], whatever the text [s]. *)
Theorem compile_print_string s fuel c :
  ~ In 34%N s ->
  fst (compile H (3 + fuel) (py "печать(" ++ quote ++ s ++ quote ++ py ")") c)
  = Return (join [10%N]
              (assemble [py "  Serial.print(" ++ s ++ py ");"] [])).
Proof.
  intros Q. unfold compile.
  assert (exists p1 p2 p3 p4 p5 p6 p7 p8 p9 p10 p11 p12 p13,
            tokenize H (py "печать(" ++ quote ++ s ++ quote ++ py ")") =
            [ {| tk_type := "PRINT"; tk_value := VStr (py "печать");
                 tk_line := p1; tk_column := p2 |};
              {| tk_type := "LPAREN"; tk_value := p3; tk_line := p4;
                 tk_column := p5 |};
              {| tk_type := "STRING"; tk_value := VStr s; tk_line := p6;
                 tk_column := p7 |};
              {| tk_type := "RPAREN"; tk_value := p8; tk_line := p9;
                 tk_column := p10 |};
              {| tk_type := "EOF"; tk_value := p11; tk_line := p12;
                 tk_column := p13 |} ])
    as (p1 & p2 & p3 & p4 & p5 & p6 & p7 & p8 & p9 & p10 & p11 & p12 & p13
        & ->).
  { unfold tokenize.
    let v := eval vm_compute in (py "печать(") in
      change (py "печать(") with v.
    let v := eval vm_compute in (py ")") in change (py ")") with v.
    cbn [app]. scan_token H.
    assert (first_match (token_specs H)
              (40%N :: quote ++ s ++ quote ++ [41%N])
            = Some ("LPAREN", 1)) as F by (vm_compute; reflexivity).
    rewrite (scan_match H _ _ _ _ F). clear F. cbn [drop take].
    rewrite drop_0.
    rewrite (scan_string H s [41%N] _ Q).
    generalize (len (quote ++ s ++ quote)). intros w.
    assert (first_match (token_specs H) [41%N] = Some ("RPAREN", 1)) as F
      by (vm_compute; reflexivity).
    rewrite (scan_match H _ _ _ _ F).
    do 13 eexists. reflexivity. }
  assert (parse H (3 + fuel)
            [ {| tk_type := "PRINT"; tk_value := VStr (py "печать");
                 tk_line := p1; tk_column := p2 |};
              {| tk_type := "LPAREN"; tk_value := p3; tk_line := p4;
                 tk_column := p5 |};
              {| tk_type := "STRING"; tk_value := VStr s; tk_line := p6;
                 tk_column := p7 |};
              {| tk_type := "RPAREN"; tk_value := p8; tk_line := p9;
                 tk_column := p10 |};
              {| tk_type := "EOF"; tk_value := p11; tk_line := p12;
                 tk_column := p13 |} ]
          = Return (ProgramNode [SerialPrintNode (VStr s) false])) as ->
    by (vm_compute; reflexivity).
  cbv beta iota. rewrite generate_join, generate_lines_eq.
  reflexivity.
Qed.

(** X21.  A call whose argument list is not closed before the end of the
    text is not reported as a syntax error: the end marker is taken for an
    argument, and [expect] then fails on the missing token itself. *)
Theorem compile_unclosed_call n fuel c :
  fst (compile H (4 + fuel) (py "ждать(" ++ str_of_N n) c)
  = Raise (AttributeError "line").
Proof.
  unfold compile.
  assert (exists p1 p2 p3 p4 p5 p6 p7 p8 p9 p10 p11 p12,
            tokenize H (py "ждать(" ++ str_of_N n) =
            [ {| tk_type := "DELAY"; tk_value := p1; tk_line := p2;
                 tk_column := p3 |};
              {| tk_type := "LPAREN"; tk_value := p4; tk_line := p5;
                 tk_column := p6 |};
              {| tk_type := "INTEGER"; tk_value := p7; tk_line := p8;
                 tk_column := p9 |};
              {| tk_type := "EOF"; tk_value := p10; tk_line := p11;
                 tk_column := p12 |} ])
    as (p1 & p2 & p3 & p4 & p5 & p6 & p7 & p8 & p9 & p10 & p11 & p12 & ->).
  { unfold tokenize.
    pose proof (str_of_N_nonempty n) as Nn.
    pose proof (uint_digits_digit (N.to_uint n)) as Dn.
    fold (str_of_N n) in Dn.
    let v := eval vm_compute in (py "ждать(") in change (py "ждать(") with v.
    cbn [app]. scan_token H. scan_token H.
    rewrite <- (app_nil_r (str_of_N n)).
    rewrite scan_digits; [|exact Nn|exact Dn|exact I].
    cbn [scan lx_line lx_column lx_tokens app].
    do 12 eexists. reflexivity. }
  assert (parse H (4 + fuel)
            [ {| tk_type := "DELAY"; tk_value := p1; tk_line := p2;
                 tk_column := p3 |};
              {| tk_type := "LPAREN"; tk_value := p4; tk_line := p5;
                 tk_column := p6 |};
              {| tk_type := "INTEGER"; tk_value := p7; tk_line := p8;
                 tk_column := p9 |};
              {| tk_type := "EOF"; tk_value := p10; tk_line := p11;
                 tk_column := p12 |} ]
          = Raise (AttributeError "line")) as ->
    by (vm_compute; reflexivity).
  reflexivity.
Qed.

(** *** Loops with a condition and function declarations *)










(** X22.  Compiling a text whose tokens hold no keyword of a function
    declaration terminates: the number of tokens is enough fuel. *)
Theorem compile_terminates source fuel c :
  no_function (tokenize H source) = true ->
  length (tokenize H source) <= fuel ->
  terminates (fst (compile H fuel source c)) = true.
Proof.
  intros NF Hle. unfold compile.
  pose proof (parse_from_spec H False (tokenize H source)
                (pos (Parser_init (tokenize H source))) fuel
                (length (tokenize H source)) false (or_intror NF)
                (or_intror Hle) (Parser_init (tokenize H source))
                (Parser_init_state (tokenize H source))) as S.
  unfold parse.
  destruct (parse_from H fuel (Parser_init (tokenize H source)))
    as [[program ?]| |]; [|reflexivity|destruct S].
  assert (terminates (generate H program) = true) as G.
  { rewrite generate_join. pose proof (generate_lines_outcome H program) as O.
    destruct (first_error (program_children program)).
    - rewrite O. reflexivity.
    - destruct O as (? & ? & _ & _ & ->). reflexivity. }
  destruct (generate H program); [reflexivity|reflexivity|discriminate G].
Qed.

(** *** The validation of the compiled text *)

Lemma split_lines_cons s : exists l ls, split_lines s = l :: ls.
Proof.
  induction s as [|c s (l & ls & E)]; [eexists _, _; reflexivity|].
  cbn [split_lines]. destruct (c =? 10)%N; [eexists _, _; reflexivity|].
  rewrite E. eexists _, _. reflexivity.
Qed.

Lemma contains_cons needle c s :
  contains needle s = true -> contains needle (c :: s) = true.
Proof. intros E. cbn [contains]. rewrite E. apply orb_true_r. Qed.

(** A prefix without a line feed lies in the first line. *)
Lemma startswith_first_line needle s :
  ~ In 10%N needle -> startswith s needle = true ->
  exists l ls, split_lines s = l :: ls /\ startswith l needle = true.
Proof.
  revert s. induction needle as [|x needle IH]; intros s N S.
  - destruct (split_lines_cons s) as (l & ls & E).
    exists l, ls. split; [exact E|reflexivity].
  - destruct s as [|c s]; [discriminate S|]. cbn [startswith] in S.
    apply andb_prop in S as [Ex S]. apply N.eqb_eq in Ex. subst c.
    destruct (IH s) as (l & ls & E & L);
      [intros I'; apply N; right; exact I'|exact S|].
    cbn [split_lines].
    destruct (N.eqb_spec x 10) as [->|_];
      [exfalso; apply N; left; reflexivity|].
    rewrite E. exists (x :: l), ls. split; [reflexivity|].
    cbn [startswith]. rewrite N.eqb_refl. exact L.
Qed.

Lemma contains_start needle s :
  startswith s needle = true -> contains needle s = true.
Proof. intros E. destruct s; cbn [contains]; rewrite E; reflexivity. Qed.

(** Text without a line feed that occurs in a string occurs in one of its
    lines. *)
Lemma contains_line needle s :
  ~ In 10%N needle -> contains needle s = true ->
  existsb (contains needle) (split_lines s) = true.
Proof.
  intros N. induction s as [|c s IH]; intros C.
  - cbn [contains] in C. rewrite orb_false_r in C.
    cbn. rewrite !orb_false_r. exact C.
  - cbn [contains] in C. apply orb_prop in C as [S|C].
    + destruct (startswith_first_line needle (c :: s) N S)
        as (l & ls & E & L).
      rewrite E. cbn [existsb]. rewrite (contains_start _ _ L). reflexivity.
    + specialize (IH C). cbn [split_lines].
      destruct (c =? 10)%N.
      * cbn [existsb]. rewrite IH. apply orb_true_r.
      * destruct (split_lines s) as [|l ls]; [discriminate IH|].
        cbn [existsb] in IH |- *. apply orb_prop in IH as [L|L].
        -- rewrite (contains_cons _ c _ L). reflexivity.
        -- rewrite L. apply orb_true_r.
Qed.

Lemma contains_app needle a b :
  contains needle b = true -> contains needle (a ++ b) = true.
Proof.
  intros C. induction a as [|c a IH]; [exact C|].
  cbn [app]. apply contains_cons. exact IH.
Qed.

Lemma startswith_app needle l b :
  startswith l needle = true -> startswith (l ++ b) needle = true.
Proof.
  revert l. induction needle as [|x needle IH]; intros l; [reflexivity|].
  destruct l as [|y l]; [discriminate|]. cbn [startswith app].
  intros S. apply andb_prop in S as [E S]. rewrite E. exact (IH _ S).
Qed.

Lemma contains_app_l needle a b :
  contains needle a = true -> contains needle (a ++ b) = true.
Proof.
  induction a as [|c a IH].
  - cbn [contains]. rewrite orb_false_r. intros S.
    apply contains_start. exact (startswith_app _ [] b S).
  - intros C. cbn [contains] in C. apply orb_prop in C as [S|C].
    + apply contains_start. exact (startswith_app _ _ b S).
    + cbn [app]. apply contains_cons. exact (IH C).
Qed.

Lemma contains_join needle sep l before after :
  contains needle l = true ->
  contains needle (join sep (before ++ l :: after)) = true.
Proof.
  intros C. induction before as [|x before IH]; cbn [app].
  - destruct after as [|y after]; [exact C|].
    cbn [join]. apply contains_app_l. exact C.
  - change (join sep (x :: before ++ l :: after))
      with (match before ++ l :: after with
            | [] => x
            | _ :: _ => x ++ sep ++ join sep (before ++ l :: after)
            end).
    destruct (before ++ l :: after) eqn:E; [destruct before; discriminate E|].
    apply contains_app, contains_app. exact IH.
Qed.

(** X23.  [validate] finds nothing to report in a text [compile] has
    returned: both routines are always there.  On a compiler that has
    compiled nothing it reports both. *)
Theorem validate_compiled fuel source c text c' :
  compile H fuel source c = (Return text, c') ->
  validate c' = (true, [])
  /\ validate ArduinoScriptCompiler_init
     = (false, [py "Отсутствует функция setup()";
                py "Отсутствует функция loop()"]).
Proof.
  intros C. split; [|vm_compute; reflexivity].
  pose proof (compile_cpp_code H _ _ _ _ _ C) as Ec.
  unfold compile in C.
  destruct (parse H fuel (tokenize H source)) as [program| |];
    [|discriminate C..].
  destruct (generate H program) as [text'| |] eqn:G; [|discriminate C..].
  pose proof (f_equal fst C) as Et. cbn [fst] in Et. clear C.
  rewrite generate_join in G.
  pose proof (generate_lines_outcome H program) as O.
  destruct (first_error (program_children program)).
  { rewrite O in G. discriminate G. }
  destruct O as (setup_ls & body & _ & _ & O). rewrite O in G.
  assert (text = join [10%N] (assemble setup_ls body)) as ->
    by congruence.
  clear G Et.
  assert (forall needle,
            forallb (fun ch => negb (ch =? 10)%N) needle = true ->
            (contains needle (py "void setup() {") = true
             \/ contains needle (py "void loop() {") = true) ->
            existsb (contains needle)
              (split_lines (join [10%N] (assemble setup_ls body))) = true)
    as Found.
  { intros needle N0 Fs.
    assert (~ In 10%N needle) as N.
    { intros I'. rewrite forallb_forall in N0. specialize (N0 _ I').
      discriminate N0. }
    destruct Fs as [F|F]; apply contains_line; try exact N.
    - unfold assemble. apply contains_join. exact F.
    - assert (assemble setup_ls body
              = (header_lines ++ py "void setup() {" :: setup_ls
                   ++ [py "}"; []])
                ++ py "void loop() {" :: body ++ [py "}"]) as ->.
      { unfold assemble. rewrite <- app_assoc. cbn [app].
        rewrite <- app_assoc. reflexivity. }
      apply contains_join. exact F. }
  unfold validate. rewrite Ec.
  rewrite !Found;
    [reflexivity
    |vm_compute; reflexivity|left; vm_compute; reflexivity
    |vm_compute; reflexivity|right; vm_compute; reflexivity].
Qed.

End Pipeline.

(** ** Instances *)

(** The objects keep what a call leaves: a generator asked twice for the
    text of the empty program gives a longer text the second time. *)
Lemma generate_at_again :
  exists text h1 text' h2,
    generate_at basic_host 0
      {[ 0 := GeneratorObject (Some (ProgramNode [])) CodeGenerator_init ]}
    = Return (text, h1)
    /\ generate_at basic_host 0 h1 = Return (text', h2)
    /\ length text < length text'.
Proof.
  eexists _, _, _, _. split; [vm_compute; reflexivity|].
  split; [vm_compute; reflexivity|]. vm_compute. lia.
Qed.

(** The determinism of [compile] on the blinking program: a call on a
    fresh instance with fuel 10, and a call with fuel 20 on the same
    instance in the store the first call has left. *)
Lemma compile_deterministic_witness :
  fresh_store !! 0 = Some (CompilerObject ArduinoScriptCompiler_init)
  /\ used_store !! 0
     = Some (CompilerObject
               (snd (compile basic_host 10 blink_source
                       ArduinoScriptCompiler_init)))
  /\ result (compile_at basic_host 10 0 blink_source fresh_store)
     = result (compile_at basic_host 20 0 blink_source used_store)
  /\ forall text h1,
       compile_at basic_host 10 0 blink_source fresh_store
       = Return (text, h1) ->
       forall l o, l <> 0 -> fresh_store !! l = Some o -> h1 !! l = Some o.
Proof.
  split; [vm_compute; reflexivity|]. split; [vm_compute; reflexivity|].
  apply (compile_deterministic basic_host blink_source 10 20 0 0
           ArduinoScriptCompiler_init
           (snd (compile basic_host 10 blink_source
                   ArduinoScriptCompiler_init))
           fresh_store used_store);
    vm_compute; reflexivity.
Defined.

(** The repeating routine of the blinking program. *)
Lemma loop_routine_first_loop_witness :
  generate_lines basic_host blink_ast = Return blink_lines
  /\ translate basic_host (first_loop_body blink_ast) 1
     = Return (loop_routine blink_lines).
Proof.
  split; [vm_compute; reflexivity|].
  apply (loop_routine_first_loop basic_host blink_ast blink_lines).
  vm_compute. reflexivity.
Defined.

(** A program of a serial initialisation, a message, one output pin, and a
    loop that only waits. *)
Lemma setup_block_single_output_pin_witness :
  exists text,
    generate basic_host
      (ProgramNode
         ([SerialBeginNode (VInt 9600);
           SerialPrintNode (VStr (py "ready")) false]
            ++ PinDeclarationNode (VInt 13) (VStr (py "выход")) None
            :: [LoopNode [DelayNode (VInt 5)]]))
      = Return text
    /\ In (py "  pinMode(" ++ py "13" ++ py ", OUTPUT);")
         (setup_block (split_lines text))
    /\ mentions "pinMode" (setup_block (split_lines text)) = 1
    /\ mentions "digitalWrite" (setup_block (split_lines text)) = 0
    /\ mentions "analogWrite" (setup_block (split_lines text)) = 0.
Proof.
  apply (setup_block_single_output_pin basic_host
           [SerialBeginNode (VInt 9600);
            SerialPrintNode (VStr (py "ready")) false]
           [LoopNode [DelayNode (VInt 5)]] (VInt 13) (py "13")).
  - constructor; [vm_compute; reflexivity|].
    constructor; [vm_compute; reflexivity|constructor].
  - constructor; [vm_compute; reflexivity|constructor].
  - vm_compute. reflexivity.
  - vm_compute. reflexivity.
Defined.

(** C3, counterexample.  The program [write_source] has exactly one pin
    declaration, in output mode and without initial value, and a write at
    the top level; the initialisation block of its text holds a write call.
    So does the one of [inject_source], where the write call comes out of a
    printed string literal, and the one of the blinking program, whose
    writes are inside the loop. *)
Lemma setup_block_write_counterexample :
  (parse basic_host 5 (tokenize basic_host write_source) = Return write_ast
   /\ exists text,
        generate basic_host write_ast = Return text
        /\ setup_block (split_lines text)
           = [py "  pinMode(13, OUTPUT);"; py "  digitalWrite(13, true);"]
        /\ mentions "digitalWrite" (setup_block (split_lines text)) = 1)
  /\ (exists text c',
        compile basic_host 5 inject_source ArduinoScriptCompiler_init
        = (Return text, c')
        /\ setup_block (split_lines text)
           = [py "  pinMode(13, OUTPUT);"; py "  Serial.print(a);";
              py "  digitalWrite(13, HIGH);"])
  /\ (parse basic_host 10 (tokenize basic_host blink_source)
        = Return blink_ast
      /\ generate basic_host blink_ast = Return (join [10%N] blink_lines)
      /\ mentions "digitalWrite"
           (setup_block (split_lines (join [10%N] blink_lines))) = 2).
Proof.
  split; [|split].
  - split; [vm_compute; reflexivity|].
    eexists. split; [vm_compute; reflexivity|].
    split; vm_compute; reflexivity.
  - eexists _, _. split; vm_compute; reflexivity.
  - split; [vm_compute; reflexivity|].
    split; vm_compute; reflexivity.
Qed.



(** A string literal of two lines. *)
Lemma tokenize_string_literal_witness :
  tokenize basic_host (quote ++ [97; 10; 98]%N ++ quote)
  = single_token "STRING" (VStr [97; 10; 98]%N)
      (quote ++ [97; 10; 98]%N ++ quote).
Proof.
  apply (tokenize_string_literal basic_host [97; 10; 98]%N).
  cbn [In]. lia.
Defined.

(** A comment in front of a pin declaration. *)
Lemma tokenize_comment_line_witness :
  tokenize basic_host (py "//" ++ py " note" ++ [10%N] ++ py "пин 13")
  = shift_line 1 <$> tokenize basic_host (py "пин 13").
Proof.
  apply (tokenize_comment_line basic_host (py " note") (py "пин 13")).
  vm_compute. lia.
Defined.

(** The tokens of the blinking program, with as much fuel as tokens and
    with more. *)
Lemma parse_terminates_witness :
  terminates (parse basic_host 40 (tokenize basic_host blink_source)) = true
  /\ parse basic_host 40 (tokenize basic_host blink_source)
     = parse basic_host (length (tokenize basic_host blink_source))
         (tokenize basic_host blink_source).
Proof.
  apply (parse_terminates basic_host (tokenize basic_host blink_source) 40).
  - vm_compute. reflexivity.
  - vm_compute. lia.
Defined.

(** The parser at the end of the blinking program. *)
Lemma parse_consumes_tokens_witness :
  exists program p',
    parse_from basic_host 10 (Parser_init (tokenize basic_host blink_source))
    = Return (program, p')
    /\ tokens p' = tokenize basic_host blink_source
    /\ pos p' = length (tokenize basic_host blink_source).
Proof.
  eexists _, _. split; [vm_compute; reflexivity|].
  apply (parse_consumes_tokens basic_host blink_source 10 blink_ast).
  vm_compute. reflexivity.
Defined.

(** Tokens that start no statement. *)
Lemma parse_skips_witness :
  parse basic_host 4 (tokenize basic_host (py "конец 42 )"))
  = Return (ProgramNode []).
Proof.
  apply (parse_skips basic_host (tokenize basic_host (py "конец 42 )")) 4).
  - vm_compute. repeat constructor.
  - vm_compute. lia.
Defined.

(** A function declaration that is cut off behind its opening
    parenthesis. *)
Lemma function_declaration_diverges_witness :
  parse basic_host 100
    ({| tk_type := "FUNCTION"; tk_value := VStr (py "функция");
        tk_line := 1; tk_column := 1 |}
     :: {| tk_type := "ID"; tk_value := VStr (py "f"); tk_line := 1;
           tk_column := 9 |}
     :: {| tk_type := "LPAREN"; tk_value := VStr (py "("); tk_line := 1;
           tk_column := 10 |}
     :: eof_token 1 11 :: [])
  = OutOfFuel.
Proof.
  apply (function_declaration_diverges basic_host 100).
  vm_compute. reflexivity.
Defined.

(** The text generated for the blinking program. *)
Lemma setup_block_translation_witness :
  exists setup_ls body,
    join [10%N] blink_lines = join [10%N] (assemble setup_ls body)
    /\ translate basic_host (program_children blink_ast) 1 = Return setup_ls
    /\ translate basic_host (first_loop_body blink_ast) 1 = Return body
    /\ has_block body setup_ls
    /\ Forall (fun l => indented l = true) setup_ls
    /\ Forall (fun l => indented l = true) body.
Proof.
  apply (setup_block_translation basic_host blink_ast
           (join [10%N] blink_lines)).
  vm_compute. reflexivity.
Defined.

(** The text compiled from a serial initialisation. *)
Lemma compile_includes_fixed_witness :
  take 6 (split_lines (join [10%N] serial_lines))
  = header_lines ++ [py "void setup() {"]
  /\ List.filter is_include header_lines = [py "#include <Arduino.h>"].
Proof.
  eapply (compile_includes_fixed basic_host 2 serial_source
            ArduinoScriptCompiler_init).
  vm_compute. reflexivity.
Defined.

(** A text of two spaces, a line feed and a tab. *)
Lemma compile_blank_text_witness :
  fst (compile basic_host 1 [32; 32; 10; 9]%N ArduinoScriptCompiler_init)
  = Return (join [10%N] (assemble [] [])).
Proof.
  apply (compile_blank_text basic_host [32; 32; 10; 9]%N 0
           ArduinoScriptCompiler_init).
  repeat constructor.
Defined.

(** The printing of two words. *)
Lemma compile_print_string_witness :
  fst (compile basic_host 3
         (py "печать(" ++ quote ++ py "Hi all" ++ quote ++ py ")")
         ArduinoScriptCompiler_init)
  = Return (join [10%N]
              (assemble [py "  Serial.print(" ++ py "Hi all" ++ py ");"] [])).
Proof.
  apply (compile_print_string basic_host (py "Hi all") 0
           ArduinoScriptCompiler_init).
  vm_compute. lia.
Defined.

(** The blinking program, with as much fuel as it has tokens. *)
Lemma compile_terminates_witness :
  terminates
    (fst (compile basic_host 28 blink_source ArduinoScriptCompiler_init))
  = true.
Proof.
  apply (compile_terminates basic_host blink_source 28
           ArduinoScriptCompiler_init).
  - vm_compute. reflexivity.
  - vm_compute. lia.
Defined.

(** The compiler that has compiled the blinking program. *)
Lemma validate_compiled_witness :
  exists text c',
    compile basic_host 10 blink_source ArduinoScriptCompiler_init
    = (Return text, c')
    /\ validate c' = (true, [])
    /\ validate ArduinoScriptCompiler_init
       = (false, [py "Отсутствует функция setup()";
                  py "Отсутствует функция loop()"]).
Proof.
  eexists _, _. split; [vm_compute; reflexivity|].
  eapply (validate_compiled basic_host 10 blink_source
            ArduinoScriptCompiler_init).
  vm_compute. reflexivity.
Defined.
